(** * Annotation reconciliation, rendering and scheduling of the GEC
    annotation platform (backend/app/routers/texts.py), shallowly embedded.

    Python [str] values are modelled as Rocq [string]s over ASCII; the
    character classes below are the ASCII part of the Unicode classes that
    [str.isspace], [str.isalnum] and the [re] escapes [\s], [\w], [\d] use. *)

From Stdlib Require Import ZArith String Ascii List Bool Lia Sorting.Sorted Sorting.Permutation.
From stdpp Require Import base list gmap strings.
Import ListNotations.
Open Scope Z_scope.

(* ------------------------------------------------------------------ *)
(** ** Characters *)

Definition ccode (c : ascii) : nat := nat_of_ascii c.

(** [str.isspace] / [\s] on ASCII: \t \n \v \f \r, the separators
    \x1c-\x1f, and the space. *)
Definition is_space (c : ascii) : bool :=
  let n := ccode c in ((9 <=? n) && (n <=? 13))%nat || ((28 <=? n) && (n <=? 32))%nat.

Definition is_digit (c : ascii) : bool :=
  let n := ccode c in ((48 <=? n) && (n <=? 57))%nat.

Definition is_alpha (c : ascii) : bool :=
  let n := ccode c in ((65 <=? n) && (n <=? 90))%nat || ((97 <=? n) && (n <=? 122))%nat.

Definition is_alnum (c : ascii) : bool := is_alpha c || is_digit c.

(** [\w] *)
Definition is_word (c : ascii) : bool := is_alnum c || Ascii.eqb c "_"%char.

Definition in_chars (cs : string) (c : ascii) : bool :=
  existsb (Ascii.eqb c) (list_ascii_of_string cs).

Fixpoint chars_eqb (a b : list ascii) : bool :=
  match a, b with
  | [], [] => true
  | x :: a', y :: b' => Ascii.eqb x y && chars_eqb a' b'
  | _, _ => false
  end.

Fixpoint take_while (p : ascii -> bool) (l : list ascii) : list ascii :=
  match l with
  | [] => []
  | c :: r => if p c then c :: take_while p r else []
  end.

Fixpoint drop_while (p : ascii -> bool) (l : list ascii) : list ascii :=
  match l with
  | [] => []
  | c :: r => if p c then drop_while p r else l
  end.

(** [re.sub(r"[.,;:!?]+$", "", v)] *)
Definition rstrip_trailing_punct (l : list ascii) : list ascii :=
  rev (drop_while (in_chars ".,;:!?") (rev l)).

(** [_is_punct_only] *)
Definition is_punct_only (v : list ascii) : bool :=
  match v with
  | [] => false
  | _ => forallb (fun c => negb (is_alnum c)) v
  end.

(* ------------------------------------------------------------------ *)
(** ** The special-token patterns of [_SPECIAL_TOKEN_SOURCES]

    Each matcher is the leftmost-greedy (backtracking) match of the
    pattern anchored at the head of the list, as [regex.match(text, idx)]
    returns it. *)

(** [\+\d[\d()\- ]*\d] : the star is greedy, so the match ends at the
    last digit of the maximal run of [[\d()\- ]]. *)
Definition phone_class (c : ascii) : bool := is_digit c || in_chars "()- " c.

Fixpoint longest_prefix_ending_in_digit (r : list ascii) : option (list ascii) :=
  match r with
  | [] => None
  | c :: r' =>
      match longest_prefix_ending_in_digit r' with
      | Some p => Some (c :: p)
      | None => if is_digit c then Some [c] else None
      end
  end.

Definition match_phone (s : list ascii) : option (list ascii) :=
  match s with
  | p :: d :: rest =>
      if Ascii.eqb p "+"%char && is_digit d then
        match longest_prefix_ending_in_digit (take_while phone_class rest) with
        | Some tl => Some (p :: d :: tl)
        | None => None
        end
      else None
  | _ => None
  end.

(** [[A-Za-z0-9._%+-]+@[A-Za-z0-9.-]+\.[A-Za-z]{2,}] *)
Definition email_local (c : ascii) : bool := is_alnum c || in_chars "._%+-" c.
Definition email_domain (c : ascii) : bool := is_alnum c || in_chars ".-" c.

Definition dot_two_letters (r : list ascii) : bool :=
  match r with
  | d :: a :: b :: _ => Ascii.eqb d "."%char && is_alpha a && is_alpha b
  | _ => false
  end.

(** Longest non-empty prefix [D] of the domain run followed by a dot and
    at least two letters; returns [D] and the greedy letter run. *)
Fixpoint split_domain (cs : list ascii) : option (list ascii * list ascii) :=
  match cs with
  | [] => None
  | c :: r =>
      match split_domain r with
      | Some (d, t) => Some (c :: d, t)
      | None => if dot_two_letters r then Some ([c], take_while is_alpha (tail r)) else None
      end
  end.

Definition match_email (s : list ascii) : option (list ascii) :=
  let loc := take_while email_local s in
  match loc, drop (length loc) s with
  | _ :: _, at_ :: rest =>
      if Ascii.eqb at_ "@"%char then
        match split_domain (take_while email_domain rest) with
        | Some (d, t) => Some (loc ++ at_ :: d ++ "."%char :: t)
        | None => None
        end
      else None
  | _, _ => None
  end.

(** [(https?:\/\/[^\s,;:!]+|www\.[^\s,;:!]+)] *)
Definition url_class (c : ascii) : bool := negb (is_space c || in_chars ",;:!" c).

Definition match_url_prefix (pre : string) (s : list ascii) : option (list ascii) :=
  let p := list_ascii_of_string pre in
  if chars_eqb (firstn (length p) s) p then
    match take_while url_class (drop (length p) s) with
    | [] => None
    | run => Some (p ++ run)
    end
  else None.

Definition match_url (s : list ascii) : option (list ascii) :=
  match match_url_prefix "https://" s with
  | Some m => Some m
  | None =>
      match match_url_prefix "http://" s with
      | Some m => Some m
      | None => match_url_prefix "www." s
      end
  end.

(** [_SPECIAL_TOKEN_MATCHERS], tried in order. *)
Definition match_special (s : list ascii) : option (list ascii) :=
  match match_phone s with
  | Some m => Some m
  | None => match match_email s with Some m => Some m | None => match_url s end
  end.

(** The anchored [^...$] versions of [_SPECIAL_TOKEN_FULL]: [$] also
    accepts a single trailing newline. *)
Definition all_chars (p : ascii -> bool) (l : list ascii) : bool := forallb p l.

Definition full_phone (s : list ascii) : bool :=
  match s with
  | p :: d :: rest =>
      Ascii.eqb p "+"%char && is_digit d &&
      match rev rest with
      | e :: mid => is_digit e && all_chars phone_class mid
      | [] => false
      end
  | _ => false
  end.

Definition full_email (s : list ascii) : bool :=
  let loc := take_while email_local s in
  match loc, drop (length loc) s with
  | _ :: _, at_ :: rest =>
      Ascii.eqb at_ "@"%char &&
      match split_domain rest with
      | Some (d, t) => chars_eqb (d ++ "."%char :: t) rest && all_chars email_domain d
      | None => false
      end
  | _, _ => false
  end.

Definition full_url (s : list ascii) : bool :=
  match match_url s with
  | Some m => Nat.eqb (length m) (length s)
  | None => false
  end.

Definition full_match_any (s : list ascii) : bool := full_phone s || full_email s || full_url s.

Definition strip_final_newline (s : list ascii) : list ascii :=
  match rev s with
  | c :: r => if Ascii.eqb c "010"%char then rev r else s
  | [] => s
  end.

(** [_is_special_token] *)
Definition is_special_token (v : string) : bool :=
  let trimmed := rstrip_trailing_punct (list_ascii_of_string v) in
  match trimmed with
  | [] => false
  | _ => full_match_any trimmed || full_match_any (strip_final_newline trimmed)
  end.

(* ------------------------------------------------------------------ *)
(** ** Tokens and [_tokenize_to_tokens] *)

Inductive kind := Word | Punct | Special.

Record Token := mkToken { tok_text : string; tok_kind : kind; tok_space_before : bool }.

Definition word_or_punct (v : list ascii) : kind :=
  if is_punct_only v then Punct else Word.

(** One iteration of the [while idx < len(text)] loop per unit of fuel;
    every iteration that does not stop consumes at least one character,
    so [S (length text)] units suffice ([tokenize_to_tokens]). [emitted]
    is [bool(tokens)]. *)
Fixpoint tokenize_loop (fuel : nat) (s : list ascii) (emitted : bool) : list Token :=
  match fuel with
  | O => []
  | S fuel' =>
      let had_space := match take_while is_space s with [] => false | _ => true end in
      let rest := drop_while is_space s in
      match rest with
      | [] => []
      | c :: r =>
          let sb := if emitted then had_space else false in
          match match_special rest with
          | Some raw =>
              let value := rstrip_trailing_punct raw in
              let advance_by := match value with [] => length raw | _ => length value end in
              match value with
              | [] => tokenize_loop fuel' (drop advance_by rest) emitted
              | _ => mkToken (string_of_list_ascii value) Special sb
                       :: tokenize_loop fuel' (drop advance_by rest) true
              end
          | None =>
              (* _BASE_REGEX = (\w+)|[^\w\s] *)
              let value := if is_word c then take_while is_word rest else [c] in
              mkToken (string_of_list_ascii value) (word_or_punct value) sb
                :: tokenize_loop fuel' (drop (length value) rest) true
          end
      end
  end.

Definition tokenize_to_tokens (text : string) : list Token :=
  let s := list_ascii_of_string text in
  tokenize_loop (S (length s)) s false.

(** [str.split(sep)] for a one-character separator. *)
Fixpoint split_on (sep : ascii) (l : list ascii) : list (list ascii) :=
  match l with
  | [] => [[]]
  | c :: r =>
      if Ascii.eqb c sep then [] :: split_on sep r
      else match split_on sep r with
           | h :: t => (c :: h) :: t
           | [] => [[c]]
           end
  end.

(** [_compute_line_breaks]: the cumulative token count at every line end
    except the last. *)
Fixpoint line_breaks_from (lines : list (list ascii)) (count : nat) : list nat :=
  match lines with
  | [] => []
  | [_] => []
  | line :: rest =>
      let count' := (count + length (tokenize_to_tokens (string_of_list_ascii line)))%nat in
      count' :: line_breaks_from rest count'
  end.

Definition compute_line_breaks (text : string) : list nat :=
  match text with
  | EmptyString => []
  | _ => line_breaks_from (split_on "010"%char (list_ascii_of_string text)) 0
  end.

(** [_build_text_from_tokens_with_breaks]; [break_counts.get(i, 0)] is the
    number of occurrences of [i] in [breaks]. *)
Fixpoint build_text_loop (tokens : list Token) (breaks : list nat)
    (visible_idx : nat) (at_line_start : bool) : string :=
  match tokens with
  | [] => EmptyString
  | tok :: rest =>
      match tok_text tok with
      | EmptyString => build_text_loop rest breaks visible_idx at_line_start
      | text =>
          let needs_space := negb at_line_start && tok_space_before tok in
          let visible_idx' := S visible_idx in
          let count := count_occ Nat.eq_dec breaks visible_idx' in
          (if needs_space then " " else "") ++ text ++
          (match count with
           | O => build_text_loop rest breaks visible_idx' false
           | _ => string_of_list_ascii (repeat "010"%char count)
                    ++ build_text_loop rest breaks visible_idx' true
           end)
      end
  end%string.

Definition build_text_from_tokens_with_breaks (tokens : list Token) (breaks : list nat) : string :=
  build_text_loop tokens breaks 0 true.

(** The tokenize-then-detokenize pair, with line breaks: the text a
    render with no structural edit produces. *)
Definition detokenize_roundtrip (text : string) : string :=
  build_text_from_tokens_with_breaks (tokenize_to_tokens text) (compute_line_breaks text).

(* ------------------------------------------------------------------ *)
(** ** Token snapshots ([_build_tokens_from_snapshot]) *)

Fixpoint is_prefix (p l : list ascii) : bool :=
  match p, l with
  | [], _ => true
  | x :: p', y :: l' => Ascii.eqb x y && is_prefix p' l'
  | _ :: _, [] => false
  end.

(** [source_text.find(sub, cursor)], searching the suffix [l] that starts
    at index [i]. *)
Fixpoint find_at (sub l : list ascii) (i : nat) : option nat :=
  if is_prefix sub l then Some i
  else match l with
       | [] => None
       | _ :: r => find_at sub r (S i)
       end.

Definition str_find (sub src : list ascii) (cursor : nat) : Z :=
  if Nat.ltb (length src) cursor then -1
  else match find_at sub (skipn cursor src) cursor with
       | Some i => Z.of_nat i
       | None => -1
       end.

Definition snapshot_kind (text : string) : kind :=
  if is_special_token text then Special
  else word_or_punct (list_ascii_of_string text).

Fixpoint snapshot_loop (snapshot : list string) (src : list ascii) (idx cursor : nat) : list Token :=
  match snapshot with
  | [] => []
  | text :: rest =>
      let ws := take_while is_space (skipn cursor src) in
      let has_space := match ws with [] => false | _ => true end in
      let cursor1 := (cursor + length ws)%nat in
      let t := list_ascii_of_string text in
      let next_index := match t with [] => -1 | _ => str_find t src cursor1 end in
      let has_space2 :=
        if Z.of_nat cursor1 <? next_index
        then has_space || existsb is_space (firstn (Z.to_nat next_index - cursor1) (skipn cursor1 src))
        else has_space in
      let cursor2 := if Z.of_nat cursor1 <? next_index then Z.to_nat next_index else cursor1 in
      let tok := mkToken text (snapshot_kind text) (match idx with O => false | _ => has_space2 end) in
      let cursor3 := if 0 <=? next_index then (Z.to_nat next_index + length t)%nat else cursor2 in
      tok :: snapshot_loop rest src (S idx) cursor3
  end.

Definition build_tokens_from_snapshot (snapshot : list string) (source_text : string) : list Token :=
  snapshot_loop snapshot (list_ascii_of_string source_text) 0 0.

(* ------------------------------------------------------------------ *)
(** ** Annotations and their payloads

    A payload is the JSON object of [Annotation.payload]; a key that is
    absent or [null] is [None]. Keys are the snake_case spellings. *)

Record Fragment := mkFragment {
  frag_id : option string;
  frag_text : string;
  frag_origin : option string;
  frag_space_before : option bool;
  frag_spaceBefore : option bool;
  frag_source_id : option string
}.

Record Payload := mkPayload {
  p_operation : option string;
  p_before_tokens : list string;
  p_after_tokens : list Fragment;
  p_move_from : option Z;
  p_move_to : option Z;
  p_move_len : option Z;
  p_text_tokens : option (list string);
  p_text_tokens_sha256 : option string;
  p_text_sha256 : option string
}.

Record Annotation := mkAnnotation {
  ann_id : option Z;            (* None for an unsaved render item *)
  ann_text_id : Z;
  ann_author : Z;
  ann_start : Z;
  ann_end : Z;
  ann_replacement : option string;
  ann_error_type : Z;
  ann_payload : Payload;
  ann_version : Z
}.

(** Python truthiness of an optional string / list. *)
Definition str_truthy (o : option string) : bool :=
  match o with Some (String _ _) => true | _ => false end.

Definition list_truthy {A} (l : list A) : bool :=
  match l with [] => false | _ => true end.

(** [_normalize_operation] *)
Definition normalize_operation (ann : Annotation) : string :=
  let p := ann_payload ann in
  let op := match p_operation p with
            | Some (String c s) => String c s
            | _ => if str_truthy (ann_replacement ann) then "replace" else "noop"
            end%string in
  if String.eqb op "noop" &&
     (list_truthy (p_before_tokens p) || list_truthy (p_after_tokens p)
      || str_truthy (ann_replacement ann))
  then "replace"%string else op.

(* ------------------------------------------------------------------ *)
(** ** Building replacement tokens ([_tokenize_edited_text],
    [_build_tokens_from_fragments]) *)

(** [re.split(r"(\s+)", text)] keeping the non-blank parts, each with
    [space_before] set when a blank part precedes it. *)
Fixpoint edited_loop (fuel : nat) (s : list ascii) (space_before : bool) : list Token :=
  match fuel with
  | O => []
  | S fuel' =>
      match s with
      | [] => []
      | c :: r =>
          if is_space c then edited_loop fuel' (drop_while is_space s) true
          else
            let part := take_while (fun x => negb (is_space x)) s in
            mkToken (string_of_list_ascii part) (word_or_punct part) space_before
              :: edited_loop fuel' (drop (length part) s) false
      end
  end.

Definition tokenize_edited_text (text : string) : list Token :=
  let s := list_ascii_of_string text in edited_loop (S (length s)) s false.

Definition kind_eqb (a b : kind) : bool :=
  match a, b with
  | Word, Word | Punct, Punct | Special, Special => true
  | _, _ => false
  end.

(** [spaceBefore] is read after [space_before] and wins. *)
Definition explicit_space (f : Fragment) : option bool :=
  match frag_spaceBefore f with
  | Some b => Some b
  | None => frag_space_before f
  end.

Definition fragment_first_space (frag_index : nat) (explicit : option bool)
    (default_first_space : option bool) (tok : Token) : bool :=
  let sb := match explicit with
            | Some e => e
            | None =>
                match frag_index with
                | S _ => negb (kind_eqb (tok_kind tok) Punct)
                | O => match default_first_space with
                       | Some d => d
                       | None => tok_space_before tok
                       end
                end
            end in
  match frag_index with
  | S _ => if negb sb && negb (kind_eqb (tok_kind tok) Punct) then true else sb
  | O => sb
  end.

Definition fragment_tokens (frag_index : nat) (frag : Fragment)
    (default_first_space : option bool) : list Token :=
  match frag_text frag with
  | EmptyString => []
  | text =>
      match tokenize_edited_text text with
      | [] => []
      | tok :: rest =>
          mkToken (tok_text tok) (tok_kind tok)
                  (fragment_first_space frag_index (explicit_space frag) default_first_space tok)
            :: rest
      end
  end.

Fixpoint fragments_loop (frags : list Fragment) (frag_index : nat)
    (default_first_space : option bool) : list Token :=
  match frags with
  | [] => []
  | f :: rest => fragment_tokens frag_index f default_first_space
                   ++ fragments_loop rest (S frag_index) default_first_space
  end.

Definition text_fragment (t : string) : Fragment :=
  mkFragment None t None None None None.

Definition build_tokens_from_fragments (fragments : list Fragment) (fallback_text : string)
    (default_first_space : option bool) : list Token :=
  let base := match fragments with
              | [] => match fallback_text with
                      | EmptyString => []
                      | _ => [text_fragment fallback_text]
                      end
              | _ => fragments
              end in
  fragments_loop base 0 default_first_space.

(* ------------------------------------------------------------------ *)
(** ** [_apply_annotations] *)

(** [sorted(...)] is stable: an insertion sort that puts an element
    before the first one whose key is not smaller. *)
Definition key4 := (Z * Z * Z * Z)%type.

Definition key4_leb (a b : key4) : bool :=
  let '(a1, a2, a3, a4) := a in
  let '(b1, b2, b3, b4) := b in
  (a1 <? b1) || ((a1 =? b1) && ((a2 <? b2) || ((a2 =? b2) &&
    ((a3 <? b3) || ((a3 =? b3) && (a4 <=? b4)))))).

Section StableSort.
Context {A : Type} (key : A -> key4).

Fixpoint insert_by_key (x : A) (l : list A) : list A :=
  match l with
  | [] => [x]
  | y :: l' => if key4_leb (key x) (key y) then x :: l else y :: insert_by_key x l'
  end.

Definition sort_by_key (l : list A) : list A := fold_right insert_by_key [] l.
End StableSort.

Definition opt_or_zero (o : option Z) : Z := match o with Some z => z | None => 0 end.

Definition apply_sort_key (ann : Annotation) : key4 :=
  (if String.eqb (normalize_operation ann) "move" then 0 else 1,
   ann_start ann, ann_end ann, opt_or_zero (ann_id ann)).

Definition zlen {A} (l : list A) : Z := Z.of_nat (length l).

Definition offset_at (offset_deltas : list (Z * Z)) (index : Z) : Z :=
  fold_left (fun acc '(start, delta) => if start <=? index then acc + delta else acc) offset_deltas 0.

Definition clamp_index {A} (working : list A) (idx : Z) : Z := Z.max 0 (Z.min (zlen working) idx).

(** [working[a:b]] and [del working[a:b]] for [0 <= a]. *)
Definition slice {A} (l : list A) (a b : Z) : list A :=
  firstn (Z.to_nat b - Z.to_nat a) (skipn (Z.to_nat a) l).
Definition del_slice {A} (l : list A) (a b : Z) : list A :=
  firstn (Z.to_nat a) l ++ skipn (Nat.max (Z.to_nat a) (Z.to_nat b)) l.
(** [working[a:a] = xs] *)
Definition insert_at {A} (l : list A) (a : Z) (xs : list A) : list A :=
  firstn (Z.to_nat a) l ++ xs ++ skipn (Z.to_nat a) l.

(** [_get_leading_space] *)
Definition get_leading_space (tokens : list Token) (index : Z) : bool :=
  if index <=? 0 then false
  else if zlen tokens <=? index then true
  else match nth_error tokens (Z.to_nat index) with
       | Some t => tok_space_before t
       | None => true
       end.

Definition set_first_space (moved : list Token) (b : bool) : list Token :=
  match moved with
  | [] => []
  | t :: r => mkToken (tok_text t) (tok_kind t) b :: r
  end.

Definition apply_move (working : list Token) (deltas : list (Z * Z)) (ann : Annotation) : list Token :=
  let p := ann_payload ann in
  let move_from := match p_move_from p with Some z => z | None => ann_start ann end in
  let move_to := match p_move_to p with Some z => z | None => ann_start ann end in
  let move_len := match p_move_len p with
                  | Some z => z
                  | None =>
                      match p_after_tokens p, p_before_tokens p with
                      | _ :: _, _ => zlen (p_after_tokens p)
                      | [], _ :: _ => zlen (p_before_tokens p)
                      | [], [] => Z.max 1 (ann_end ann - ann_start ann + 1)
                      end
                  end in
  let source_start := clamp_index working (move_from + offset_at deltas move_from) in
  let source_end := Z.max source_start (Z.min (zlen working - 1) (source_start + move_len - 1)) in
  let moved := slice working source_start (source_end + 1) in
  let working1 := del_slice working source_start (source_end + 1) in
  let ins0 := clamp_index working1 (move_to + offset_at deltas move_to) in
  let ins1 := if source_start <? ins0 then ins0 - zlen moved else ins0 in
  let insertion_index := clamp_index working1 ins1 in
  let leading_space := get_leading_space working1 insertion_index in
  insert_at working1 insertion_index (set_first_space moved leading_space).

Definition apply_edit (working : list Token) (deltas : list (Z * Z)) (ann : Annotation)
    (operation : string) : list Token * list (Z * Z) :=
  let p := ann_payload ann in
  let start_original := ann_start ann in
  let end_original := if ann_end ann =? 0 then start_original else ann_end ann in
  let target_start := clamp_index working (start_original + offset_at deltas start_original) in
  let leading_space := get_leading_space working target_start in
  let remove_count0 :=
    if String.eqb operation "insert" then 0
    else match p_before_tokens p with
         | _ :: _ => zlen (p_before_tokens p)
         | [] => Z.max 0 (end_original - start_original + 1)
         end in
  let remove_count := if zlen working <? target_start + remove_count0
                      then Z.max 0 (zlen working - target_start) else remove_count0 in
  let replacement_text := match ann_replacement ann with Some r => r | None => EmptyString end in
  let new_tokens0 := build_tokens_from_fragments (p_after_tokens p) replacement_text (Some leading_space) in
  let new_tokens := if String.eqb operation "delete" then [] else new_tokens0 in
  (firstn (Z.to_nat target_start) working ++ new_tokens
     ++ skipn (Z.to_nat (target_start + remove_count)) working,
   deltas ++ [(start_original, zlen new_tokens - remove_count)]).

Fixpoint apply_loop (anns : list Annotation) (working : list Token) (deltas : list (Z * Z)) : list Token :=
  match anns with
  | [] => working
  | ann :: rest =>
      let operation := normalize_operation ann in
      if String.eqb operation "noop" then apply_loop rest working deltas
      else if String.eqb operation "move" then apply_loop rest (apply_move working deltas ann) deltas
      else let '(w', d') := apply_edit working deltas ann operation in apply_loop rest w' d'
  end.

Definition apply_annotations (tokens : list Token) (annotations : list Annotation) : list Token :=
  apply_loop (sort_by_key apply_sort_key annotations) tokens [].

(* ------------------------------------------------------------------ *)
(** ** [_render_corrected_text] *)

Fixpoint first_snapshot (anns : list Annotation) : option (list string) :=
  match anns with
  | [] => None
  | a :: rest =>
      match p_text_tokens (ann_payload a) with
      | Some (t :: ts) => Some (t :: ts)
      | _ => first_snapshot rest
      end
  end.

(** [_resolve_tokens_snapshot_for_source] *)
Definition resolve_tokens_snapshot_for_source (source : string) (anns : list Annotation) : list Token :=
  match first_snapshot anns with
  | Some snapshot => build_tokens_from_snapshot snapshot source
  | None => tokenize_to_tokens source
  end.

Definition render_corrected_text (source : string) (annotations : list Annotation) : string :=
  let base_tokens := resolve_tokens_snapshot_for_source source annotations in
  let line_breaks := compute_line_breaks source in
  let corrected_tokens := apply_annotations base_tokens annotations in
  build_text_from_tokens_with_breaks corrected_tokens line_breaks.

(** [str.split()] with no separator: the maximal runs of non-blank
    characters. *)
Fixpoint split_ws_loop (fuel : nat) (s : list ascii) : list string :=
  match fuel with
  | O => []
  | S fuel' =>
      match drop_while is_space s with
      | [] => []
      | rest =>
          let w := take_while (fun c => negb (is_space c)) rest in
          string_of_list_ascii w :: split_ws_loop fuel' (drop (length w) rest)
      end
  end.

Definition str_split (text : string) : list string :=
  let s := list_ascii_of_string text in split_ws_loop (S (length s)) s.

(* ------------------------------------------------------------------ *)
(** ** [_sha256_text] and [_sha256_tokens]

    SHA-256 (FIPS 180-4) over the UTF-8 bytes of the text, as
    [hashlib.sha256(text.encode("utf-8")).hexdigest()]. 32-bit words are
    [Z]s in [0, 2^32) with the wrap-around written out. *)

Module Sha256.

Definition w32 (x : Z) : Z := x mod 2 ^ 32.
Definition add32 (xs : list Z) : Z := w32 (fold_left Z.add xs 0).
Definition rotr (n x : Z) : Z := Z.lor (Z.shiftr x n) (w32 (Z.shiftl x (32 - n))).
Definition not32 (x : Z) : Z := Z.lxor x (2 ^ 32 - 1).

(** The round constants and initial hash values, in decimal. *)
Definition K : list Z :=
  [1116352408; 1899447441; 3049323471; 3921009573; 961987163; 1508970993;
   2453635748; 2870763221; 3624381080; 310598401; 607225278; 1426881987;
   1925078388; 2162078206; 2614888103; 3248222580; 3835390401; 4022224774;
   264347078; 604807628; 770255983; 1249150122; 1555081692; 1996064986;
   2554220882; 2821834349; 2952996808; 3210313671; 3336571891; 3584528711;
   113926993; 338241895; 666307205; 773529912; 1294757372; 1396182291;
   1695183700; 1986661051; 2177026350; 2456956037; 2730485921; 2820302411;
   3259730800; 3345764771; 3516065817; 3600352804; 4094571909; 275423344;
   430227734; 506948616; 659060556; 883997877; 958139571; 1322822218;
   1537002063; 1747873779; 1955562222; 2024104815; 2227730452; 2361852424;
   2428436474; 2756734187; 3204031479; 3329325298].

Definition H0 : list Z :=
  [1779033703; 3144134277; 1013904242; 2773480762; 1359893119; 2600822924;
   528734635; 1541459225].

Definition pad (msg : list Z) : list Z :=
  let l := length msg in
  let zeros := ((119 - (l mod 64)) mod 64)%nat in
  let bits := Z.of_nat l * 8 in
  msg ++ [0x80] ++ repeat 0 zeros
      ++ map (fun i => Z.land (Z.shiftr bits (8 * (7 - Z.of_nat i))) 255) (seq 0 8).

Fixpoint words (bytes : list Z) : list Z :=
  match bytes with
  | b0 :: b1 :: b2 :: b3 :: rest =>
      (b0 * 2 ^ 24 + b1 * 2 ^ 16 + b2 * 2 ^ 8 + b3) :: words rest
  | _ => []
  end.

Definition nthz (l : list Z) (i : nat) : Z := nth i l 0.

(** The 64-word message schedule, built from the 16 block words. *)
Fixpoint schedule (n : nat) (w : list Z) : list Z :=
  match n with
  | O => w
  | S n' =>
      let i := length w in
      let x15 := nthz w (i - 15) in
      let x2 := nthz w (i - 2) in
      let s0 := Z.lxor (Z.lxor (rotr 7 x15) (rotr 18 x15)) (Z.shiftr x15 3) in
      let s1 := Z.lxor (Z.lxor (rotr 17 x2) (rotr 19 x2)) (Z.shiftr x2 10) in
      schedule n' (w ++ [add32 [nthz w (i - 16); s0; nthz w (i - 7); s1]])
  end.

Definition round (st : list Z) (kw : Z * Z) : list Z :=
  match st with
  | [a; b; c; d; e; f; g; h] =>
      let '(k, w) := kw in
      let S1 := Z.lxor (Z.lxor (rotr 6 e) (rotr 11 e)) (rotr 25 e) in
      let ch := Z.lxor (Z.land e f) (Z.land (not32 e) g) in
      let t1 := add32 [h; S1; ch; k; w] in
      let S0 := Z.lxor (Z.lxor (rotr 2 a) (rotr 13 a)) (rotr 22 a) in
      let maj := Z.lxor (Z.lxor (Z.land a b) (Z.land a c)) (Z.land b c) in
      let t2 := add32 [S0; maj] in
      [add32 [t1; t2]; a; b; c; add32 [d; t1]; e; f; g]
  | _ => st
  end.

Definition compress (hs : list Z) (block : list Z) : list Z :=
  let w := schedule 48 (words block) in
  let st := fold_left round (combine K w) hs in
  map (fun '(x, y) => add32 [x; y]) (combine hs st).

Fixpoint blocks (fuel : nat) (bytes : list Z) : list (list Z) :=
  match fuel with
  | O => []
  | S f => match bytes with
           | [] => []
           | _ => firstn 64 bytes :: blocks f (skipn 64 bytes)
           end
  end.

Definition hex_digit (n : Z) : ascii :=
  if n <? 10 then ascii_of_nat (48 + Z.to_nat n) else ascii_of_nat (87 + Z.to_nat n).

Definition word_hex (x : Z) : list ascii :=
  map (fun i => hex_digit (Z.land (Z.shiftr x (4 * (7 - Z.of_nat i))) 15)) (seq 0 8).

Definition digest_bytes (msg : list Z) : list Z :=
  let p := pad msg in fold_left compress (blocks (length p) p) H0.

Definition hexdigest (msg : list Z) : string :=
  string_of_list_ascii (concat (map word_hex (digest_bytes msg))).

End Sha256.

(** UTF-8 bytes of an ASCII string. *)
Definition utf8_bytes (s : string) : list Z :=
  map (fun c => Z.of_nat (nat_of_ascii c)) (list_ascii_of_string s).

Definition sha256_text (text : string) : string := Sha256.hexdigest (utf8_bytes text).

(** [_sha256_tokens]: the tokens joined with U+241F, whose UTF-8 encoding
    is E2 90 9F. *)
Definition unit_separator_utf8 : list Z := [0xE2; 0x90; 0x9F].

Fixpoint join_bytes (tokens : list string) : list Z :=
  match tokens with
  | [] => []
  | [t] => utf8_bytes t
  | t :: rest => utf8_bytes t ++ unit_separator_utf8 ++ join_bytes rest
  end.

Definition sha256_tokens (tokens : list string) : string := Sha256.hexdigest (join_bytes tokens).

(* ------------------------------------------------------------------ *)
(** ** [save_annotations]

    The database is the [annotations] table (a map from id to row), the
    append-only [annotation_versions] table and the next autoincrement id.
    The per-request dictionaries of the source map keys to row ids, and
    every mutation goes to the row in the table, as the ORM's shared row
    objects do. Rows inserted during the request get their id (and their
    default [version = 1]) at the flush after the loop. *)

Inductive http_error := Conflict409 | BadRequest400 | NotFound404.

(** Error monad: [inl] is a raised [HTTPException]. *)
Definition result (A : Type) : Type := (http_error + A)%type.
Definition ok {A} (a : A) : result A := inr a.
Definition raise {A} (e : http_error) : result A := inl e.
Notation "'let*' x := m 'in' k" :=
  (match m with inl e => inl e | inr x => k end) (at level 200, x pattern, m at level 100, k at level 200).

Record Snapshot := mkSnapshot {
  sn_start : Z; sn_end : Z; sn_replacement : option string; sn_payload : Payload; sn_error_type : Z
}.

Record AnnotationVersion := mkAnnotationVersion {
  av_annotation_id : Z; av_version : Z; av_snapshot : Snapshot
}.

Record Db := mkDb {
  db_annotations : gmap Z Annotation;
  db_versions : list AnnotationVersion;
  db_next_id : Z
}.

(** One [AnnotationPayload] of the request. *)
Record Item := mkItem {
  it_id : option Z;
  it_start : Z;
  it_end : Z;
  it_replacement : option string;
  it_error_type : Z;
  it_payload : Payload
}.

Record SaveRequest := mkSaveRequest {
  req_annotations : list Item;
  req_client_version : Z;
  req_deleted_ids : list Z
}.

(** [if item.id:] *)
Definition id_truthy (o : option Z) : option Z :=
  match o with Some z => if z =? 0 then None else Some z | None => None end.

Definition valid_operations : list string := ["replace"; "delete"; "insert"; "move"; "noop"]%string.

(** [_validate_payload] *)
Definition validate_payload (p : Payload) : result unit :=
  match p_operation p with
  | Some op =>
      if existsb (String.eqb op) valid_operations then
        if forallb (fun f => match frag_id f, frag_origin f with
                             | Some _, Some o => String.eqb o "base" || String.eqb o "inserted"
                             | _, _ => false
                             end) (p_after_tokens p)
        then ok tt else raise BadRequest400
      else raise BadRequest400
  | None => raise BadRequest400
  end.

(** Lines 498-514: the text-hash guard, then the token snapshot. *)
Definition prepare_payload (content : string) (p : Payload) : result Payload :=
  let* _ := validate_payload p in
  let text_hash := sha256_text content in
  let payload_hash := p_text_sha256 p in
  if str_truthy payload_hash && negb (bool_decide (payload_hash = Some text_hash))
  then raise Conflict409
  else
    let hash' := if str_truthy payload_hash then payload_hash else Some text_hash in
    match p_text_tokens p with
    | Some (t :: ts) =>
        let sha' := if str_truthy (p_text_tokens_sha256 p) then p_text_tokens_sha256 p
                    else Some (sha256_tokens (t :: ts)) in
        ok (mkPayload (p_operation p) (p_before_tokens p) (p_after_tokens p) (p_move_from p)
              (p_move_to p) (p_move_len p) (Some (t :: ts)) sha' hash')
    | _ =>
        let snap := str_split content in
        ok (mkPayload (p_operation p) (p_before_tokens p) (p_after_tokens p) (p_move_from p)
              (p_move_to p) (p_move_len p) (Some snap) (Some (sha256_tokens snap)) hash')
    end.

(** [str.strip()] and [" ".join(...)] *)
Definition str_strip (s : string) : string :=
  string_of_list_ascii (rev (drop_while is_space (rev (drop_while is_space (list_ascii_of_string s))))).

Fixpoint join_space (l : list string) : string :=
  match l with
  | [] => EmptyString
  | [x] => x
  | x :: r => (x ++ " " ++ join_space r)%string
  end.

(** Lines 516-530: the literal replacement of an item. *)
Definition item_replacement (item : Item) (payload : Payload) : option string :=
  let r := match it_replacement item with
           | Some r => Some r
           | None =>
               match str_strip (join_space (map frag_text (p_after_tokens payload))) with
               | EmptyString => None
               | c => Some c
               end
           end in
  match p_operation payload with
  | Some op => if String.eqb op "noop" then (if str_truthy r then r else None) else r
  | None => r
  end.

(** [_normalize_token_fragment] and [_payload_signature] *)
Definition frag_signature (f : Fragment) :=
  (frag_id f, frag_text f, frag_origin f,
   match frag_space_before f with Some b => Some b | None => frag_spaceBefore f end,
   frag_source_id f).

Definition payload_signature (p : Payload) (replacement : option string) :=
  (match p_operation p with
   | Some (String c s) => String c s
   | _ => if str_truthy replacement then "replace" else "noop"
   end%string,
   p_before_tokens p, map frag_signature (p_after_tokens p),
   p_move_from p, p_move_to p, p_move_len p).

Definition repl_or_none (o : option string) : option string := if str_truthy o then o else None.

(** [_annotation_matches] *)
Definition annotation_matches (candidate : Annotation) (expected_payload : Payload)
    (expected_replacement : option string) (expected_error_type : Z) : bool :=
  bool_decide (repl_or_none (ann_replacement candidate) = repl_or_none expected_replacement) &&
  (ann_error_type candidate =? expected_error_type) &&
  bool_decide (payload_signature (ann_payload candidate) (ann_replacement candidate)
               = payload_signature expected_payload expected_replacement).

Inductive SavedRef := SavedRow (id : Z) | SavedNew (k : nat).

(** The request-wide data that the loop only reads. *)
Record SaveCtx := mkSaveCtx {
  cx_text_id : Z;
  cx_author : Z;
  cx_content : string;
  cx_deleted : list Z;
  cx_other_by_id : gset Z;
  cx_other_by_span : gmap (Z * Z) (list Z)
}.

Record LoopState := mkLoopState {
  ls_store : gmap Z Annotation;
  ls_by_id : gset Z;                 (* existing_by_id *)
  ls_by_span : gmap (Z * Z) Z;       (* existing_by_span *)
  ls_pending : list Annotation;      (* rows added with db.add(Annotation(...)) *)
  ls_saved : list SavedRef
}.

(** The in-place field updates of lines 578-584 and 592-598. *)
Definition overwrite_row (a : Annotation) (author : Z) (item : Item) (repl : option string)
    (payload : Payload) : Annotation :=
  mkAnnotation (ann_id a) (ann_text_id a) author (it_start item) (it_end item) repl
    (it_error_type item) payload (ann_version a + 1).

Definition row_matches (store : gmap Z Annotation) (id : Z) (payload : Payload)
    (repl : option string) (et : Z) : bool :=
  match store !! id with
  | Some c => annotation_matches c payload repl et
  | None => false
  end.

(** Where an item with no own match goes (lines 587-601). *)
Inductive OtherDecision := SkipItem | AdoptRow (id : Z) | InsertNew.

Definition other_decision (cx : SaveCtx) (store : gmap Z Annotation) (item : Item)
    (payload : Payload) (repl : option string) : OtherDecision :=
  let by_id := match id_truthy (it_id item) with
               | Some i => if bool_decide (i ∈ cx_other_by_id cx) then Some i else None
               | None => None
               end in
  let chosen :=
    match by_id with
    | Some o => Some (Some o)
    | None =>
        match default [] (cx_other_by_span cx !! (it_start item, it_end item)) with
        | [] => Some None
        | c0 :: cs =>
            if existsb (fun c => row_matches store c payload repl (it_error_type item)) (c0 :: cs)
            then None else Some (Some c0)
        end
    end in
  match chosen with
  | None => SkipItem
  | Some None => InsertNew
  | Some (Some o) =>
      if row_matches store o payload repl (it_error_type item) then SkipItem else AdoptRow o
  end.

(** [if item.id and item.id in deleted_ids: continue] *)
Definition deleted_item (deleted : list Z) (item : Item) : bool :=
  match id_truthy (it_id item) with
  | Some i => existsb (Z.eqb i) deleted
  | None => false
  end.

(** [existing_by_id.get(item.id)], then [existing_by_span.get(span)]. *)
Definition own_match (st : LoopState) (item : Item) : option Z :=
  let own := match id_truthy (it_id item) with
             | Some i => if bool_decide (i ∈ ls_by_id st) then Some i else None
             | None => None
             end in
  match own with Some i => Some i | None => ls_by_span st !! (it_start item, it_end item) end.

(** One iteration of [for item in request.annotations]. *)
Definition process_item (cx : SaveCtx) (st : LoopState) (item : Item) : result LoopState :=
  if deleted_item (cx_deleted cx) item then ok st else
  let* payload := prepare_payload (cx_content cx) (it_payload item) in
  let repl := item_replacement item payload in
  let span := (it_start item, it_end item) in
  match own_match st item with
  | Some a =>
      match ls_store st !! a with
      | Some row =>
          ok (mkLoopState (<[a := overwrite_row row (ann_author row) item repl payload]> (ls_store st))
                (ls_by_id st) (ls_by_span st) (ls_pending st) (ls_saved st ++ [SavedRow a]))
      | None => ok st
      end
  | None =>
      match other_decision cx (ls_store st) item payload repl with
      | SkipItem => ok st
      | AdoptRow o =>
          match ls_store st !! o with
          | Some row =>
              ok (mkLoopState (<[o := overwrite_row row (cx_author cx) item repl payload]> (ls_store st))
                    ({[o]} ∪ ls_by_id st) (<[span := o]> (ls_by_span st)) (ls_pending st)
                    (ls_saved st ++ [SavedRow o]))
          | None => ok st
          end
      | InsertNew =>
          let row := mkAnnotation None (cx_text_id cx) (cx_author cx) (it_start item) (it_end item)
                       repl (it_error_type item) payload 1 in
          ok (mkLoopState (ls_store st) (ls_by_id st) (ls_by_span st) (ls_pending st ++ [row])
                (ls_saved st ++ [SavedNew (length (ls_pending st))]))
      end
  end.

Fixpoint save_loop (cx : SaveCtx) (items : list Item) (st : LoopState) : result LoopState :=
  match items with
  | [] => ok st
  | item :: rest => let* st' := process_item cx st item in save_loop cx rest st'
  end.

(** [max((ann.version for ann in existing), default=0)] *)
Definition max_version (rows : list Annotation) : Z :=
  match rows with
  | [] => 0
  | a :: r => fold_left Z.max (map ann_version r) (ann_version a)
  end.

Definition own_rows (store : gmap Z Annotation) (text_id author : Z) : list (Z * Annotation) :=
  filter (fun ia => ann_text_id ia.2 = text_id /\ ann_author ia.2 = author) (map_to_list store).

Definition other_rows (store : gmap Z Annotation) (text_id author : Z) : list (Z * Annotation) :=
  filter (fun ia => ann_text_id ia.2 = text_id /\ ann_author ia.2 <> author) (map_to_list store).

(** [DELETE ... WHERE text_id = :t AND id IN deleted_ids] *)
Definition delete_ids (store : gmap Z Annotation) (text_id : Z) (ids : list Z) : gmap Z Annotation :=
  fold_left (fun m i => match m !! i with
                        | Some a => if ann_text_id a =? text_id then delete i m else m
                        | None => m
                        end) ids store.

Definition group_by_span (rows : list (Z * Annotation)) : gmap (Z * Z) (list Z) :=
  fmap (sort_by_key (fun i : Z => (i, 0, 0, 0)))
    (fold_left (fun m ia => let span := (ann_start ia.2, ann_end ia.2) in
                            <[span := default [] (m !! span) ++ [ia.1]]> m) rows ∅).

Definition snapshot_of (a : Annotation) : Snapshot :=
  mkSnapshot (ann_start a) (ann_end a) (ann_replacement a) (ann_payload a) (ann_error_type a).

(** [db.flush()]: the pending rows get consecutive autoincrement ids. *)
Definition with_id (id : Z) (a : Annotation) : Annotation :=
  mkAnnotation (Some id) (ann_text_id a) (ann_author a) (ann_start a) (ann_end a)
    (ann_replacement a) (ann_error_type a) (ann_payload a) (ann_version a).

Fixpoint flush_pending (store : gmap Z Annotation) (next_id : Z) (pending : list Annotation)
    : gmap Z Annotation :=
  match pending with
  | [] => store
  | a :: rest => flush_pending (<[next_id := with_id next_id a]> store) (next_id + 1) rest
  end.

Definition saved_id (next_id : Z) (r : SavedRef) : Z :=
  match r with SavedRow i => i | SavedNew k => next_id + Z.of_nat k end.

(** The [saved] list after the flush: each recorded row object. *)
Fixpoint resolve_saved (store2 : gmap Z Annotation) (next_id : Z) (refs : list SavedRef)
    : list Annotation :=
  match refs with
  | [] => []
  | r :: rest =>
      match store2 !! saved_id next_id r with
      | Some a => a :: resolve_saved store2 next_id rest
      | None => resolve_saved store2 next_id rest
      end
  end.

(** The [AnnotationVersion] row written for a saved annotation
    (lines 622-636), read after the flush. *)
Definition version_row (a : Annotation) : AnnotationVersion :=
  mkAnnotationVersion (opt_or_zero (ann_id a)) (ann_version a) (snapshot_of a).

(** Everything after the stale-client guard: deletions, the upsert loop,
    the flush, the snapshots and the commit. *)
Definition save_body (db : Db) (text_id : Z) (content : string) (author : Z)
    (req : SaveRequest) : result (Db * list Annotation) :=
  let store1 := delete_ids (db_annotations db) text_id (req_deleted_ids req) in
  let existing1 := own_rows store1 text_id author in
  let others := other_rows store1 text_id author in
  let cx := mkSaveCtx text_id author content (req_deleted_ids req)
              (list_to_set (map fst others)) (group_by_span others) in
  let st0 := mkLoopState store1 (list_to_set (map fst existing1))
               (fold_left (fun m ia => <[(ann_start ia.2, ann_end ia.2) := ia.1]> m) existing1 ∅)
               [] [] in
  let* st := save_loop cx (req_annotations req) st0 in
  let store2 := flush_pending (ls_store st) (db_next_id db) (ls_pending st) in
  let saved := resolve_saved store2 (db_next_id db) (ls_saved st) in
  ok (mkDb store2 (db_versions db ++ map version_row saved)
        (db_next_id db + Z.of_nat (length (ls_pending st))),
      saved).

(** [save_annotations] (lines 365-669), up to the [StaleDataError] path,
    which a single-threaded model does not reach. [text] is
    [db.get(TextSample, text_id)] by its content. *)
Definition save_annotations (db : Db) (text_id : Z) (text : option string) (author : Z)
    (req : SaveRequest) : result (Db * list Annotation) :=
  match text with
  | None => raise NotFound404
  | Some content =>
      let existing := own_rows (db_annotations db) text_id author in
      let server_version := max_version (map snd existing) in
      let client_version := req_client_version req in
      if negb (client_version =? 0) && (client_version <? server_version) then raise Conflict409
      else save_body db text_id content author req
  end.

(* ------------------------------------------------------------------ *)
(** ** Annotation shapes used by the scenarios below *)

Definition empty_payload (op : string) : Payload :=
  mkPayload (Some op) [] [] None None None None None None.

(** A [move] of [move_len] tokens from [move_from] to [move_to], with no
    token snapshot in its payload. *)
Definition move_annotation (id start end_ : Z) (move_from move_to move_len : Z) : Annotation :=
  mkAnnotation (Some id) 1 1 start end_ None 1
    (mkPayload (Some "move"%string) [] [] (Some move_from) (Some move_to) (Some move_len) None None None) 1.

(** The [noop] annotation [submit_annotations] creates for an annotator
    with no annotations: span (-1,-1), snapshot [text.content.split()]. *)
Definition submit_noop_annotation (id : Z) (content : string) : Annotation :=
  mkAnnotation (Some id) 1 1 (-1) (-1) None 1
    (mkPayload (Some "noop"%string) [] [] None None None (Some (str_split content)) None None) 1.

(** The two-line text "a," / "b". *)
Definition two_line_text : string := ("a," ++ String "010"%char "b")%string.

(* ------------------------------------------------------------------ *)
(** ** Bookkeeping used by the proofs about [save_annotations] *)

Definition SavedRef_eq_dec (a b : SavedRef) : {a = b} + {a <> b}.
Proof. decide equality; [apply Z.eq_dec | apply Nat.eq_dec]. Defined.

(** How many saved annotations carry the id [i]. *)
Fixpoint count_id (i : Z) (l : list Annotation) : nat :=
  match l with
  | [] => O
  | a :: r => ((if bool_decide (ann_id a = Some i) then 1 else 0) + count_id i r)%nat
  end.

(** The loop invariant of the upsert loop against the table [store1] it
    started from: the same ids, each row [k] versions ahead of its start
    when [k] upserts of it were recorded, and pending rows at version 1. *)
Definition loop_inv (store1 : gmap Z Annotation) (st : LoopState) : Prop :=
  (forall i, is_Some (ls_store st !! i) <-> is_Some (store1 !! i)) /\
  (forall i a', ls_store st !! i = Some a' ->
     exists a, store1 !! i = Some a /\ ann_id a' = ann_id a /\
       ann_version a' = ann_version a + Z.of_nat (count_occ SavedRef_eq_dec (ls_saved st) (SavedRow i))) /\
  Forall (fun a => ann_version a = 1) (ls_pending st) /\
  (forall j, In (SavedRow j) (ls_saved st) -> is_Some (store1 !! j)).

(** A table with one annotation (id 5) of author 1 on text 1, span
    (0,0), at version 1; the next autoincrement id is 10. *)
Definition hi_fragment : Fragment := mkFragment (Some "f1"%string) "hi" (Some "inserted"%string) None None None.

Definition replace_payload : Payload :=
  mkPayload (Some "replace"%string) [] [hi_fragment] None None None None None None.

Definition row5 : Annotation := mkAnnotation (Some 5) 1 1 0 0 (Some "x"%string) 3 replace_payload 1.

Definition db_one_row : Db := mkDb {[5 := row5]} [] 10.

(** A request whose two items both target span (0,0). *)
Definition two_upserts_request : SaveRequest :=
  mkSaveRequest [mkItem None 0 0 None 3 replace_payload;
                 mkItem None 0 0 (Some "yo"%string) 3 replace_payload] 0 [].

(** The same row at version 3, and a client that still holds version 1. *)
Definition db_row_v3 : Db :=
  mkDb {[5 := mkAnnotation (Some 5) 1 1 0 0 (Some "x"%string) 3 replace_payload 3]} [] 10.

Definition stale_version_request : SaveRequest := mkSaveRequest [] 1 [].

(** [replace_payload] carrying a client text hash. *)
Definition hashed_payload (h : string) : Payload :=
  mkPayload (Some "replace"%string) [] [hi_fragment] None None None None None (Some h).

Definition empty_hash_request : SaveRequest :=
  mkSaveRequest [mkItem None 1 1 (Some "yo"%string) 3 (hashed_payload EmptyString)] 0 [].

Definition deleted_stale_request : SaveRequest :=
  mkSaveRequest [mkItem (Some 5) 0 0 None 3 (hashed_payload "stale")] 0 [5].

Definition stale_hash_item : Item := mkItem None 1 1 (Some "yo"%string) 3 (hashed_payload "stale").

Definition stale_hash_request : SaveRequest := mkSaveRequest [stale_hash_item] 0 [].

(** Author 2 owns annotation 7 at span (3,3) of text 1; author 1 sends an
    item with id 7 at span (0,0). *)
Definition row7 : Annotation := mkAnnotation (Some 7) 1 2 3 3 (Some "x"%string) 3 replace_payload 1.

Definition db_other_row : Db := mkDb {[7 := row7]} [] 10.

Definition adopt_by_id_item : Item := mkItem (Some 7) 0 0 (Some "yo"%string) 3 replace_payload.

Definition adopt_by_id_request : SaveRequest := mkSaveRequest [adopt_by_id_item] 0 [].

(** The loop context and initial state [save_body] builds for that call. *)
Definition adopt_ctx : SaveCtx :=
  mkSaveCtx 1 1 "hello world" [] {[7]} (group_by_span [(7, row7)]).

Definition adopt_state : LoopState := mkLoopState {[7 := row7]} ∅ ∅ [] [].

(** The outcomes the C6 sentence describes, stated on the loop state:
    the other author's row [o] taken over by [author] with the item's
    fields and its version raised by one, or a fresh row at version 1. *)
Definition spec_adopted (st st' : LoopState) (o author : Z) (item : Item) (repl : option string)
    (payload : Payload) : Prop :=
  exists row row',
    ls_store st !! o = Some row /\ ls_store st' !! o = Some row' /\
    ann_id row' = ann_id row /\ ann_text_id row' = ann_text_id row /\
    ann_author row' = author /\ ann_start row' = it_start item /\ ann_end row' = it_end item /\
    ann_replacement row' = repl /\ ann_payload row' = payload /\
    ann_error_type row' = it_error_type item /\ ann_version row' = ann_version row + 1 /\
    (forall j, j <> o -> ls_store st' !! j = ls_store st !! j) /\
    ls_pending st' = ls_pending st.

Definition spec_inserted (st st' : LoopState) (text_id author : Z) (item : Item)
    (repl : option string) (payload : Payload) : Prop :=
  ls_store st' = ls_store st /\
  exists row, ls_pending st' = ls_pending st ++ [row] /\
    ann_id row = None /\ ann_text_id row = text_id /\ ann_author row = author /\
    ann_start row = it_start item /\ ann_end row = it_end item /\
    ann_replacement row = repl /\ ann_payload row = payload /\
    ann_error_type row = it_error_type item /\ ann_version row = 1.

(* ------------------------------------------------------------------ *)
(** ** Texts, tasks and locks: assignment, submission, flags, import *)

(** [LOCK_DURATION = timedelta(minutes=30)], times in seconds. *)
Definition LOCK_DURATION : Z := 1800.

(** [TextSample], without the columns these endpoints never write. *)
Record TextSample := mkTextSample {
  tx_content : string;
  tx_category : Z;
  tx_required : Z;
  tx_state : string;
  tx_locked_by : option Z;
  tx_locked_at : option Z
}.

Record AnnotationTask := mkTask {
  tk_text : Z;
  tk_annotator : Z;
  tk_status : string;
  tk_updated_at : Z
}.

(** [flag_type] is ["skip"] or ["trash"]: the only two callers of [_flag_text]. *)
Inductive FlagType := FlagSkip | FlagTrash.

Definition flag_str (f : FlagType) : string :=
  match f with FlagSkip => "skip" | FlagTrash => "trash" end.

Definition flag_eqb (f g : FlagType) : bool :=
  match f, g with FlagSkip, FlagSkip | FlagTrash, FlagTrash => true | _, _ => false end.

Record SkippedText := mkSkipped {
  sk_text : Z;
  sk_annotator : Z;
  sk_flag : FlagType
}.

Record CrossValidationResult := mkCrossValidation {
  cvr_status : string;
  cvr_result : list (string * string)
}.

(** The tables involved, with their autoincrement counters. *)
Record World := mkWorld {
  w_categories : gset Z;
  w_texts : gmap Z TextSample;
  w_next_text : Z;
  w_tasks : gmap Z AnnotationTask;
  w_next_task : Z;
  w_skipped : list SkippedText;
  w_cvr : gmap Z CrossValidationResult
}.

Definition with_texts (w : World) (m : gmap Z TextSample) : World :=
  mkWorld (w_categories w) m (w_next_text w) (w_tasks w) (w_next_task w) (w_skipped w) (w_cvr w).

Definition with_tasks (w : World) (m : gmap Z AnnotationTask) (next : Z) : World :=
  mkWorld (w_categories w) (w_texts w) (w_next_text w) m next (w_skipped w) (w_cvr w).

Definition with_skipped (w : World) (l : list SkippedText) : World :=
  mkWorld (w_categories w) (w_texts w) (w_next_text w) (w_tasks w) (w_next_task w) l (w_cvr w).

Definition with_cvr (w : World) (m : gmap Z CrossValidationResult) : World :=
  mkWorld (w_categories w) (w_texts w) (w_next_text w) (w_tasks w) (w_next_task w) (w_skipped w) m.

Definition set_lock (t : TextSample) (by_ : option Z) (at_ : option Z) : TextSample :=
  mkTextSample (tx_content t) (tx_category t) (tx_required t) (tx_state t) by_ at_.

Definition set_state (t : TextSample) (s : string) : TextSample :=
  mkTextSample (tx_content t) (tx_category t) (tx_required t) s (tx_locked_by t) (tx_locked_at t).

(** A status write; [updated_at] has [onupdate=func.now()]. *)
Definition set_status (tk : AnnotationTask) (s : string) (now : Z) : AnnotationTask :=
  mkTask (tk_text tk) (tk_annotator tk) s now.

(** Lines 205-211: release expired locks. *)
Definition release_expired (now : Z) (t : TextSample) : TextSample :=
  match tx_locked_at t with
  | Some at_ => if at_ <? now - LOCK_DURATION then set_lock t None None else t
  | None => t
  end.

Definition sweep_locks (now : Z) (w : World) : World :=
  with_texts w (fmap (release_expired now) (w_texts w)).

Definition terminal_statuses : list string := ["submitted"; "skip"; "trash"]%string.

Definition is_terminal (s : string) : bool := existsb (String.eqb s) terminal_statuses.

Definition task_rows (w : World) : list (Z * AnnotationTask) := map_to_list (w_tasks w).

(** [terminal_texts_subq]: some task on the text has a terminal status. *)
Definition terminal_text (w : World) (tid : Z) : bool :=
  existsb (fun it => (tk_text it.2 =? tid) && is_terminal (tk_status it.2)) (task_rows w).

(** [skipped_subquery], [any_task_for_user], [submitted_subquery]. *)
Definition skipped_by (w : World) (u tid : Z) : bool :=
  existsb (fun s => (sk_text s =? tid) && (sk_annotator s =? u)) (w_skipped w).

Definition has_task (w : World) (u tid : Z) : bool :=
  existsb (fun it => (tk_text it.2 =? tid) && (tk_annotator it.2 =? u)) (task_rows w).

Definition submitted_by (w : World) (u tid : Z) : bool :=
  existsb (fun it => (tk_text it.2 =? tid) && (tk_annotator it.2 =? u) &&
                     String.eqb (tk_status it.2) "submitted") (task_rows w).

(** [count(AnnotationTask) where text_id = tid and status = 'submitted'] *)
Definition submitted_count (w : World) (tid : Z) : nat :=
  length (List.filter (fun it => (tk_text it.2 =? tid) && String.eqb (tk_status it.2) "submitted")
            (task_rows w)).

Definition open_state (s : string) : bool :=
  String.eqb s "pending" || String.eqb s "in_annotation".

(** Lines 219-233: the caller's resumable task, latest first. *)
Definition existing_task_row (w : World) (u cat : Z) : option (Z * AnnotationTask) :=
  head (sort_by_key (fun it : Z * AnnotationTask => (- tk_updated_at it.2, - it.1, 0, 0))
    (List.filter (fun it =>
        let tk := it.2 in
        (tk_annotator tk =? u) && negb (is_terminal (tk_status tk)) &&
        match w_texts w !! tk_text tk with
        | Some t => (tx_category t =? cat) && open_state (tx_state t) &&
                    negb (skipped_by w u (tk_text tk)) && negb (terminal_text w (tk_text tk))
        | None => false
        end) (task_rows w))).

(** Lines 258-278: a fresh text for the caller, lowest id first. *)
Definition text_candidates (w : World) (u cat : Z) : list (Z * TextSample) :=
  List.filter (fun it =>
      let '(tid, t) := it in
      (tx_category t =? cat) && open_state (tx_state t) &&
      negb (skipped_by w u tid) && negb (has_task w u tid) && negb (submitted_by w u tid) &&
      negb (terminal_text w tid) &&
      match tx_locked_by t with None => true | Some v => v =? u end &&
      (Z.of_nat (submitted_count w tid) <? tx_required t))
    (map_to_list (w_texts w)).

Definition first_text (w : World) (u cat : Z) : option (Z * TextSample) :=
  head (sort_by_key (fun it : Z * TextSample => (it.1, 0, 0, 0)) (text_candidates w u cat)).

(** [AnnotationTask] of [(text_id, annotator_id)], unique by [uniq_task]. *)
Definition find_task (w : World) (tid u : Z) : option (Z * AnnotationTask) :=
  find (fun it => (tk_text it.2 =? tid) && (tk_annotator it.2 =? u)) (task_rows w).

Definition lock_for (t : TextSample) (u now : Z) : TextSample :=
  mkTextSample (tx_content t) (tx_category t) (tx_required t) "in_annotation" (Some u) (Some now).

(** [get_next_text] (lines 195-301); the chosen text id and the new tables.
    A 404 rolls the session back, so it leaves the tables as they were. *)
Definition get_next_text (w : World) (u cat now : Z) : result (Z * World) :=
  if bool_decide (cat ∈ w_categories w) then
    let w1 := sweep_locks now w in
    match existing_task_row w1 u cat with
    | Some (i, tk) =>
        match w_texts w1 !! tk_text tk with
        | Some t =>
            let tk' := if String.eqb (tk_status tk) "in_progress" then tk
                       else set_status tk "in_progress" now in
            let w2 := with_texts w1 (<[tk_text tk := lock_for t u now]> (w_texts w1)) in
            ok (tk_text tk, with_tasks w2 (<[i := tk']> (w_tasks w2)) (w_next_task w2))
        | None => raise NotFound404
        end
    | None =>
        match first_text w1 u cat with
        | None => raise NotFound404
        | Some (tid, t) =>
            let w2 := with_texts w1 (<[tid := lock_for t u now]> (w_texts w1)) in
            match find_task w2 tid u with
            | Some _ => ok (tid, w2)
            | None =>
                ok (tid, with_tasks w2 (<[w_next_task w2 := mkTask tid u "in_progress" now]> (w_tasks w2))
                           (w_next_task w2 + 1))
            end
        end
    end
  else raise NotFound404.

(** [_queue_cross_validation] (lines 1460-1470). *)
Definition queue_cross_validation (w : World) (tid : Z) : World :=
  match w_cvr w !! tid with
  | None => with_cvr w (<[tid := mkCrossValidation "pending" []]> (w_cvr w))
  | Some r => with_cvr w (<[tid := mkCrossValidation "pending" []]> (w_cvr w))
  end.

(** [submit_annotations] (lines 657-742). The placeholder noop annotation
    it may add lives in the annotation table, outside these tables. *)
Definition submit_annotations (w : World) (u tid now : Z) : result World :=
  match w_texts w !! tid with
  | None => raise NotFound404
  | Some t =>
      let w1 := match find_task w tid u with
                | None => with_tasks w (<[w_next_task w := mkTask tid u "submitted" now]> (w_tasks w))
                                     (w_next_task w + 1)
                | Some (i, tk) => with_tasks w (<[i := set_status tk "submitted" now]> (w_tasks w))
                                             (w_next_task w)
                end in
      let t1 := set_lock t None None in
      let w2 := with_skipped w1 (List.filter (fun s => negb ((sk_text s =? tid) && (sk_annotator s =? u)))
                                  (w_skipped w1)) in
      let completed_count := submitted_count w2 tid in
      if tx_required t1 <=? Z.of_nat completed_count then
        ok (queue_cross_validation
              (with_texts w2 (<[tid := set_state t1 "awaiting_cross_validation"]> (w_texts w2))) tid)
      else ok (with_texts w2 (<[tid := set_state t1 "pending"]> (w_texts w2)))
  end.

(** [_flag_text] (lines 746-810). *)
Definition flag_text (w : World) (u tid : Z) (f : FlagType) (now : Z) : result World :=
  match w_texts w !! tid with
  | None => raise NotFound404
  | Some t =>
      let sk := List.filter (fun s => negb ((sk_text s =? tid) && (sk_annotator s =? u) &&
                                            negb (flag_eqb (sk_flag s) f))) (w_skipped w) in
      let sk := if existsb (fun s => (sk_text s =? tid) && (sk_annotator s =? u) && flag_eqb (sk_flag s) f) sk
                then sk else sk ++ [mkSkipped tid u f] in
      let t1 := match tx_locked_by t with
                | Some v => if v =? u then set_lock t None None else t
                | None => t
                end in
      let tasks := match find_task w tid u with
                   | Some (i, tk) => <[i := set_status tk (flag_str f) now]> (w_tasks w)
                   | None => w_tasks w
                   end in
      let t2 := set_lock t1 None None in
      let t3 := set_state t2 (match f with FlagTrash => "trash" | FlagSkip => "skipped" end) in
      ok (mkWorld (w_categories w) (<[tid := t3]> (w_texts w)) (w_next_text w) tasks (w_next_task w)
            sk (w_cvr w))
  end.

(** [_clear_flag] (lines 813-840). *)
Definition clear_flag (w : World) (u tid : Z) (f : FlagType) : World :=
  let is_row s := (sk_text s =? tid) && (sk_annotator s =? u) && flag_eqb (sk_flag s) f in
  if existsb is_row (w_skipped w) then
    let texts :=
      match w_texts w !! tid with
      | Some t =>
          match f with
          | FlagTrash => <[tid := set_state t "pending"]> (w_texts w)
          | FlagSkip =>
              let remaining := length (List.filter (fun s => (sk_text s =? tid) && flag_eqb (sk_flag s) FlagSkip)
                                         (w_skipped w)) in
              if Nat.eqb remaining 1 then <[tid := set_state t "pending"]> (w_texts w) else w_texts w
          end
      | None => w_texts w
      end in
    mkWorld (w_categories w) texts (w_next_text w) (w_tasks w) (w_next_task w)
      (List.filter (fun s => negb (is_row s)) (w_skipped w)) (w_cvr w)
  else w.

(** One entry of [import_texts] (lines 103-192): a new unlocked text, and
    with annotations a submitted task of the importer. *)
Definition import_text (w : World) (u cat : Z) (body : string) (required : Z) (has_annotations : bool)
    (now : Z) : result World :=
  if bool_decide (cat ∈ w_categories w) then
    let tid := w_next_text w in
    let t := mkTextSample body cat required "pending" None None in
    let w1 := mkWorld (w_categories w) (<[tid := t]> (w_texts w)) (tid + 1) (w_tasks w) (w_next_task w)
                (w_skipped w) (w_cvr w) in
    if has_annotations then
      let w2 := with_tasks w1 (<[w_next_task w1 := mkTask tid u "submitted" now]> (w_tasks w1))
                  (w_next_task w1 + 1) in
      let completed_count := submitted_count w2 tid in
      if required <=? Z.of_nat completed_count then
        ok (queue_cross_validation
              (with_texts w2 (<[tid := set_state t "awaiting_cross_validation"]> (w_texts w2))) tid)
      else ok (with_texts w2 (<[tid := set_state t "pending"]> (w_texts w2)))
    else ok w1
  else raise NotFound404.

(** Every committed request that writes these tables. [save_annotations]
    and the exports do not write them. *)
Inductive step : World -> World -> Prop :=
| step_get_next w u cat now tid w' :
    get_next_text w u cat now = ok (tid, w') -> step w w'
| step_submit w u tid now w' :
    submit_annotations w u tid now = ok w' -> step w w'
| step_flag w u tid f now w' :
    flag_text w u tid f now = ok w' -> step w w'
| step_clear_flag w u tid f :
    step w (clear_flag w u tid f)
| step_import w u cat body required has_annotations now w' :
    import_text w u cat body required has_annotations now = ok w' -> step w w'.

(** The lock pair of a text is both null or both set. *)
Definition lock_pair_ok (t : TextSample) : Prop :=
  tx_locked_by t = None <-> tx_locked_at t = None.

Definition locks_ok (w : World) : Prop :=
  forall tid t, w_texts w !! tid = Some t -> lock_pair_ok t.

(** The task autoincrement counter is above every task id. *)
Definition tasks_fresh (w : World) : Prop :=
  forall i, is_Some (w_tasks w !! i) -> i < w_next_task w.

Definition has_terminal_task (w : World) (tid : Z) : Prop :=
  exists i tk, w_tasks w !! i = Some tk /\ tk_text tk = tid /\ is_terminal (tk_status tk) = true.

(* ------------------------------------------------------------------ *)
(** ** Export ([export_single_text], [export_submitted_texts]) *)

(** [_annotation_to_edit]; the error type is kept as its id. *)
Record ExportEdit := mkExportEdit {
  ed_start : Z;
  ed_end : Z;
  ed_operation : string;
  ed_error_type : Z;
  ed_replacement : option string;
  ed_move_from : option Z;
  ed_move_to : option Z;
  ed_move_len : option Z
}.

(** [payload.get("move_from") or payload.get("moveFrom")]: a 0 is falsy. *)
Definition truthy_int (o : option Z) : option Z :=
  match o with Some z => if z =? 0 then None else Some z | None => None end.

Definition annotation_to_edit (ann : Annotation) : ExportEdit :=
  let p := ann_payload ann in
  mkExportEdit (ann_start ann) (ann_end ann) (normalize_operation ann) (ann_error_type ann)
    (ann_replacement ann) (truthy_int (p_move_from p)) (truthy_int (p_move_to p))
    (truthy_int (p_move_len p)).

Record ExportRecord := mkExportRecord {
  rec_id : Z;
  rec_source : string;
  rec_target : string;
  rec_edits : list ExportEdit
}.

(** [_build_export_record] *)
Definition build_export_record (text_id : Z) (text : TextSample) (annotations : list Annotation)
    : ExportRecord :=
  let source := tx_content text in
  mkExportRecord text_id source (render_corrected_text source annotations)
    (map annotation_to_edit
       (sort_by_key (fun a => (ann_start a, ann_end a, opt_or_zero (ann_id a), 0)) annotations)).

(** A task row joined with its text: [(task.id, task, task.text)]. *)
Definition TaskRow := (Z * AnnotationTask * TextSample)%type.

Definition row_task_id (r : TaskRow) : Z := r.1.1.
Definition row_task (r : TaskRow) : AnnotationTask := r.1.2.
Definition row_text (r : TaskRow) : TextSample := r.2.

(** [order_by(AnnotationTask.updated_at.desc(), AnnotationTask.id.desc())] *)
Definition export_order (r : TaskRow) : key4 :=
  (- tk_updated_at (row_task r), - row_task_id r, 0, 0).

(** The join with [TextSample], [status == 'submitted'] and
    [state not in ('trash', 'skipped')], then the endpoint's own filter. *)
Definition submitted_rows (w : World) (keep : TaskRow -> bool) : list TaskRow :=
  sort_by_key export_order
    (List.filter (fun r => String.eqb (tk_status (row_task r)) "submitted" &&
                           negb (String.eqb (tx_state (row_text r)) "trash") &&
                           negb (String.eqb (tx_state (row_text r)) "skipped") && keep r)
       (omap (fun it : Z * AnnotationTask =>
                match w_texts w !! tk_text it.2 with
                | Some t => Some (it.1, it.2, t)
                | None => None
                end) (map_to_list (w_tasks w)))).

(** [_fetch_annotations_for_tasks], for one task: the annotations on its
    text written by its annotator. *)
Definition task_annotations (store : gmap Z Annotation) (tk : AnnotationTask) : list Annotation :=
  List.filter (fun a => (ann_text_id a =? tk_text tk) && (ann_author a =? tk_annotator tk))
    (map snd (map_to_list store)).

Definition variant_of (store : gmap Z Annotation) (r : TaskRow) : ExportRecord :=
  build_export_record (tk_text (row_task r)) (row_text r) (task_annotations store (row_task r)).

(** [chosen = variants[0]] (the target comparison after it changes nothing). *)
Definition choose_variant (store : gmap Z Annotation) (rows : list TaskRow) : option ExportRecord :=
  match map (variant_of store) rows with
  | v :: _ => Some v
  | [] => None
  end.

Definition export_single_text (w : World) (store : gmap Z Annotation) (text_id : Z) : option ExportRecord :=
  choose_variant store (submitted_rows w (fun r => tk_text (row_task r) =? text_id)).

(** [tasks_by_text.setdefault(task.text_id, []).append(task)] *)
Fixpoint add_to_group (k : Z) (r : TaskRow) (groups : list (Z * list TaskRow)) : list (Z * list TaskRow) :=
  match groups with
  | [] => [(k, [r])]
  | (k', rs) :: rest => if k' =? k then (k', rs ++ [r]) :: rest else (k', rs) :: add_to_group k r rest
  end.

Definition group_by_text (rows : list TaskRow) : list (Z * list TaskRow) :=
  fold_left (fun g r => add_to_group (tk_text (row_task r)) r g) rows [].

(** The bulk filters: [category_ids] (empty means all), [start], [end]. *)
Definition bulk_keep (categories : list Z) (start end_ : option Z) (r : TaskRow) : bool :=
  (match categories with [] => true | _ => existsb (Z.eqb (tx_category (row_text r))) categories end) &&
  match start with Some s => s <=? tk_updated_at (row_task r) | None => true end &&
  match end_ with Some e => tk_updated_at (row_task r) <=? e | None => true end.

Definition export_submitted_texts (w : World) (store : gmap Z Annotation) (categories : list Z)
    (start end_ : option Z) : list ExportRecord :=
  omap (fun g => choose_variant store g.2)
    (group_by_text (submitted_rows w (bulk_keep categories start end_))).

(** [(updated_at, id)] of [r] is at least that of [r']. *)
Definition latest_first (r r' : TaskRow) : Prop :=
  tk_updated_at (row_task r') < tk_updated_at (row_task r) \/
  (tk_updated_at (row_task r') = tk_updated_at (row_task r) /\ row_task_id r' <= row_task_id r).

(** The rows an export starts from, before ordering. *)
Definition passing_row (w : World) (keep : TaskRow -> bool) (r : TaskRow) : Prop :=
  w_tasks w !! row_task_id r = Some (row_task r) /\
  w_texts w !! tk_text (row_task r) = Some (row_text r) /\
  tk_status (row_task r) = "submitted"%string /\
  tx_state (row_text r) <> "trash"%string /\ tx_state (row_text r) <> "skipped"%string /\
  keep r = true.


(** The invariant behind C7: fresh task ids, and a terminal task on [tid]. *)
Definition inv7 (tid : Z) (w : World) : Prop := tasks_fresh w /\ has_terminal_task w tid.

(** Grouping of export rows by text. *)
Definition group_key (r : TaskRow) : Z := tk_text (row_task r).

Definition groups_inv (P : list TaskRow) (G : list (Z * list TaskRow)) : Prop :=
  List.NoDup (map fst G) /\
  (forall k, In k (map fst G) <-> exists r, In r P /\ group_key r = k) /\
  (forall k g, In (k, g) G -> g = List.filter (fun r => group_key r =? k) P).

(** Scheduler scenario: one text needing two annotations. *)
Definition sched_text : TextSample := mkTextSample "hello world" 1 2 "pending" None None.
Definition sched_world : World := mkWorld {[1]} {[1 := sched_text]} 2 ∅ 1 [] ∅.
Definition sched_after_submit : World :=
  mkWorld {[1]} {[1 := set_state (set_lock sched_text None None) "pending"]} 2
    {[1 := mkTask 1 10 "submitted" 5]} 2 [] ∅.

(** Export scenario: two submitted annotators on one text. *)
Definition export_text : TextSample := mkTextSample "hello world" 1 2 "awaiting_cross_validation" None None.
Definition early_task : AnnotationTask := mkTask 1 10 "submitted" 5.
Definition late_task : AnnotationTask := mkTask 1 20 "submitted" 10.
Definition export_world : World :=
  mkWorld {[1]} {[1 := export_text]} 2 {[1 := early_task; 2 := late_task]} 3 [] ∅.
Definition export_store : gmap Z Annotation :=
  {[1 := mkAnnotation (Some 1) 1 10 0 0 (Some "x"%string) 3 replace_payload 1;
    2 := mkAnnotation (Some 2) 1 20 1 1 (Some "y"%string) 3 replace_payload 1]}.

(* ------------------------------------------------------------------ *)
(** ** Further definitions: word splitting, hashing, export order, integer lists and annotation diffs *)

(** A string without whitespace characters. *)
Definition no_space (w : string) : bool := forallb (fun c => negb (is_space c)) (list_ascii_of_string w).

(** What [str.split()] can return: non-empty pieces without whitespace. *)
Definition words_ok (ws : list string) : Prop :=
  Forall (fun w => w <> EmptyString /\ no_space w = true) ws.

(** The characters of [hexdigest()]. *)
Definition is_lower_hex (c : ascii) : bool := in_chars "0123456789abcdef" c.

(** Snapshot tokens as [_build_tokens_from_snapshot] builds them when every
    word is found after exactly one space. *)
Fixpoint spaced_tokens (first : bool) (ws : list string) : list Token :=
  match ws with
  | [] => []
  | w :: r => mkToken w (snapshot_kind w) first :: spaced_tokens true r
  end.

(** Annotations that [_apply_annotations] treats as a move or skips. *)
Definition move_or_noop (ann : Annotation) : Prop :=
  normalize_operation ann = "move"%string \/ normalize_operation ann = "noop"%string.

(** The skipped rows of annotator [u] on text [tid]. *)
Definition mine_on (u tid : Z) (s : SkippedText) : bool := (sk_text s =? tid) && (sk_annotator s =? u).

(** The export order of edits: by start, then by end. *)
Definition edit_le (e1 e2 : ExportEdit) : Prop :=
  ed_start e1 < ed_start e2 \/ (ed_start e1 = ed_start e2 /\ ed_end e1 <= ed_end e2).

(** [str.isdigit] on ASCII. *)
Definition isdigit (s : list ascii) : bool :=
  match s with [] => false | _ => forallb is_digit s end.

(** [int(chunk)] of a string of decimal digits. *)
Definition decimal_value (s : list ascii) : Z :=
  fold_left (fun acc c => acc * 10 + (Z.of_nat (nat_of_ascii c) - 48)) s 0.

(** [_parse_int_list] (lines 78-86). *)
Definition parse_int_list (raw : option string) : list Z :=
  match raw with
  | None | Some EmptyString => []
  | Some r =>
      omap (fun chunk =>
              let c := list_ascii_of_string (str_strip (string_of_list_ascii chunk)) in
              if isdigit c then Some (decimal_value c) else None)
        (split_on ","%char (list_ascii_of_string r))
  end.

(** A decimal printer and a comma join, to state the round trip. *)
Fixpoint digits_loop (fuel n : nat) : list ascii :=
  match fuel with
  | O => []
  | S f => if (n <? 10)%nat then [ascii_of_nat (48 + n)]
           else digits_loop f (n / 10) ++ [ascii_of_nat (48 + n mod 10)]
  end.

(** The decimal representation of [n]. *)
Definition show_nat (n : nat) : list ascii := digits_loop (S n) n.

(** [",".join(chunks)]. *)
Fixpoint join_comma (chunks : list (list ascii)) : list ascii :=
  match chunks with
  | [] => []
  | [c] => c
  | c :: rest => c ++ ","%char :: join_comma rest
  end.

(** A run of whitespace (possibly empty). *)
Definition all_space (l : list ascii) : bool := forallb is_space l.

(** A number with whitespace around it. *)
Definition padded (it : list ascii * nat * list ascii) : list ascii :=
  let '(p, n, q) := it in p ++ show_nat n ++ q.

(** [grouped.setdefault(k, []).append(x)] on a dict kept in insertion order. *)
Fixpoint setdefault_append {A} (k : Z) (x : A) (groups : list (Z * list A)) : list (Z * list A) :=
  match groups with
  | [] => [(k, [x])]
  | (k', xs) :: rest => if k' =? k then (k', xs ++ [x]) :: rest else (k', xs) :: setdefault_append k x rest
  end.

(** The [grouped] dict of [get_annotation_diffs]: annotations by author,
    authors in first-appearance order. Its keys are [str(author_id)], which
    is injective, so the model keeps the ids. *)
Definition group_by_author (annotations : list Annotation) : list (Z * list Annotation) :=
  fold_left (fun g a => setdefault_append (ann_author a) a g) annotations [].

(** [itertools.combinations(keys, 2)] *)
Fixpoint combinations2 {A} (l : list A) : list (A * A) :=
  match l with
  | [] => []
  | x :: rest => map (fun y => (x, y)) rest ++ combinations2 rest
  end.

(** The tuple [(start_token, end_token, replacement, error_type_id)]. *)
Definition ann_tuple (a : Annotation) : Z * Z * option string * Z :=
  (ann_start a, ann_end a, ann_replacement a, ann_error_type a).

(** The set comprehension over a group. *)
Definition tuple_set (anns : list Annotation) : gset (Z * Z * option string * Z) :=
  list_to_set (map ann_tuple anns).

(** One entry of [pairs]: [pair], [only_left], [only_right] (sets, as the
    lists the code builds from sets have no order). *)
Record AnnotationDiff := mkDiff {
  diff_pair : Z * Z;
  only_left : gset (Z * Z * option string * Z);
  only_right : gset (Z * Z * option string * Z)
}.

(** [get_annotation_diffs] (lines 1496-1538), on the annotations of the text
    in the order the query returns them. *)
Definition get_annotation_diffs (annotations : list Annotation) : list AnnotationDiff :=
  match annotations with
  | [] => []
  | _ => map (fun '((l, gl), (r, gr)) =>
                mkDiff (l, r) (tuple_set gl ∖ tuple_set gr) (tuple_set gr ∖ tuple_set gl))
             (combinations2 (group_by_author annotations))
  end.

(** The grouping invariant: distinct keys, exactly the keys of the items,
    and each group is the items of its key in their original order. *)
Definition keyed_groups_inv {A} (key : A -> Z) (P : list A) (G : list (Z * list A)) : Prop :=
  List.NoDup (map fst G) /\
  (forall k, In k (map fst G) <-> exists x, In x P /\ key x = k) /\
  (forall k g, In (k, g) G -> g = List.filter (fun x => key x =? k) P).

(** The authors in the order of the grouping, and the annotations of one author. *)
Definition authors (annotations : list Annotation) : list Z := map fst (group_by_author annotations).

Definition by_author (annotations : list Annotation) (a : Z) : list Annotation :=
  List.filter (fun x => ann_author x =? a) annotations.

(** Scheduler scenario, continued: annotator 10 takes text 1, then skips it. *)
Definition sched_locked : World :=
  mkWorld {[1]} {[1 := lock_for sched_text 10 5]} 2 {[1 := mkTask 1 10 "in_progress" 5]} 2 [] ∅.
Definition sched_flagged : World :=
  mkWorld {[1]} {[1 := set_state (set_lock (lock_for sched_text 10 5) None None) "skipped"]} 2
    {[1 := mkTask 1 10 "skip" 6]} 2 [mkSkipped 1 10 FlagSkip] ∅.

(** Two open texts; annotator 10 holds a task on text 1, skips it, and
    annotator 20 is then given text 2. *)
Definition two_texts_world : World :=
  mkWorld {[1]} {[1 := sched_text; 2 := sched_text]} 3 {[1 := mkTask 1 10 "in_progress" 5]} 2 [] ∅.
Definition two_texts_flagged : World :=
  mkWorld {[1]} {[1 := set_state sched_text "skipped"; 2 := sched_text]} 3
    {[1 := mkTask 1 10 "skip" 6]} 2 [mkSkipped 1 10 FlagSkip] ∅.
Definition two_texts_next : World :=
  mkWorld {[1]} {[1 := set_state sched_text "skipped"; 2 := lock_for sched_text 20 7]} 3
    {[1 := mkTask 1 10 "skip" 6; 2 := mkTask 2 20 "in_progress" 7]} 3 [mkSkipped 1 10 FlagSkip] ∅.

(** A replacement of token 1 of "a b c" by "x y". *)
Definition edit_ann : Annotation :=
  mkAnnotation (Some 2) 1 1 1 1 (Some "x y"%string) 3 (empty_payload "replace") 1.

(* ================================================================== *)
(** * Theorems *)

(** ** Rendering *)

(** C1 (code_bug). Rendering "alpha beta gamma" with one move of the
    token at index 2 to index 0 ([move_len = 1]) yields "gammaalpha beta":
    the moved token takes the leading-space flag of position 0 (false),
    and "alpha", which keeps its own first-token flag (false), is glued to
    it. The text does not start with "gamma alpha beta". *)
Theorem render_move_gamma_to_front (id start end_ : Z) :
  render_corrected_text "alpha beta gamma" [move_annotation id start end_ 2 0 1]
    = "gammaalpha beta"%string /\
  String.prefix "gamma alpha beta"
    (render_corrected_text "alpha beta gamma" [move_annotation id start end_ 2 0 1]) = false.
Proof. split; reflexivity. Qed.

Lemma insert_by_key_Forall {A} (key : A -> key4) (P : A -> Prop) (x : A) (l : list A) :
  P x -> Forall P l -> Forall P (insert_by_key key x l).
Proof.
  intros Hx. induction 1 as [|y l' Hy Hl IH]; simpl; [repeat constructor; assumption|].
  destruct (key4_leb (key x) (key y)); repeat constructor; assumption.
Qed.

Lemma sort_by_key_Forall {A} (key : A -> key4) (P : A -> Prop) (l : list A) :
  Forall P l -> Forall P (sort_by_key key l).
Proof.
  induction 1 as [|x l Hx _ IH]; simpl; [constructor|].
  apply insert_by_key_Forall; assumption.
Qed.

Lemma apply_loop_all_noop (anns : list Annotation) (working : list Token) deltas :
  Forall (fun a => normalize_operation a = "noop"%string) anns ->
  apply_loop anns working deltas = working.
Proof.
  induction 1 as [|a l Ha _ IH]; simpl; [reflexivity|].
  rewrite Ha; simpl. exact IH.
Qed.

(** Rendering with only [noop] annotations and no token snapshot is the
    tokenize-then-detokenize round trip of the source. *)
Lemma render_all_noop_roundtrip (source : string) (anns : list Annotation) :
  Forall (fun a => normalize_operation a = "noop"%string) anns ->
  first_snapshot anns = None ->
  render_corrected_text source anns = detokenize_roundtrip source.
Proof.
  intros Hnoop Hsnap.
  unfold render_corrected_text, resolve_tokens_snapshot_for_source, apply_annotations.
  rewrite Hsnap, apply_loop_all_noop; [reflexivity|].
  apply sort_by_key_Forall; exact Hnoop.
Qed.

(** C2, counterexample. "a,\nb" is a fixed point of the tokenize/detokenize
    pair, yet rendering it with the single [noop] annotation that
    [submit_annotations] stores (snapshot ["a,"; "b"] from [str.split])
    gives "a, b\n": the snapshot's tokens are used, while the line break
    is placed by the tokenizer's count (after two tokens). *)
Lemma render_noop_with_split_snapshot_changes_text :
  detokenize_roundtrip two_line_text = two_line_text /\
  normalize_operation (submit_noop_annotation 1 two_line_text) = "noop"%string /\
  render_corrected_text two_line_text [submit_noop_annotation 1 two_line_text]
    = ("a, b" ++ String "010"%char "")%string /\
  render_corrected_text two_line_text [submit_noop_annotation 1 two_line_text] <> two_line_text.
Proof. split; [reflexivity|]. split; [reflexivity|]. split; [reflexivity|]. vm_compute; discriminate. Qed.

(** C2 (corrected). For every source that the tokenize-then-detokenize
    pair maps to itself, rendering with an empty annotation list, or with
    annotations that are all [noop] and carry no non-empty [text_tokens]
    snapshot, returns the source exactly. *)
Theorem render_noop_fixed_point (source : string) (anns : list Annotation) :
  detokenize_roundtrip source = source ->
  Forall (fun a => normalize_operation a = "noop"%string) anns ->
  first_snapshot anns = None ->
  render_corrected_text source anns = source.
Proof.
  intros Hfix Hnoop Hsnap. rewrite render_all_noop_roundtrip by assumption. exact Hfix.
Qed.

Lemma render_noop_fixed_point_witness :
  let anns := [mkAnnotation (Some 7) 1 1 (-1) (-1) None 1 (empty_payload "noop") 1] in
  (detokenize_roundtrip two_line_text = two_line_text /\
   Forall (fun a => normalize_operation a = "noop"%string) anns /\
   first_snapshot anns = None) /\
  render_corrected_text two_line_text anns = two_line_text.
Proof.
  intros anns. split.
  - split; [reflexivity|]. split; [repeat constructor|reflexivity].
  - apply render_noop_fixed_point; [reflexivity|repeat constructor|reflexivity].
Defined.

(** ** Versions ([save_annotations]) *)

Lemma delete_ids_sub (s : gmap Z Annotation) t ids i a :
  delete_ids s t ids !! i = Some a -> s !! i = Some a.
Proof.
  unfold delete_ids. revert s. induction ids as [|j ids IH]; intros s H; simpl in H; [exact H|].
  apply IH in H. destruct (s !! j) as [b|] eqn:E; [|exact H].
  destruct (ann_text_id b =? t); [|exact H].
  apply lookup_delete_Some in H. tauto.
Qed.

Lemma inv_update store1 st a row row' by_id by_span :
  loop_inv store1 st -> ls_store st !! a = Some row ->
  ann_id row' = ann_id row -> ann_version row' = ann_version row + 1 ->
  loop_inv store1 (mkLoopState (<[a := row']> (ls_store st)) by_id by_span
                     (ls_pending st) (ls_saved st ++ [SavedRow a])).
Proof.
  intros (Hdom & Hrow & Hpend & Hsaved) Ha Hid Hver. split; [|split; [|split]]; simpl.
  - intros i. rewrite <- Hdom. destruct (decide (a = i)) as [->|Hne].
    + rewrite lookup_insert_eq, Ha. split; intros _; eexists; reflexivity.
    + rewrite lookup_insert_ne by exact Hne. reflexivity.
  - intros i a'. rewrite count_occ_app. destruct (decide (a = i)) as [->|Hne].
    + rewrite lookup_insert_eq. intros [= <-].
      destruct (Hrow i row Ha) as (a0 & H0 & Hid0 & Hv0). exists a0. split; [exact H0|].
      split; [congruence|].
      rewrite (count_occ_cons_eq SavedRef_eq_dec [] eq_refl), count_occ_nil. lia.
    + rewrite lookup_insert_ne by exact Hne. intros H.
      destruct (Hrow i a' H) as (a0 & H0 & Hid0 & Hv0). exists a0. split; [exact H0|].
      split; [exact Hid0|].
      rewrite (count_occ_cons_neq SavedRef_eq_dec []) by congruence. rewrite count_occ_nil. lia.
  - exact Hpend.
  - intros j Hj. apply in_app_or in Hj as [Hj|[Hj|[]]]; [exact (Hsaved j Hj)|].
    injection Hj as <-. apply Hdom. rewrite Ha. eexists; reflexivity.
Qed.

Lemma inv_insert store1 st row k :
  loop_inv store1 st -> ann_version row = 1 ->
  loop_inv store1 (mkLoopState (ls_store st) (ls_by_id st) (ls_by_span st)
                     (ls_pending st ++ [row]) (ls_saved st ++ [SavedNew k])).
Proof.
  intros (Hdom & Hrow & Hpend & Hsaved) Hv. split; [|split; [|split]]; simpl.
  - exact Hdom.
  - intros i a' H. destruct (Hrow i a' H) as (a0 & H0 & Hid0 & Hv0). exists a0.
    split; [exact H0|]. split; [exact Hid0|].
    rewrite count_occ_app, (count_occ_cons_neq SavedRef_eq_dec []) by discriminate.
    rewrite count_occ_nil. lia.
  - apply Forall_app. split; [exact Hpend|]. repeat constructor. exact Hv.
  - intros j Hj. apply in_app_or in Hj as [Hj|[Hj|[]]]; [exact (Hsaved j Hj)|discriminate].
Qed.

Lemma inv_process cx store1 st item st' :
  loop_inv store1 st -> process_item cx st item = inr st' -> loop_inv store1 st'.
Proof.
  intros Hi H. unfold process_item, ok, raise in H.
  repeat (case_match; simplify_eq/=); try assumption;
    first [ eapply inv_update; eauto | apply inv_insert; auto ].
Qed.

Lemma inv_loop cx store1 items :
  forall st st', loop_inv store1 st -> save_loop cx items st = inr st' -> loop_inv store1 st'.
Proof.
  induction items as [|item items IH]; intros st st' Hi H; simpl in H.
  - injection H as <-. exact Hi.
  - destruct (process_item cx st item) as [e|st1] eqn:E; [discriminate|].
    exact (IH st1 st' (inv_process cx store1 st item st1 Hi E) H).
Qed.

Lemma flush_lt (s : gmap Z Annotation) n p j :
  j < n -> flush_pending s n p !! j = s !! j.
Proof.
  revert s n. induction p as [|a p IH]; intros s n Hj; simpl; [reflexivity|].
  rewrite IH by lia. apply lookup_insert_ne. lia.
Qed.

Lemma flush_cases (s : gmap Z Annotation) n p j a :
  flush_pending s n p !! j = Some a -> s !! j = Some a \/ (exists q, In q p /\ a = with_id j q).
Proof.
  revert s n. induction p as [|q p IH]; intros s n H; simpl in H; [left; exact H|].
  destruct (IH _ _ H) as [H1|(q' & Hq' & ->)]; [|right; exists q'; split; [right; exact Hq'|reflexivity]].
  apply lookup_insert_Some in H1 as [[<- <-]|[_ H1]]; [|left; exact H1].
  right. exists q. split; [left; reflexivity|reflexivity].
Qed.

Lemma flush_keyed (s : gmap Z Annotation) n p :
  (forall i a, s !! i = Some a -> ann_id a = Some i) ->
  forall i a, flush_pending s n p !! i = Some a -> ann_id a = Some i.
Proof.
  intros Hs i a H. destruct (flush_cases s n p i a H) as [H1|(q & _ & ->)]; [exact (Hs i a H1)|reflexivity].
Qed.

Lemma count_saved (store2 : gmap Z Annotation) n saved i :
  i < n ->
  (forall j a, store2 !! j = Some a -> ann_id a = Some j) ->
  (forall j, In (SavedRow j) saved -> is_Some (store2 !! j)) ->
  count_id i (resolve_saved store2 n saved)
  = count_occ SavedRef_eq_dec saved (SavedRow i).
Proof.
  intros Hi Hkey. induction saved as [|r saved IH]; intros Hin; [reflexivity|].
  assert (IH' : count_id i (resolve_saved store2 n saved)
                = count_occ SavedRef_eq_dec saved (SavedRow i))
    by (apply IH; intros j Hj; apply Hin; right; exact Hj).
  destruct r as [j|k]; cbn [resolve_saved saved_id].
  - destruct (Hin j (or_introl eq_refl)) as [b Hb]. rewrite Hb. cbn [count_id].
    pose proof (Hkey j b Hb) as Hbj. rewrite IH', Hbj.
    destruct (decide (j = i)) as [->|Hne].
    + rewrite bool_decide_eq_true_2 by reflexivity.
      rewrite (count_occ_cons_eq SavedRef_eq_dec saved eq_refl). reflexivity.
    + rewrite bool_decide_eq_false_2 by congruence.
      rewrite (count_occ_cons_neq SavedRef_eq_dec saved) by congruence. reflexivity.
  - rewrite (count_occ_cons_neq SavedRef_eq_dec saved) by discriminate.
    destruct (store2 !! (n + Z.of_nat k)) as [b|] eqn:Hb; cbn [count_id]; [|exact IH'].
    pose proof (Hkey _ b Hb) as Hbk. rewrite Hbk, bool_decide_eq_false_2 by (intros [=]; lia).
    exact IH'.
Qed.

(** C3, counterexample. Two items of one save both upsert annotation 5
    (version 1): it ends at version 3, and the two [AnnotationVersion]
    rows both carry version 3 and the second item's replacement; no row
    records version 2, the state right after the first upsert. *)
Lemma save_two_upserts_one_snapshot_state :
  exists db' saved,
    save_annotations db_one_row 1 (Some "hello world"%string) 1 two_upserts_request = inr (db', saved) /\
    (exists a, db_annotations db' !! 5 = Some a /\ ann_version a = 3 /\
               ann_replacement a = Some "yo"%string) /\
    map (fun v => (av_annotation_id v, av_version v, sn_replacement (av_snapshot v))) (db_versions db')
      = [(5, 3, Some "yo"%string); (5, 3, Some "yo"%string)] /\
    ~ (exists v, In v (db_versions db') /\ av_version v = 2).
Proof.
  vm_compute. eexists _, _. split; [reflexivity|].
  split; [eexists; split; [reflexivity|split; reflexivity]|]. split; [reflexivity|].
  intros (v & Hv & H2). repeat destruct Hv as [<-|Hv]; try discriminate; destruct Hv.
Qed.

(** C3 (corrected). For every successful save on a table whose rows are
    keyed by their own id below the next autoincrement id: a row that
    existed before has its version raised by exactly the number of
    upserts of its id in this call (so never lowered), a freshly inserted
    row starts at version 1, and one [AnnotationVersion] row per upsert is
    appended, holding the annotation as it stands after the call. *)
Theorem save_annotation_versions (db : Db) text_id content author req db' saved :
  (forall i a, db_annotations db !! i = Some a -> ann_id a = Some i /\ i < db_next_id db) ->
  save_annotations db text_id (Some content) author req = inr (db', saved) ->
  (forall i a', db_annotations db' !! i = Some a' ->
     match db_annotations db !! i with
     | Some a => ann_version a' = ann_version a + Z.of_nat (count_id i saved) /\
                 ann_version a <= ann_version a'
     | None => ann_version a' = 1
     end) /\
  db_versions db' = db_versions db ++ map version_row saved.
Proof.
  intros Hwf H. unfold save_annotations in H.
  destruct (negb _ && _); [discriminate|].
  unfold save_body, ok in H.
  set (store1 := delete_ids (db_annotations db) text_id (req_deleted_ids req)) in H.
  match type of H with
  | match save_loop ?cx ?items ?st0 with _ => _ end = _ =>
      destruct (save_loop cx items st0) as [e|st] eqn:E; [discriminate|];
      assert (Hinv : loop_inv store1 st)
  end.
  { eapply inv_loop; [|exact E]. split; [|split; [|split]]; simpl.
    - reflexivity.
    - intros i a' Ha'. exists a'. split; [exact Ha'|]. split; [reflexivity|]. simpl. lia.
    - constructor.
    - intros j []. }
  injection H as <- <-. split; [|reflexivity]. simpl.
  destruct Hinv as (Hdom & Hrow & Hpend & Hsaved).
  assert (Hkey1 : forall i a, ls_store st !! i = Some a -> ann_id a = Some i).
  { intros i a Ha. destruct (Hrow i a Ha) as (a0 & H0 & Hid & _).
    apply delete_ids_sub in H0. rewrite Hid. exact (proj1 (Hwf i a0 H0)). }
  pose proof (flush_keyed _ (db_next_id db) (ls_pending st) Hkey1) as Hkey2.
  intros i a' Ha'.
  destruct (db_annotations db !! i) as [a|] eqn:Hdb.
  - assert (Hlt : i < db_next_id db) by exact (proj2 (Hwf i a Hdb)).
    rewrite flush_lt in Ha' by exact Hlt.
    destruct (Hrow i a' Ha') as (a0 & H0 & _ & Hv).
    pose proof (delete_ids_sub _ _ _ _ _ H0) as H0'. rewrite Hdb in H0'. injection H0' as ->.
    rewrite count_saved; [lia|exact Hlt|exact Hkey2|].
    intros j Hj. destruct (Hsaved j Hj) as [b Hb].
    pose proof (delete_ids_sub _ _ _ _ _ Hb) as Hb'.
    rewrite flush_lt by exact (proj2 (Hwf j b Hb')). apply Hdom. eexists; exact Hb.
  - destruct (flush_cases _ _ _ _ _ Ha') as [H1|(q & Hq & ->)].
    + destruct (Hrow i a' H1) as (a0 & H0 & _). apply delete_ids_sub in H0. congruence.
    + rewrite Forall_forall in Hpend. exact (Hpend q (proj2 (list_elem_of_In _ _) Hq)).
Qed.

Lemma save_annotation_versions_witness :
  (forall i a, db_annotations db_one_row !! i = Some a -> ann_id a = Some i /\ i < db_next_id db_one_row) /\
  exists db' saved,
    save_annotations db_one_row 1 (Some "hello world"%string) 1 two_upserts_request = inr (db', saved) /\
    db_versions db' = db_versions db_one_row ++ map version_row saved.
Proof.
  assert (Hwf : forall i a, db_annotations db_one_row !! i = Some a ->
                ann_id a = Some i /\ i < db_next_id db_one_row).
  { intros i a H. simpl in H. apply lookup_singleton_Some in H as [<- <-]. split; [reflexivity|].
    simpl. lia. }
  split; [exact Hwf|].
  destruct (save_annotations db_one_row 1 (Some "hello world"%string) 1 two_upserts_request)
    as [e|[db' saved]] eqn:E.
  - vm_compute in E. discriminate.
  - exists db', saved. split; [reflexivity|].
    exact (proj2 (save_annotation_versions db_one_row 1 _ 1 _ db' saved Hwf E)).
Defined.

(** C4. With [server_version] the largest version among the caller's own
    annotations on the text (0 if none): a nonzero client version below it
    makes the call fail with 409 before anything is written (the error
    carries no new table); a client version equal to it, or 0, passes the
    guard and the call is exactly the save body. *)
Theorem save_client_version_guard (db : Db) text_id content author req :
  let server_version := max_version (map snd (own_rows (db_annotations db) text_id author)) in
  let client_version := req_client_version req in
  (client_version <> 0 -> client_version < server_version ->
     save_annotations db text_id (Some content) author req = raise Conflict409) /\
  (client_version = server_version \/ client_version = 0 ->
     save_annotations db text_id (Some content) author req = save_body db text_id content author req).
Proof.
  intros sv cv. unfold save_annotations. fold sv. fold cv. split.
  - intros H0 Hlt. rewrite (proj2 (Z.eqb_neq _ _) H0), (proj2 (Z.ltb_lt _ _) Hlt). reflexivity.
  - intros [Heq|H0].
    + rewrite Heq, Z.ltb_irrefl, andb_false_r. reflexivity.
    + rewrite H0. reflexivity.
Qed.

Lemma process_item_prepared_errors cx st item e :
  validate_payload (it_payload item) = ok tt ->
  process_item cx st item = inl e -> e = Conflict409.
Proof.
  intros Hv H. unfold process_item in H.
  destruct (deleted_item _ _); [discriminate|].
  unfold prepare_payload in H. rewrite Hv in H. cbn in H.
  unfold raise, ok in H. destruct (str_truthy _ && _); [congruence|].
  repeat (case_match; try discriminate); simplify_eq.
Qed.

Lemma save_loop_conflict cx items1 item items2 st :
  Forall (fun it => validate_payload (it_payload it) = ok tt) items1 ->
  (forall st', process_item cx st' item = inl Conflict409) ->
  save_loop cx (items1 ++ item :: items2) st = inl Conflict409.
Proof.
  intros Hall Hitem. revert st. induction Hall as [|it items1' Hit Hall IH]; intros st; simpl.
  - rewrite Hitem. reflexivity.
  - destruct (process_item cx st it) as [e|st'] eqn:E.
    + rewrite (process_item_prepared_errors _ _ _ _ Hit E). reflexivity.
    + apply IH.
Qed.

(** C5 (corrected). (1) If an item that is processed (its id is not among
    [deleted_ids]) has a valid payload whose [text_sha256] is non-empty and
    differs from the hash of the current content, and every item before it
    has a valid payload, the whole save fails with 409. (2) A valid payload
    whose [text_sha256] is absent, empty or equal to the server hash goes
    through, and its [text_sha256] becomes the server hash. *)
Theorem save_text_hash_guard (content : string) :
  (forall db text_id author req items1 item items2 h,
     req_annotations req = items1 ++ item :: items2 ->
     Forall (fun it => validate_payload (it_payload it) = ok tt) items1 ->
     deleted_item (req_deleted_ids req) item = false ->
     validate_payload (it_payload item) = ok tt ->
     p_text_sha256 (it_payload item) = Some h ->
     h <> EmptyString -> h <> sha256_text content ->
     save_annotations db text_id (Some content) author req = raise Conflict409) /\
  (forall p,
     validate_payload p = ok tt ->
     p_text_sha256 p = None \/ p_text_sha256 p = Some EmptyString \/
       p_text_sha256 p = Some (sha256_text content) ->
     exists p', prepare_payload content p = ok p' /\ p_text_sha256 p' = Some (sha256_text content)).
Proof.
  split.
  - intros db text_id author req items1 item items2 h Hreq Hall Hdel Hv Hh Hne Hdiff.
    unfold save_annotations.
    destruct (negb _ && _); [reflexivity|].
    unfold save_body. rewrite Hreq, save_loop_conflict; [reflexivity|exact Hall|].
    intros st'. unfold process_item. cbn [cx_deleted cx_content]. rewrite Hdel.
    unfold prepare_payload. rewrite Hv. cbn. rewrite Hh.
    destruct h as [|c h']; [congruence|]. cbn.
    rewrite bool_decide_eq_false_2; [reflexivity|congruence].
  - intros p Hv Hh. unfold prepare_payload. rewrite Hv. cbn.
    destruct Hh as [Hh|[Hh|Hh]]; rewrite Hh; cbn;
      [| |rewrite bool_decide_eq_true_2 by reflexivity; cbn;
          destruct (sha256_text content) eqn:Es; cbn];
      (case_match; [case_match|]; eexists; (split; [reflexivity|]); cbn; try reflexivity).
Qed.


Lemma adopt_spec cx st item payload o row :
  ls_store st !! o = Some row ->
  spec_adopted st
    (mkLoopState (<[o := overwrite_row row (cx_author cx) item (item_replacement item payload) payload]> (ls_store st))
       ({[o]} ∪ ls_by_id st) (<[(it_start item, it_end item) := o]> (ls_by_span st)) (ls_pending st)
       (ls_saved st ++ [SavedRow o]))
    o (cx_author cx) item (item_replacement item payload) payload.
Proof.
  intros Hrow. exists row, (overwrite_row row (cx_author cx) item (item_replacement item payload) payload).
  cbn. rewrite lookup_insert_eq. repeat split; try assumption; try reflexivity.
  intros j Hj. rewrite lookup_insert_ne by congruence. reflexivity.
Qed.

(** C6 (corrected). For an item that is not skipped as deleted, has a
    valid payload and matches none of the caller's own rows (by id, then
    by span), with [same o] the content test of [_annotation_matches]
    (replacement, error type, and the payload signature: operation,
    before tokens, after fragments, move_from/move_to/move_len):
    - if the item's id is the id of another author's row [o], wherever
      that row lies: [same o] skips the item with the state untouched,
      otherwise [o] is adopted (author, span, fields, version + 1);
    - otherwise, among the other authors' rows at the item's span: a
      matching one skips the item, state untouched; else the first of
      them (the lowest id) is adopted; with none, a new row is queued at
      version 1. *)
Theorem save_item_other_author cx st item payload :
  deleted_item (cx_deleted cx) item = false ->
  prepare_payload (cx_content cx) (it_payload item) = ok payload ->
  own_match st item = None ->
  (forall o, o ∈ cx_other_by_id cx -> is_Some (ls_store st !! o)) ->
  (forall o, In o (default [] (cx_other_by_span cx !! (it_start item, it_end item))) ->
     is_Some (ls_store st !! o)) ->
  let repl := item_replacement item payload in
  let same o := row_matches (ls_store st) o payload repl (it_error_type item) in
  let cands := default [] (cx_other_by_span cx !! (it_start item, it_end item)) in
  (forall o, id_truthy (it_id item) = Some o -> o ∈ cx_other_by_id cx ->
     (same o = true -> process_item cx st item = ok st) /\
     (same o = false -> exists st', process_item cx st item = ok st' /\
                                    spec_adopted st st' o (cx_author cx) item repl payload)) /\
  ((forall o, id_truthy (it_id item) = Some o -> o ∉ cx_other_by_id cx) ->
     ((exists c, In c cands /\ same c = true) -> process_item cx st item = ok st) /\
     (forall c0 cs, cands = c0 :: cs -> Forall (fun c => same c = false) cands ->
        exists st', process_item cx st item = ok st' /\
                    spec_adopted st st' c0 (cx_author cx) item repl payload) /\
     (cands = [] -> exists st', process_item cx st item = ok st' /\
                    spec_inserted st st' (cx_text_id cx) (cx_author cx) item repl payload)).
Proof.
  intros Hdel Hprep Hown Hbyid Hspan repl same cands.
  assert (Hpi : process_item cx st item =
     match other_decision cx (ls_store st) item payload repl with
     | SkipItem => ok st
     | AdoptRow o =>
         match ls_store st !! o with
         | Some row =>
             ok (mkLoopState (<[o := overwrite_row row (cx_author cx) item repl payload]> (ls_store st))
                   ({[o]} ∪ ls_by_id st) (<[(it_start item, it_end item) := o]> (ls_by_span st))
                   (ls_pending st) (ls_saved st ++ [SavedRow o]))
         | None => ok st
         end
     | InsertNew =>
         ok (mkLoopState (ls_store st) (ls_by_id st) (ls_by_span st)
               (ls_pending st ++ [mkAnnotation None (cx_text_id cx) (cx_author cx) (it_start item)
                                    (it_end item) repl (it_error_type item) payload 1])
               (ls_saved st ++ [SavedNew (length (ls_pending st))]))
     end).
  { unfold process_item. rewrite Hdel, Hprep. unfold ok at 1. cbv beta iota. rewrite Hown. reflexivity. }
  rewrite Hpi. unfold other_decision. split.
  - intros o Hid Hin. rewrite Hid, (bool_decide_eq_true_2 _ Hin). cbv beta iota. fold repl. fold (same o).
    split.
    + intros ->. reflexivity.
    + intros ->. destruct (Hbyid o Hin) as [row Hrow]. rewrite Hrow.
      eexists; split; [reflexivity|]. apply adopt_spec; exact Hrow.
  - intros Hnot.
    assert (Hby : match id_truthy (it_id item) with
                  | Some i => if bool_decide (i ∈ cx_other_by_id cx) then Some i else None
                  | None => None end = None).
    { destruct (id_truthy (it_id item)) as [i|]; [|reflexivity].
      rewrite bool_decide_eq_false_2; [reflexivity|exact (Hnot i eq_refl)]. }
    rewrite Hby. cbv beta iota. fold repl. fold cands. fold same.
    split; [|split].
    + intros (c & Hc & Hsame). destruct cands as [|c0 cs] eqn:Ec; [destruct Hc|].
      rewrite (proj2 (existsb_exists _ _) (ex_intro _ c (conj Hc Hsame))). reflexivity.
    + intros c0 cs Ec Hall. rewrite Ec.
      rewrite Ec in Hall. rewrite List.Forall_forall in Hall.
      assert (Hno : existsb same (c0 :: cs) = false).
      { apply not_true_iff_false. intros Hex. apply existsb_exists in Hex as (c & Hc & Hs).
        rewrite (Hall c Hc) in Hs. discriminate. }
      rewrite Hno. cbv beta iota. pose proof (Hall c0 (or_introl eq_refl)) as H0. unfold same in H0. rewrite H0.
      assert (Hc0 : In c0 cands) by (rewrite Ec; left; reflexivity).
      destruct (Hspan c0 Hc0) as [row Hrow]. rewrite Hrow.
      eexists; split; [reflexivity|]. apply adopt_spec; exact Hrow.
    + intros Ec. rewrite Ec. eexists; split; [reflexivity|].
      split; [reflexivity|]. eexists; split; [reflexivity|]. repeat split.
Qed.

(** C9. Whenever [prepare_payload] accepts a payload: with no non-empty
    [text_tokens] list, the snapshot becomes [content.split()] with its
    hash ([sha256_tokens], U+241F-joined); with a non-empty list, the list
    is kept and only a missing or empty [text_tokens_sha256] is filled in
    from it. [str.split()] is not the tokenizer: on "a, b" they differ. *)
Theorem save_text_tokens_snapshot (content : string) (p p' : Payload) :
  prepare_payload content p = ok p' ->
  (list_truthy (default [] (p_text_tokens p)) = false ->
     p_text_tokens p' = Some (str_split content) /\
     p_text_tokens_sha256 p' = Some (sha256_tokens (str_split content))) /\
  (forall t ts, p_text_tokens p = Some (t :: ts) ->
     p_text_tokens p' = Some (t :: ts) /\
     (str_truthy (p_text_tokens_sha256 p) = false ->
        p_text_tokens_sha256 p' = Some (sha256_tokens (t :: ts))) /\
     (str_truthy (p_text_tokens_sha256 p) = true ->
        p_text_tokens_sha256 p' = p_text_tokens_sha256 p)) /\
  str_split "a, b"%string <> map tok_text (tokenize_to_tokens "a, b"%string).
Proof.
  intros H. split; [|split].
  - intros Hl. unfold prepare_payload in H. destruct (validate_payload p); [discriminate|].
    cbn in H. destruct (str_truthy _ && _); [discriminate|].
    destruct (p_text_tokens p) as [[|t ts]|]; cbn in Hl; try discriminate;
      unfold ok in H; injection H as <-; split; reflexivity.
  - intros t ts Ht. unfold prepare_payload in H. destruct (validate_payload p); [discriminate|].
    cbn in H. destruct (str_truthy _ && _); [discriminate|].
    rewrite Ht in H. unfold ok in H. injection H as <-. cbn.
    split; [reflexivity|]. split; intros Hs; rewrite Hs; reflexivity.
  - vm_compute. discriminate.
Qed.

Lemma save_client_version_guard_witness :
  (req_client_version stale_version_request <> 0 /\
   save_annotations db_row_v3 1 (Some "hello world"%string) 1 stale_version_request = raise Conflict409) /\
  save_annotations db_one_row 1 (Some "hello world"%string) 1 two_upserts_request
    = save_body db_one_row 1 "hello world" 1 two_upserts_request.
Proof.
  split; [split|].
  - discriminate.
  - apply (proj1 (save_client_version_guard db_row_v3 1 "hello world" 1 stale_version_request)).
    + discriminate.
    + vm_compute. reflexivity.
  - apply (proj2 (save_client_version_guard db_one_row 1 "hello world" 1 two_upserts_request)).
    right. reflexivity.
Defined.

(** C5, counterexample. An empty [text_sha256] is not checked: the save
    succeeds and the stored payload gets the server hash. An item whose id
    is in [deleted_ids] is skipped before its stale hash is looked at. *)
Lemma save_hash_guard_skips_empty_and_deleted :
  (exists db' saved,
     save_annotations db_one_row 1 (Some "hello world"%string) 1 empty_hash_request = inr (db', saved) /\
     map (fun a => p_text_sha256 (ann_payload a)) saved = [Some (sha256_text "hello world")]) /\
  (exists r, save_annotations db_one_row 1 (Some "hello world"%string) 1 deleted_stale_request = inr r).
Proof.
  split.
  - vm_compute. eexists _, _. split; reflexivity.
  - vm_compute. eexists. reflexivity.
Qed.

Lemma save_text_hash_guard_witness :
  save_annotations db_one_row 1 (Some "hello world"%string) 1 stale_hash_request = raise Conflict409.
Proof.
  apply (proj1 (save_text_hash_guard "hello world") db_one_row 1 1 stale_hash_request
           [] stale_hash_item [] "stale").
  - reflexivity.
  - constructor.
  - reflexivity.
  - reflexivity.
  - reflexivity.
  - discriminate.
  - vm_compute. discriminate.
Defined.

(** C6, counterexample. Author 1 has no annotation on text 1 and no other
    author has one at span (0,0), yet the item (id 7, span (0,0)) does not
    insert a new row: it takes over author 2's annotation 7 from span
    (3,3), which becomes author 1's at (0,0) with version 2. *)
Lemma save_item_id_adopts_row_at_other_span :
  own_rows (db_annotations db_other_row) 1 1 = [] /\
  group_by_span (other_rows (db_annotations db_other_row) 1 1) !! (0, 0) = None /\
  exists db' saved,
    save_annotations db_other_row 1 (Some "hello world"%string) 1 adopt_by_id_request = inr (db', saved) /\
    db_next_id db' = db_next_id db_other_row /\
    dom (db_annotations db') = {[7]} /\
    exists a, db_annotations db' !! 7 = Some a /\
      ann_author a = 1 /\ ann_start a = 0 /\ ann_end a = 0 /\ ann_version a = 2.
Proof.
  split; [reflexivity|]. split; [reflexivity|].
  destruct (save_annotations db_other_row 1 (Some "hello world"%string) 1 adopt_by_id_request)
    as [e|[db' saved]] eqn:E; [vm_compute in E; discriminate|].
  exists db', saved. split; [reflexivity|].
  vm_compute in E. injection E as <- <-.
  split; [reflexivity|]. split.
  - vm_compute. reflexivity.
  - eexists. split; [reflexivity|]. repeat split.
Qed.

Lemma save_item_other_author_witness :
  exists payload st',
    prepare_payload "hello world" (it_payload adopt_by_id_item) = ok payload /\
    process_item adopt_ctx adopt_state adopt_by_id_item = ok st' /\
    spec_adopted adopt_state st' 7 1 adopt_by_id_item (item_replacement adopt_by_id_item payload) payload.
Proof.
  destruct (prepare_payload "hello world" (it_payload adopt_by_id_item)) as [e|payload] eqn:E;
    [vm_compute in E; discriminate|].
  assert (Hin : 7 ∈ cx_other_by_id adopt_ctx) by (change (7 ∈ ({[7]} : gset Z)); set_solver).
  pose proof (save_item_other_author adopt_ctx adopt_state adopt_by_id_item payload
                eq_refl E eq_refl) as T.
  cbv zeta in T.
  destruct T as [T _].
  - intros o Ho. change (o ∈ ({[7]} : gset Z)) in Ho. apply elem_of_singleton in Ho. subst o.
    vm_compute. eexists. reflexivity.
  - intros o Ho. vm_compute in Ho. destruct Ho.
  - destruct (proj2 (T 7 eq_refl Hin)) as (st' & H1 & H2).
    + vm_compute in E. injection E as <-. vm_compute. reflexivity.
    + exists payload, st'. split; [reflexivity|]. split; assumption.
Defined.

Lemma save_text_tokens_snapshot_witness :
  exists p',
    prepare_payload "hello world" replace_payload = ok p' /\
    p_text_tokens p' = Some (str_split "hello world") /\
    p_text_tokens_sha256 p' = Some (sha256_tokens (str_split "hello world")).
Proof.
  destruct (prepare_payload "hello world" replace_payload) as [e|p'] eqn:E;
    [vm_compute in E; discriminate|].
  exists p'. split; [reflexivity|].
  apply (proj1 (save_text_tokens_snapshot "hello world" replace_payload p' E)).
  reflexivity.
Defined.

(** ** Scheduling *)

Lemma lock_for_ok t u now : lock_pair_ok (lock_for t u now).
Proof. unfold lock_pair_ok; simpl; split; discriminate. Qed.

Lemma set_lock_none_ok t : lock_pair_ok (set_lock t None None).
Proof. unfold lock_pair_ok; simpl; tauto. Qed.

Lemma set_state_ok t s : lock_pair_ok t -> lock_pair_ok (set_state t s).
Proof. unfold lock_pair_ok; simpl; tauto. Qed.

Lemma locks_ok_insert w tid t :
  locks_ok w -> lock_pair_ok t -> forall m, m = <[tid := t]> (w_texts w) ->
  forall j t', m !! j = Some t' -> lock_pair_ok t'.
Proof.
  intros Hw Ht m -> j t' Hj. apply lookup_insert_Some in Hj as [[<- <-]|[_ Hj]]; eauto.
Qed.

Lemma sweep_locks_ok now w : locks_ok w -> locks_ok (sweep_locks now w).
Proof.
  intros Hw tid t Ht. cbn in Ht. rewrite lookup_fmap in Ht.
  destruct (w_texts w !! tid) as [t0|] eqn:E; cbn in Ht; [|discriminate].
  injection Ht as <-. unfold release_expired.
  destruct (tx_locked_at t0); [|exact (Hw _ _ E)].
  destruct (_ <? _); [apply set_lock_none_ok|exact (Hw _ _ E)].
Qed.

Lemma queue_cross_validation_eq w tid :
  queue_cross_validation w tid = with_cvr w (<[tid := mkCrossValidation "pending" []]> (w_cvr w)).
Proof. unfold queue_cross_validation. destruct (w_cvr w !! tid); reflexivity. Qed.

Lemma queue_cross_validation_texts w tid : w_texts (queue_cross_validation w tid) = w_texts w.
Proof. unfold queue_cross_validation. destruct (w_cvr w !! tid); reflexivity. Qed.

Lemma queue_cross_validation_tasks w tid : w_tasks (queue_cross_validation w tid) = w_tasks w.
Proof. unfold queue_cross_validation. destruct (w_cvr w !! tid); reflexivity. Qed.

Lemma step_locks_ok w w' : locks_ok w -> step w w' -> locks_ok w'.
Proof.
  intros Hw Hs. destruct Hs as [w u cat now' tid w' H|w u tid now' w' H|w u tid f now' w' H|w u tid f
                          |w u cat body required ha now' w' H].
  - unfold get_next_text in H.
    pose proof (sweep_locks_ok now' w Hw) as Hw1.
    destruct (bool_decide _); [|discriminate].
    repeat (case_match; try discriminate); unfold ok in H; injection H as <- <-;
      intros j t' Hj; cbn in Hj; (eapply locks_ok_insert; [exact Hw1|apply lock_for_ok|reflexivity|exact Hj]).
  - unfold submit_annotations in H.
    destruct (w_texts w !! tid) as [t|] eqn:Et; [|discriminate].
    assert (Hw1 : locks_ok (match find_task w tid u with
                | None => with_tasks w (<[w_next_task w := mkTask tid u "submitted" now']> (w_tasks w))
                                     (w_next_task w + 1)
                | Some (i, tk) => with_tasks w (<[i := set_status tk "submitted" now']> (w_tasks w))
                                             (w_next_task w)
                end)) by (repeat case_match; exact Hw).
    destruct (_ <=? _); unfold ok in H; injection H as <-;
      intros j t' Hj; try rewrite queue_cross_validation_texts in Hj; cbn in Hj;
      (eapply locks_ok_insert; [exact Hw1|apply set_state_ok, set_lock_none_ok|reflexivity|exact Hj]).
  - unfold flag_text in H.
    destruct (w_texts w !! tid) as [t|] eqn:Et; [|discriminate].
    unfold ok in H. injection H as <-.
    intros j t' Hj; cbn in Hj.
    eapply locks_ok_insert; [exact Hw|apply set_state_ok, set_lock_none_ok|reflexivity|exact Hj].
  - unfold clear_flag. destruct (existsb _ _); [|exact Hw].
    intros j t' Hj. cbn in Hj.
    destruct (w_texts w !! tid) as [t|] eqn:Et; [|exact (Hw _ _ Hj)].
    assert (Ht : lock_pair_ok (set_state t "pending")) by (apply set_state_ok; exact (Hw _ _ Et)).
    destruct f; [destruct (Nat.eqb _ _)|];
      first [ eapply locks_ok_insert; [exact Hw|exact Ht|reflexivity|exact Hj] | exact (Hw _ _ Hj) ].
  - unfold import_text in H.
    destruct (bool_decide _); [|discriminate].
    assert (Hnew : lock_pair_ok (mkTextSample body cat required "pending" None None)) by
      (unfold lock_pair_ok; simpl; tauto).
    destruct ha; [destruct (_ <=? _)|]; unfold ok in H; injection H as <-;
      intros j t' Hj; try rewrite queue_cross_validation_texts in Hj; cbn in Hj;
      apply lookup_insert_Some in Hj as [[_ <-]|[_ Hj]];
      first [ apply set_state_ok; exact Hnew | exact Hnew
            | apply lookup_insert_Some in Hj as [[_ <-]|[_ Hj]];
              [exact Hnew | exact (Hw _ _ Hj)]
            | exact (Hw _ _ Hj) ].
Qed.

Lemma rtc_locks_ok w w' : rtc step w w' -> locks_ok w -> locks_ok w'.
Proof.
  induction 1 as [x|x y z Hxy Hyz IH]; [tauto|].
  intros Hx. apply IH. eapply step_locks_ok; eassumption.
Qed.

(** C8 (confirmed). The lock pair of every text ([locked_by_id],
    [locked_at]) is both null or both set after the expired-lock sweep, after
    any single committed request (assignment and re-assignment by
    [get_next_text], submission, skip/trash flagging, clearing a flag,
    import), and after any sequence of them, when it held before. *)
Theorem lock_pair_invariant w w' w'' now :
  locks_ok w ->
  locks_ok (sweep_locks now w) /\ (step w w' -> locks_ok w') /\ (rtc step w w'' -> locks_ok w'').
Proof.
  intros Hw. split; [apply sweep_locks_ok; exact Hw|]. split.
  - intros Hs. exact (step_locks_ok _ _ Hw Hs).
  - intros Hr. exact (rtc_locks_ok _ _ Hr Hw).
Qed.

Lemma head_sort_filter {A} (key : A -> key4) (p : A -> bool) (l : list A) x :
  head (sort_by_key key (List.filter p l)) = Some x -> p x = true /\ In x l.
Proof.
  intros H.
  assert (Hall : Forall (fun y => p y = true /\ In y l) (sort_by_key key (List.filter p l))).
  { apply sort_by_key_Forall. apply List.Forall_forall. intros y Hy.
    apply filter_In in Hy as [Hy Hp]. auto. }
  destruct (sort_by_key key (List.filter p l)) as [|y r]; [discriminate|].
  injection H as ->. inversion Hall; assumption.
Qed.

Lemma terminal_text_spec w tid : terminal_text w tid = true <-> has_terminal_task w tid.
Proof.
  unfold terminal_text, has_terminal_task, task_rows. rewrite existsb_exists. split.
  - intros ([i tk] & Hin & Hb). apply andb_true_iff in Hb as [Ht Hs].
    exists i, tk. apply Z.eqb_eq in Ht. split; [|auto].
    apply elem_of_map_to_list. apply list_elem_of_In. exact Hin.
  - intros (i & tk & Hi & Ht & Hs). exists (i, tk). split.
    + apply list_elem_of_In. apply elem_of_map_to_list. exact Hi.
    + cbn [fst snd]. rewrite Ht, Z.eqb_refl, Hs. reflexivity.
Qed.

Lemma find_task_spec w tid u i tk :
  find_task w tid u = Some (i, tk) -> w_tasks w !! i = Some tk /\ tk_text tk = tid /\ tk_annotator tk = u.
Proof.
  unfold find_task, task_rows. intros H.
  pose proof (find_some _ _ H) as [Hin Hb]. cbn in Hb.
  apply andb_true_iff in Hb as [Ht Hu]. apply Z.eqb_eq in Ht, Hu.
  split; [|auto]. apply elem_of_map_to_list. apply list_elem_of_In. exact Hin.
Qed.

Lemma has_terminal_insert_fresh w tid m n i tk :
  has_terminal_task w tid -> tasks_fresh w -> i = w_next_task w ->
  m = <[i := tk]> (w_tasks w) -> has_terminal_task (with_tasks w m n) tid.
Proof.
  intros (j & tj & Hj & Ht & Hs) Hf -> ->. exists j, tj. unfold with_tasks; cbn [w_tasks]. split; [|auto].
  rewrite lookup_insert_ne; [exact Hj|]. intros Heq.
  specialize (Hf j (mk_is_Some _ _ Hj)). lia.
Qed.

Lemma has_terminal_overwrite w tid i tk tk' m :
  has_terminal_task w tid ->
  w_tasks w !! i = Some tk -> tk_text tk' = tk_text tk ->
  (is_terminal (tk_status tk) = true -> is_terminal (tk_status tk') = true) ->
  m = <[i := tk']> (w_tasks w) ->
  forall cats texts nt next sk cvr, has_terminal_task (mkWorld cats texts nt m next sk cvr) tid.
Proof.
  intros (j & tj & Hj & Ht & Hs) Hi Htext Hterm -> cats texts nt next sk cvr.
  destruct (decide (i = j)) as [->|Hne].
  - rewrite Hi in Hj. injection Hj as ->. exists j, tk'. cbn [w_tasks]. rewrite lookup_insert_eq.
    split; [reflexivity|]. split; [congruence|auto].
  - exists j, tj. cbn [w_tasks]. rewrite lookup_insert_ne by exact Hne. auto.
Qed.

Lemma tasks_fresh_insert w m n i tk :
  tasks_fresh w -> (i < n) -> w_next_task w <= n -> m = <[i := tk]> (w_tasks w) ->
  forall cats texts nt sk cvr, tasks_fresh (mkWorld cats texts nt m n sk cvr).
Proof.
  intros Hf Hi Hn -> cats texts nt sk cvr j Hj. cbn [w_tasks w_next_task] in *.
  destruct (decide (i = j)) as [->|Hne]; [lia|].
  rewrite lookup_insert_ne in Hj by exact Hne. specialize (Hf j Hj). lia.
Qed.


Lemma submit_tasks w u tid now w' :
  submit_annotations w u tid now = ok w' ->
  exists i tk, w_tasks w' = <[i := tk]> (w_tasks w) /\ tk_text tk = tid /\
    tk_status tk = "submitted"%string /\
    ((i = w_next_task w /\ w_next_task w' = w_next_task w + 1) \/
     (exists tk0, w_tasks w !! i = Some tk0 /\ tk_text tk0 = tid /\ w_next_task w' = w_next_task w)).
Proof.
  unfold submit_annotations. intros H.
  destruct (w_texts w !! tid) as [t|]; [|discriminate].
  destruct (find_task w tid u) as [[i tk0]|] eqn:Ef.
  - destruct (find_task_spec _ _ _ _ _ Ef) as (Hi & Ht & _).
    exists i, (set_status tk0 "submitted" now).
    destruct (_ <=? _); unfold ok in H; injection H as <-;
      try rewrite queue_cross_validation_eq; cbn;
      (split; [reflexivity|]); (split; [exact Ht|]); (split; [reflexivity|]); right; eauto.
  - exists (w_next_task w), (mkTask tid u "submitted" now).
    destruct (_ <=? _); unfold ok in H; injection H as <-;
      try rewrite queue_cross_validation_eq; cbn;
      (split; [reflexivity|]); (split; [reflexivity|]); (split; [reflexivity|]); left;
      (split; reflexivity).
Qed.

Lemma submit_inv7 w u tid tid0 now w' :
  submit_annotations w u tid now = ok w' -> tasks_fresh w ->
  tasks_fresh w' /\ (has_terminal_task w tid0 -> has_terminal_task w' tid0) /\ has_terminal_task w' tid.
Proof.
  intros H Hf. destruct (submit_tasks _ _ _ _ _ H) as (i & tk & Hts & Htx & Hst & Hcase).
  assert (Hterm : is_terminal (tk_status tk) = true) by (rewrite Hst; reflexivity).
  split; [|split].
  - intros j Hj. rewrite Hts in Hj.
    destruct (decide (i = j)) as [<-|Hne].
    + destruct Hcase as [(Hi0 & Hn)|(tk0 & Hi & _ & Hn)]; rewrite Hn; [lia|].
      exact (Hf i (mk_is_Some _ _ Hi)).
    + rewrite lookup_insert_ne in Hj by exact Hne. specialize (Hf j Hj).
      destruct Hcase as [(_ & Hn)|(_ & _ & _ & Hn)]; rewrite Hn; lia.
  - intros (j & tj & Hj & Ht & Hs).
    destruct (decide (i = j)) as [<-|Hne].
    + destruct Hcase as [(-> & _)|(tk0 & Hi & Ht0 & _)].
      * specialize (Hf _ (mk_is_Some _ _ Hj)). lia.
      * rewrite Hi in Hj. injection Hj as <-.
        exists i, tk. rewrite Hts, lookup_insert_eq. split; [reflexivity|]. split; [congruence|exact Hterm].
    + exists j, tj. rewrite Hts, lookup_insert_ne by exact Hne. auto.
  - exists i, tk. rewrite Hts, lookup_insert_eq. auto.
Qed.

Lemma task_rows_lookup w i tk : In (i, tk) (task_rows w) -> w_tasks w !! i = Some tk.
Proof. intros H. apply elem_of_map_to_list. apply list_elem_of_In. exact H. Qed.

Lemma get_next_inv7 w u cat now tid' w' tid0 :
  get_next_text w u cat now = ok (tid', w') -> tasks_fresh w -> has_terminal_task w tid0 ->
  tasks_fresh w' /\ has_terminal_task w' tid0 /\ tid' <> tid0.
Proof.
  intros H Hf Ht. unfold get_next_text in H.
  destruct (bool_decide _); [|discriminate].
  assert (Ht1 : terminal_text (sweep_locks now w) tid0 = true) by (apply terminal_text_spec; exact Ht).
  destruct (existing_task_row (sweep_locks now w) u cat) as [[i tk]|] eqn:Ee.
  - unfold existing_task_row in Ee. apply head_sort_filter in Ee as [Hp Hin].
    apply task_rows_lookup in Hin. cbn [w_tasks sweep_locks with_texts] in Hin.
    cbn [fst snd] in Hp.
    destruct (w_texts (sweep_locks now w) !! tk_text tk) as [t|] eqn:Et; [|rewrite andb_false_r in Hp; discriminate].
    repeat rewrite andb_true_iff in Hp. destruct Hp as [[Hu Hnt] [[[Hc Ho] Hsk] Hterm]].
    unfold ok in H. injection H as <- <-.
    apply negb_true_iff in Hnt, Hterm.
    split; [|split].
    + unfold with_tasks. eapply tasks_fresh_insert; [exact Hf| | |reflexivity]; [|cbn; lia].
      exact (Hf i (mk_is_Some _ _ Hin)).
    + unfold with_tasks. eapply has_terminal_overwrite; [exact Ht|exact Hin| |congruence|reflexivity].
      destruct (String.eqb _ _); reflexivity.
    + intros Heq. rewrite Heq in Hterm. congruence.
  - destruct (first_text (sweep_locks now w) u cat) as [[tid t]|] eqn:Eft; [|discriminate].
    unfold first_text, text_candidates in Eft. apply head_sort_filter in Eft as [Hp _].
    repeat rewrite andb_true_iff in Hp.
    destruct Hp as [[[[[[[_ _] _] _] _] Hterm] _] _].
    apply negb_true_iff in Hterm.
    assert (Hne : tid <> tid0) by (intros ->; congruence).
    destruct (find_task _ tid u); unfold ok in H; injection H as <- <-.
    + split; [exact Hf|]. split; [exact Ht|exact Hne].
    + split; [|split; [|exact Hne]].
      * unfold with_tasks. eapply tasks_fresh_insert; [exact Hf| | |reflexivity]; cbn; lia.
      * eapply has_terminal_insert_fresh; [exact Ht|exact Hf|reflexivity|reflexivity].
Qed.

Lemma step_inv7 tid0 w w' : step w w' -> inv7 tid0 w -> inv7 tid0 w'.
Proof.
  intros Hs [Hf Ht].
  destruct Hs as [w u cat now tid w' H|w u tid now w' H|w u tid f now w' H|w u tid f
                 |w u cat body required ha now w' H].
  - destruct (get_next_inv7 _ _ _ _ _ _ _ H Hf Ht) as (? & ? & _). split; assumption.
  - destruct (submit_inv7 _ _ _ tid0 _ _ H Hf) as (? & ? & _). split; auto.
  - unfold flag_text in H. destruct (w_texts w !! tid); [|discriminate].
    unfold ok in H. injection H as <-.
    destruct (find_task w tid u) as [[i tk]|] eqn:Ef; [|split; assumption].
    destruct (find_task_spec _ _ _ _ _ Ef) as (Hi & _ & _).
    split.
    + eapply tasks_fresh_insert; [exact Hf| | |reflexivity]; [|cbn; lia].
      exact (Hf i (mk_is_Some _ _ Hi)).
    + eapply has_terminal_overwrite; [exact Ht|exact Hi| | |reflexivity];
        [reflexivity|intros _; destruct f; reflexivity].
  - unfold clear_flag. destruct (existsb _ _); split; assumption.
  - unfold import_text in H. destruct (bool_decide _); [|discriminate].
    destruct ha; [destruct (_ <=? _)|]; unfold ok in H; injection H as <-;
      try rewrite queue_cross_validation_eq.
    + split.
      * eapply tasks_fresh_insert; [exact Hf| | |reflexivity]; cbn; lia.
      * eapply has_terminal_insert_fresh; [exact Ht|exact Hf|reflexivity|reflexivity].
    + split.
      * eapply tasks_fresh_insert; [exact Hf| | |reflexivity]; cbn; lia.
      * eapply has_terminal_insert_fresh; [exact Ht|exact Hf|reflexivity|reflexivity].
    + split; assumption.
Qed.

Lemma rtc_inv7 tid w w' : rtc step w w' -> inv7 tid w -> inv7 tid w'.
Proof.
  induction 1 as [x|x y z Hxy Hyz IH]; [tauto|].
  intros Hx. apply IH. eapply step_inv7; eassumption.
Qed.

(** C7 (confirmed). After a successful submit on text [tid]: if the
    number of submitted tasks on it reaches [required_annotations], its
    state is ["awaiting_cross_validation"] and its cross-validation row is
    pending with an empty result; otherwise its state is ["pending"]. When
    the tasks counter is above every task id, no later sequence of requests
    lets [get_next_text] hand [tid] to any annotator. *)
Theorem submit_completion_trigger w u tid now w' :
  tasks_fresh w ->
  submit_annotations w u tid now = ok w' ->
  exists t t',
    w_texts w !! tid = Some t /\ w_texts w' !! tid = Some t' /\
    (tx_required t <= Z.of_nat (submitted_count w' tid) ->
       tx_state t' = "awaiting_cross_validation"%string /\
       w_cvr w' !! tid = Some (mkCrossValidation "pending" [])) /\
    (Z.of_nat (submitted_count w' tid) < tx_required t -> tx_state t' = "pending"%string) /\
    (forall w'' u' cat now' tid' w''',
       rtc step w' w'' -> get_next_text w'' u' cat now' = ok (tid', w''') -> tid' <> tid).
Proof.
  intros Hf H.
  assert (Hnever : forall w'' u' cat now' tid' w''',
             rtc step w' w'' -> get_next_text w'' u' cat now' = ok (tid', w''') -> tid' <> tid).
  { intros w'' u' cat now' tid' w''' Hr Hg.
    assert (Hinv : inv7 tid w').
    { destruct (submit_inv7 _ _ _ tid _ _ H Hf) as (? & _ & ?). split; assumption. }
    destruct (rtc_inv7 _ _ _ Hr Hinv) as [Hf'' Ht''].
    exact (proj2 (proj2 (get_next_inv7 _ _ _ _ _ _ _ Hg Hf'' Ht''))). }
  unfold submit_annotations in H.
  destruct (w_texts w !! tid) as [t|] eqn:Et; [|discriminate].
  destruct (tx_required (set_lock t None None) <=? _) eqn:Eb; unfold ok in H; injection H as Hw'.
  - apply Z.leb_le in Eb.
    exists t, (set_state (set_lock t None None) "awaiting_cross_validation").
    rewrite <- Hw', queue_cross_validation_eq.
    split; [reflexivity|]. split; [cbn; apply lookup_insert_eq|].
    split; [|split; [|rewrite queue_cross_validation_eq in Hw'; rewrite Hw'; exact Hnever]].
    + intros _. split; [reflexivity|]. cbn. apply lookup_insert_eq.
    + intros Hlt. cbn in Eb. unfold submitted_count, task_rows in Hlt, Eb. cbn in Hlt, Eb. lia.
  - apply Z.leb_gt in Eb.
    exists t, (set_state (set_lock t None None) "pending").
    rewrite <- Hw'.
    split; [reflexivity|]. split; [cbn; apply lookup_insert_eq|].
    split; [|split; [|rewrite Hw'; exact Hnever]].
    + intros Hle. cbn in Eb. exfalso. unfold submitted_count, task_rows in Hle, Eb. cbn in Hle, Eb. lia.
    + intros _. reflexivity.
Qed.

(** Witness of [lock_pair_invariant] on a one-text world. *)
Lemma lock_pair_invariant_witness :
  locks_ok sched_world /\ locks_ok (sweep_locks 0 sched_world).
Proof.
  assert (H : locks_ok sched_world).
  { intros j t Hj. cbn in Hj. apply lookup_singleton_Some in Hj as [_ <-].
    unfold lock_pair_ok. cbn. tauto. }
  split; [exact H|].
  exact (proj1 (lock_pair_invariant sched_world sched_world sched_world 0 H)).
Defined.

(** Witness of [submit_completion_trigger]: the first of two required
    submissions returns the text to pending. *)
Lemma submit_completion_trigger_witness :
  tasks_fresh sched_world /\ submit_annotations sched_world 10 1 5 = ok sched_after_submit /\
  exists t', w_texts sched_after_submit !! 1 = Some t' /\ tx_state t' = "pending"%string.
Proof.
  assert (Hf : tasks_fresh sched_world).
  { intros i [x Hx]. cbn in Hx. rewrite lookup_empty in Hx. discriminate. }
  assert (Hs : submit_annotations sched_world 10 1 5 = ok sched_after_submit)
    by (vm_compute; reflexivity).
  split; [exact Hf|]. split; [exact Hs|].
  destruct (submit_completion_trigger sched_world 10 1 5 sched_after_submit Hf Hs)
    as (t & t' & Ht & Ht' & _ & Hlt & _).
  exists t'. split; [exact Ht'|]. apply Hlt.
  cbn in Ht. apply lookup_singleton_Some in Ht as [_ <-]. vm_compute. reflexivity.
Defined.

(** ** Export *)

Lemma key4_leb_refl (a : key4) : key4_leb a a = true.
Proof.
  destruct a as [[[a1 a2] a3] a4]. unfold key4_leb.
  rewrite !Z.eqb_refl, Z.leb_refl. rewrite !orb_true_r. reflexivity.
Qed.

Lemma key4_leb_iff (a b : key4) :
  key4_leb a b = true <->
  (a.1.1.1 < b.1.1.1 \/ (a.1.1.1 = b.1.1.1 /\ (a.1.1.2 < b.1.1.2 \/ (a.1.1.2 = b.1.1.2 /\
    (a.1.2 < b.1.2 \/ (a.1.2 = b.1.2 /\ a.2 <= b.2))))))%Z.
Proof.
  destruct a as [[[a1 a2] a3] a4], b as [[[b1 b2] b3] b4]. unfold key4_leb. cbv beta iota zeta. cbn [fst snd].
  repeat rewrite ?orb_true_iff, ?andb_true_iff, ?Z.ltb_lt, ?Z.eqb_eq, ?Z.leb_le. tauto.
Qed.

Lemma key4_leb_trans (a b c : key4) : key4_leb a b = true -> key4_leb b c = true -> key4_leb a c = true.
Proof. rewrite !key4_leb_iff. lia. Qed.

Lemma key4_leb_total (a b : key4) : key4_leb a b = false -> key4_leb b a = true.
Proof.
  intros H. apply not_true_iff_false in H. rewrite key4_leb_iff in H. rewrite key4_leb_iff. lia.
Qed.

Section Sorting.
Context {A : Type} (key : A -> key4).
Let R (x y : A) : Prop := key4_leb (key x) (key y) = true.

Lemma insert_by_key_In x l y : In y (insert_by_key key x l) <-> x = y \/ In y l.
Proof.
  induction l as [|z l IH]; cbn; [tauto|].
  destruct (key4_leb (key x) (key z)); cbn; [tauto|]. rewrite IH. tauto.
Qed.

Lemma sort_by_key_In l y : In y (sort_by_key key l) <-> In y l.
Proof.
  induction l as [|x l IH]; cbn; [tauto|]. rewrite insert_by_key_In.
  unfold sort_by_key in IH. rewrite IH. tauto.
Qed.

Lemma insert_by_key_sorted x l :
  StronglySorted R l -> StronglySorted R (insert_by_key key x l).
Proof.
  induction 1 as [|z l Hs IH Hz]; cbn.
  - repeat constructor.
  - destruct (key4_leb (key x) (key z)) eqn:Exz.
    + constructor; [constructor; assumption|].
      constructor; [exact Exz|]. eapply Forall_impl; [exact Hz|].
      intros y Hy. exact (key4_leb_trans _ _ _ Exz Hy).
    + constructor; [exact IH|].
      apply insert_by_key_Forall; [apply key4_leb_total; exact Exz|exact Hz].
Qed.

Lemma sort_by_key_sorted l : StronglySorted R (sort_by_key key l).
Proof.
  induction l as [|x l IH]; cbn; [constructor|]. apply insert_by_key_sorted. exact IH.
Qed.

Lemma filter_head_least (p : A -> bool) l h rest :
  StronglySorted R l -> List.filter p l = h :: rest ->
  forall y, In y l -> p y = true -> R h y.
Proof.
  induction 1 as [|z l Hs IH Hz]; cbn; [discriminate|].
  intros Hf y Hy Hp. destruct (p z) eqn:Epz.
  - injection Hf as <- _. destruct Hy as [<-|Hy].
    + unfold R. apply key4_leb_refl.
    + exact (proj1 (List.Forall_forall _ _) Hz y Hy).
  - destruct Hy as [<-|Hy]; [congruence|]. exact (IH Hf y Hy Hp).
Qed.
End Sorting.

Lemma add_to_group_keys k r G k' :
  In k' (map fst (add_to_group k r G)) <-> k = k' \/ In k' (map fst G).
Proof.
  induction G as [|[k0 g0] G IH]; cbn; [tauto|].
  destruct (Z.eqb_spec k0 k) as [->|Hne]; cbn; [tauto|]. rewrite IH. tauto.
Qed.

Lemma add_to_group_nodup k r G : List.NoDup (map fst G) -> List.NoDup (map fst (add_to_group k r G)).
Proof.
  induction G as [|[k0 g0] G IH]; cbn; intros Hnd; [repeat constructor; auto|].
  apply List.NoDup_cons_iff in Hnd as [Hnin Hnd'].
  destruct (Z.eqb_spec k0 k) as [->|Hne]; cbn; constructor; auto.
  rewrite add_to_group_keys. intros [->|Hin]; [congruence|contradiction].
Qed.

Lemma add_to_group_members k r G k' g' :
  List.NoDup (map fst G) -> In (k', g') (add_to_group k r G) ->
  (k' = k /\ ((g' = [r] /\ ~ In k (map fst G)) \/ exists g, In (k, g) G /\ g' = g ++ [r])) \/
  (k' <> k /\ In (k', g') G).
Proof.
  induction G as [|[k0 g0] G IH]; cbn; intros Hnd.
  - intros [H|[]]. injection H as <- <-. left. split; [reflexivity|]. left. auto.
  - apply List.NoDup_cons_iff in Hnd as [Hnin Hnd'].
    destruct (Z.eqb_spec k0 k) as [Heq|Hne]; cbn.
    + subst k0. intros [H|H].
      * injection H as <- <-. left. split; [reflexivity|]. right. exists g0. auto.
      * right. split; [|right; exact H].
        intros ->. apply Hnin. apply (in_map fst) in H. exact H.
    + intros [H|H].
      * injection H as <- <-. right. split; [exact Hne|left; reflexivity].
      * destruct (IH Hnd' H) as [(-> & [(-> & Hn)|(g & Hg & ->)])|(Hne' & Hin)].
        -- left. split; [reflexivity|]. left. split; [reflexivity|]. intros [Hk|Hk]; [congruence|tauto].
        -- left. split; [reflexivity|]. right. exists g. split; [right; exact Hg|reflexivity].
        -- right. split; [exact Hne'|right; exact Hin].
Qed.

Lemma groups_inv_step P G r :
  groups_inv P G -> groups_inv (P ++ [r]) (add_to_group (group_key r) r G).
Proof.
  intros (Hnd & Hkeys & Hgroups). split; [|split].
  - apply add_to_group_nodup. exact Hnd.
  - intros k. rewrite add_to_group_keys, Hkeys. split.
    + intros [<-|(r0 & Hr0 & Hk)].
      * exists r. split; [apply in_or_app; right; left; reflexivity|reflexivity].
      * exists r0. split; [apply in_or_app; left; exact Hr0|exact Hk].
    + intros (r0 & Hr0 & Hk). apply in_app_or in Hr0 as [Hr0|[<-|[]]].
      * right. exists r0. auto.
      * left. exact Hk.
  - intros k g Hin. rewrite List.filter_app. cbn.
    destruct (add_to_group_members _ _ _ _ _ Hnd Hin) as [(-> & [(-> & Hn)|(g0 & Hg0 & ->)])|(Hne & Hin')].
    + rewrite Z.eqb_refl.
      assert (Hnil : List.filter (fun r0 => group_key r0 =? group_key r) P = []).
      { destruct (List.filter _ P) as [|x rest] eqn:Ef; [reflexivity|].
        exfalso. apply Hn. apply Hkeys. exists x.
        assert (Hx : In x (List.filter (fun r0 => group_key r0 =? group_key r) P)) by (rewrite Ef; left; reflexivity).
        apply filter_In in Hx as [Hx Hk]. apply Z.eqb_eq in Hk. eauto. }
      rewrite Hnil. reflexivity.
    + rewrite Z.eqb_refl. rewrite (Hgroups _ _ Hg0). reflexivity.
    + rewrite (Hgroups _ _ Hin'). destruct (Z.eqb_spec (group_key r) k) as [Heq|_]; [congruence|].
      rewrite app_nil_r. reflexivity.
Qed.

Lemma group_by_text_inv L : groups_inv L (group_by_text L).
Proof.
  unfold group_by_text.
  assert (Hgen : forall P G, groups_inv P G ->
            groups_inv (P ++ L) (fold_left (fun g r => add_to_group (tk_text (row_task r)) r g) L G)).
  { induction L as [|r L IH]; intros P G Hinv; cbn; [rewrite app_nil_r; exact Hinv|].
    replace (P ++ r :: L) with ((P ++ [r]) ++ L) by (rewrite <- app_assoc; reflexivity).
    apply IH. apply groups_inv_step. exact Hinv. }
  apply (Hgen []). split; [constructor|]. split.
  - intros k. cbn. split; [intros []|intros (r & [] & _)].
  - intros k g [].
Qed.

Lemma submitted_rows_In w keep r : In r (submitted_rows w keep) <-> passing_row w keep r.
Proof.
  unfold submitted_rows, passing_row. rewrite sort_by_key_In, filter_In.
  rewrite <- list_elem_of_In, list_elem_of_omap.
  destruct r as [[i tk] t]. unfold row_task_id, row_task, row_text. cbn [fst snd].
  rewrite !andb_true_iff, !negb_true_iff, !String.eqb_eq, <- !not_true_iff_false, !String.eqb_eq.
  split.
  - intros (([j tj] & Hin & Hf) & ((Hs & Ht) & Hk) & Hkeep).
    cbn [fst snd] in Hf. destruct (w_texts w !! tk_text tj) as [t0|] eqn:Et; [|discriminate].
    injection Hf as <- <- <-. apply elem_of_map_to_list in Hin. auto 10.
  - intros (Hi & Ht & Hs & Htr & Hsk & Hkeep). split; [|auto].
    exists (i, tk). split; [apply elem_of_map_to_list; exact Hi|]. cbn [fst snd]. rewrite Ht. reflexivity.
Qed.

Lemma variant_of_id store r : rec_id (variant_of store r) = group_key r.
Proof. reflexivity. Qed.

Lemma groups_nonempty L G k g :
  groups_inv L G -> In (k, g) G -> exists h rest, g = h :: rest /\ group_key h = k.
Proof.
  intros (Hnd & Hkeys & Hgroups) Hin.
  assert (Hk : In k (map fst G)) by (apply (in_map fst) in Hin; exact Hin).
  apply Hkeys in Hk as (r & Hr & Hrk).
  rewrite (Hgroups _ _ Hin).
  destruct (List.filter (fun r0 => group_key r0 =? k) L) as [|h rest] eqn:Ef.
  - exfalso. assert (Hx : In r (List.filter (fun r0 => group_key r0 =? k) L))
      by (apply filter_In; split; [exact Hr|apply Z.eqb_eq; exact Hrk]).
    rewrite Ef in Hx. destruct Hx.
  - exists h, rest. split; [reflexivity|].
    assert (Hx : In h (List.filter (fun r0 => group_key r0 =? k) L)) by (rewrite Ef; left; reflexivity).
    apply filter_In in Hx as [_ Hx]. apply Z.eqb_eq. exact Hx.
Qed.

Lemma export_map_ids store G :
  (forall k g, In (k, g) G -> exists h rest, g = h :: rest /\ group_key h = k) ->
  map rec_id (omap (fun g => choose_variant store g.2) G) = map fst G.
Proof.
  induction G as [|[k g] G IH]; intros HG; [reflexivity|].
  destruct (HG k g (or_introl eq_refl)) as (h & rest & -> & Hk).
  cbn. rewrite IH by (intros k' g' H; apply HG; right; exact H). f_equal. exact Hk.
Qed.

Lemma export_members store G rec :
  In rec (omap (fun g => choose_variant store g.2) G) ->
  exists (k : Z) (g : list TaskRow) (h : TaskRow) (rest : list TaskRow), In (k, g) G /\ g = h :: rest /\ rec = variant_of store h.
Proof.
  rewrite <- list_elem_of_In, list_elem_of_omap.
  intros ([k g] & Hin & Hc). apply list_elem_of_In in Hin. cbn in Hc.
  unfold choose_variant in Hc. destruct g as [|h rest]; cbn in Hc; [discriminate|].
  injection Hc as <-. exists k, (h :: rest), h, rest. auto.
Qed.

Lemma export_order_latest r r' :
  key4_leb (export_order r) (export_order r') = true -> latest_first r r'.
Proof. rewrite key4_leb_iff. unfold export_order, latest_first. cbn. lia. Qed.

Lemma sorted_head_least {A} (key : A -> key4) h rest y :
  StronglySorted (fun x y => key4_leb (key x) (key y) = true) (h :: rest) -> In y (h :: rest) ->
  key4_leb (key h) (key y) = true.
Proof.
  intros Hs [<-|Hy]; [apply key4_leb_refl|].
  apply StronglySorted_inv in Hs as [_ Hf]. exact (proj1 (List.Forall_forall _ _) Hf y Hy).
Qed.

(** C10 (corrected). The bulk export emits one record per text that has a
    task passing its filters (submitted, text not trash/skipped, category
    list, [updated_at] window), built from the annotations of the annotator
    of the passing task with the greatest [(updated_at, id)] on that text;
    the single-text export emits that record for its text, or nothing when
    no task passes. Every annotation used belongs to that task's annotator
    and text. *)
Theorem export_latest_passing_task w store categories start end_ text_id :
  (let keep := bulk_keep categories start end_ in
   let recs := export_submitted_texts w store categories start end_ in
   List.NoDup (map rec_id recs) /\
   (forall r, passing_row w keep r -> exists rec, In rec recs /\ rec_id rec = tk_text (row_task r)) /\
   (forall rec, In rec recs ->
      exists r, passing_row w keep r /\ rec = variant_of store r /\
        forall r', passing_row w keep r' -> tk_text (row_task r') = tk_text (row_task r) ->
                   latest_first r r')) /\
  (let keep := fun r => tk_text (row_task r) =? text_id in
   (forall rec, export_single_text w store text_id = Some rec ->
      exists r, passing_row w keep r /\ rec = variant_of store r /\
        forall r', passing_row w keep r' -> latest_first r r') /\
   (export_single_text w store text_id = None -> forall r, ~ passing_row w keep r)) /\
  (forall r a, In a (task_annotations store (row_task r)) ->
     ann_author a = tk_annotator (row_task r) /\ ann_text_id a = tk_text (row_task r)).
Proof.
  split; [|split].
  - intros keep recs.
    set (L := submitted_rows w keep).
    pose proof (group_by_text_inv L) as Hinv.
    pose proof Hinv as (Hnd & Hkeys & Hgroups).
    assert (HG : forall k g, In (k, g) (group_by_text L) -> exists h rest, g = h :: rest /\ group_key h = k)
      by (intros k g; apply groups_nonempty with (L := L); exact Hinv).
    split; [|split].
    + unfold recs, export_submitted_texts. fold keep. fold L.
      rewrite export_map_ids by exact HG. exact Hnd.
    + intros r Hr. apply submitted_rows_In in Hr. fold L in Hr.
      assert (Hk : In (group_key r) (map fst (group_by_text L))) by (apply Hkeys; eauto).
      apply in_map_iff in Hk as ([k g] & Hkk & Hin). cbn in Hkk. subst k.
      destruct (HG _ _ Hin) as (h & rest & -> & Hh).
      exists (variant_of store h). split.
      * unfold recs, export_submitted_texts. fold keep. fold L.
        apply list_elem_of_In, list_elem_of_omap. exists (group_key r, h :: rest).
        split; [apply list_elem_of_In; exact Hin|reflexivity].
      * exact Hh.
    + intros rec Hrec. unfold recs, export_submitted_texts in Hrec. fold keep in Hrec. fold L in Hrec.
      destruct (export_members _ _ _ Hrec) as (k & g & h & rest & Hin & -> & ->).
      pose proof (Hgroups _ _ Hin) as Hg. symmetry in Hg.
      assert (Hh : In h (List.filter (fun r0 => group_key r0 =? k) L)) by (rewrite Hg; left; reflexivity).
      apply filter_In in Hh as [HhL Hhk]. apply Z.eqb_eq in Hhk.
      exists h. split; [apply submitted_rows_In; exact HhL|]. split; [reflexivity|].
      intros r' Hr' Htext. apply export_order_latest.
      apply (filter_head_least export_order (fun r0 => group_key r0 =? k) L h rest);
        [apply sort_by_key_sorted|exact Hg|apply submitted_rows_In; exact Hr'|].
      apply Z.eqb_eq. unfold group_key. rewrite Htext. exact Hhk.
  - intros keep. unfold export_single_text. fold keep.
    pose proof (sort_by_key_sorted export_order) as Hsorted.
    unfold choose_variant.
    destruct (submitted_rows w keep) as [|h rest] eqn:EL; cbn.
    + split; [discriminate|]. intros _ r Hr. apply submitted_rows_In in Hr. rewrite EL in Hr. exact Hr.
    + split; [|discriminate]. intros rec Hrec. injection Hrec as <-.
      exists h. split; [apply submitted_rows_In; rewrite EL; left; reflexivity|]. split; [reflexivity|].
      intros r' Hr'. apply export_order_latest. apply sorted_head_least with (rest := rest).
      * rewrite <- EL. unfold submitted_rows. apply Hsorted.
      * rewrite <- EL. apply submitted_rows_In. exact Hr'.
  - intros r a Ha. unfold task_annotations in Ha. apply filter_In in Ha as [_ Ha].
    apply andb_true_iff in Ha as [Ht Hu]. apply Z.eqb_eq in Ht, Hu. auto.
Qed.

(** C10 counterexample. Two submitted tasks on text 1, updated at 5 and
    at 10. The bulk export with [end = 7] emits the variant of the task
    updated at 5, which differs from the variant of the latest task; the
    single-text export takes the latest one. *)
Lemma export_window_drops_latest_task :
  export_submitted_texts export_world export_store [] None (Some 7)
    = [variant_of export_store (1, early_task, export_text)] /\
  variant_of export_store (1, early_task, export_text)
    <> variant_of export_store (2, late_task, export_text) /\
  export_single_text export_world export_store 1 = Some (variant_of export_store (2, late_task, export_text)).
Proof.
  split; [vm_compute; reflexivity|]. split; [|vm_compute; reflexivity].
  intros H. apply (f_equal (fun r => map ed_start (rec_edits r))) in H. vm_compute in H. discriminate.
Qed.


(* ================================================================== *)
(** * Further properties of the code *)

Lemma take_drop_while p l : take_while p l ++ drop_while p l = l.
Proof. induction l as [|c l IH]; cbn; [reflexivity|]. destruct (p c); cbn; [f_equal; exact IH|reflexivity]. Qed.

Lemma drop_while_length p l : (length (drop_while p l) <= length l)%nat.
Proof. induction l as [|c l IH]; cbn; [lia|]. destruct (p c); cbn; lia. Qed.

Lemma drop_while_head p l c r : drop_while p l = c :: r -> p c = false.
Proof.
  induction l as [|x l IH]; cbn; [discriminate|].
  destruct (p x) eqn:E; [exact IH|]. intros [= -> ->]. exact E.
Qed.

Lemma drop_while_idem p l : drop_while p (drop_while p l) = drop_while p l.
Proof.
  destruct (drop_while p l) as [|c r] eqn:E; [reflexivity|].
  cbn. rewrite (drop_while_head _ _ _ _ E). reflexivity.
Qed.

Lemma drop_take_while p l : drop (length (take_while p l)) l = drop_while p l.
Proof. induction l as [|c l IH]; cbn; [reflexivity|]. destruct (p c); cbn; [exact IH|reflexivity]. Qed.

Lemma take_while_all p l : forallb p (take_while p l) = true.
Proof. induction l as [|c l IH]; cbn; [reflexivity|]. destruct (p c) eqn:E; cbn; [rewrite E; exact IH|reflexivity]. Qed.

Lemma filter_drop_while_space l :
  List.filter (fun c => negb (is_space c)) (drop_while is_space l) =
  List.filter (fun c => negb (is_space c)) l.
Proof. induction l as [|c l IH]; cbn; [reflexivity|]. destruct (is_space c) eqn:E; cbn; rewrite ?E; cbn; [exact IH|reflexivity]. Qed.

Lemma filter_all_true {A} (p : A -> bool) l : forallb p l = true -> List.filter p l = l.
Proof. induction l as [|c l IH]; cbn; [reflexivity|]. intros H. apply andb_true_iff in H as [H1 H2]. rewrite H1, IH by exact H2. reflexivity. Qed.

Lemma list_ascii_string_roundtrip l : list_ascii_of_string (string_of_list_ascii l) = l.
Proof. induction l as [|c l IH]; cbn; [reflexivity|]. f_equal; exact IH. Qed.

Lemma split_ws_fuel n m s :
  (length s < n)%nat -> (length s < m)%nat -> split_ws_loop n s = split_ws_loop m s.
Proof.
  revert m s. induction n as [|n IH]; intros m s Hn Hm; [lia|].
  destruct m as [|m]; [lia|]. cbn.
  destruct (drop_while is_space s) as [|c r] eqn:E; [reflexivity|].
  f_equal. apply IH.
  - pose proof (drop_while_length is_space s) as Hl. rewrite E in Hl.
    cbn. rewrite (drop_while_head _ _ _ _ E). cbn. rewrite length_drop. cbn in Hl. lia.
  - pose proof (drop_while_length is_space s) as Hl. rewrite E in Hl.
    cbn. rewrite (drop_while_head _ _ _ _ E). cbn. rewrite length_drop. cbn in Hl. lia.
Qed.

Lemma split_ws_drop n s : split_ws_loop n (drop_while is_space s) = split_ws_loop n s.
Proof. destruct n; [reflexivity|]. cbn [split_ws_loop]. rewrite drop_while_idem. reflexivity. Qed.

Lemma split_ws_loop_spec n s :
  (length s < n)%nat ->
  Forall (fun w => w <> EmptyString /\ no_space w = true) (split_ws_loop n s) /\
  concat (map list_ascii_of_string (split_ws_loop n s)) = List.filter (fun c => negb (is_space c)) s.
Proof.
  revert s. induction n as [|n IH]; intros s Hn; [lia|]. cbn [split_ws_loop].
  rewrite <- filter_drop_while_space.
  destruct (drop_while is_space s) as [|c r] eqn:E; [split; [constructor|reflexivity]|].
  pose proof (drop_while_length is_space s) as Hl. rewrite E in Hl. cbn in Hl.
  pose proof (drop_while_head _ _ _ _ E) as Hc.
  assert (Hlen : (length (drop (length (take_while (fun x => negb (is_space x)) (c :: r))) (c :: r)) < n)%nat)
    by (rewrite length_drop; cbn; rewrite Hc; cbn; lia).
  destruct (IH _ Hlen) as [IHf IHc].
  split.
  - constructor; [|exact IHf]. split.
    + intros Hs. apply (f_equal list_ascii_of_string) in Hs.
      rewrite list_ascii_string_roundtrip in Hs. cbn in Hs. rewrite Hc in Hs. discriminate.
    + unfold no_space. rewrite list_ascii_string_roundtrip. apply take_while_all.
  - cbn [map concat]. rewrite list_ascii_string_roundtrip, IHc.
    rewrite drop_take_while.
    set (p := fun x : ascii => negb (is_space x)).
    transitivity (List.filter p (take_while p (c :: r) ++ drop_while p (c :: r))).
    + rewrite List.filter_app, (filter_all_true p (take_while p (c :: r))) by apply take_while_all.
      reflexivity.
    + rewrite take_drop_while. reflexivity.
Qed.

Lemma edited_loop_spec n s sb :
  (length s < n)%nat ->
  map tok_text (edited_loop n s sb) = split_ws_loop n s /\
  Forall (fun t => tok_kind t = word_or_punct (list_ascii_of_string (tok_text t))) (edited_loop n s sb) /\
  match edited_loop n s sb with
  | [] => True
  | t :: rest => tok_space_before t = (sb || match s with c :: _ => is_space c | [] => false end) /\
                 Forall (fun t => tok_space_before t = true) rest
  end.
Proof.
  revert s sb. induction n as [|n IH]; intros s sb Hn; [lia|].
  destruct s as [|c r]; [cbn; split; [reflexivity|split; [constructor|exact I]]|].
  cbn [edited_loop]. destruct (is_space c) eqn:Ec.
  - assert (Hl : (length (drop_while is_space (c :: r)) <= length r)%nat)
      by (cbn; rewrite Ec; apply drop_while_length).
    cbn in Hn. destruct (IH (drop_while is_space (c :: r)) true ltac:(lia)) as (IHt & IHk & IHs).
    split; [|split; [exact IHk|]].
    + rewrite IHt. rewrite (split_ws_fuel n (S n)) by lia. apply split_ws_drop.
    + destruct (edited_loop n (drop_while is_space (c :: r)) true) as [|t ts]; [exact I|].
      destruct IHs as [Ht Hts]. split; [rewrite Ht; cbn [orb]; rewrite orb_true_r; reflexivity|exact Hts].
  - set (part := take_while (fun x => negb (is_space x)) (c :: r)).
    assert (Hp : part = c :: take_while (fun x => negb (is_space x)) r) by (unfold part; cbn; rewrite Ec; reflexivity).
    set (rest := drop (length part) (c :: r)).
    assert (Hl : (length rest < n)%nat) by (unfold rest; rewrite Hp, length_drop; cbn in *; lia).
    destruct (IH rest false Hl) as (IHt & IHk & IHs).
    split; [|split].
    + assert (Hd : drop_while is_space (c :: r) = c :: r) by (cbn [drop_while]; rewrite Ec; reflexivity).
      cbn [map tok_text]. rewrite IHt. cbn [split_ws_loop]. rewrite Hd. reflexivity.
    + constructor; [cbn; rewrite list_ascii_string_roundtrip; reflexivity|exact IHk].
    + split; [cbn [tok_space_before]; rewrite orb_false_r; reflexivity|].
      destruct (edited_loop n rest false) as [|t ts] eqn:Ee; [constructor|].
      destruct IHs as [Ht Hts]. constructor; [|exact Hts].
      rewrite Ht. cbn [orb].
      unfold rest, part in Ee |- *. rewrite drop_take_while in Ee |- *.
      destruct (drop_while (fun x => negb (is_space x)) (c :: r)) as [|d rr] eqn:Ed.
      * destruct n; cbn in Ee; discriminate.
      * pose proof (drop_while_head _ _ _ _ Ed) as Hd. cbv beta in Hd. apply negb_false_iff in Hd. exact Hd.
Qed.

Lemma list_ascii_app (a b : string) :
  list_ascii_of_string (a ++ b) = list_ascii_of_string a ++ list_ascii_of_string b.
Proof. induction a as [|c a IH]; simpl; [reflexivity|]. f_equal. exact IH. Qed.

Lemma take_while_app_all p w rest :
  forallb p w = true -> match rest with [] => True | c :: _ => p c = false end ->
  take_while p (w ++ rest) = w.
Proof.
  induction w as [|c w IH]; cbn; intros Hw Hr.
  - destruct rest as [|d r]; [reflexivity|]. cbn. rewrite Hr. reflexivity.
  - apply andb_true_iff in Hw as [Hc Hw]. rewrite Hc. f_equal. exact (IH Hw Hr).
Qed.

Lemma split_ws_cons n w rest :
  w <> [] -> forallb (fun c => negb (is_space c)) w = true ->
  match rest with [] => True | c :: _ => is_space c = true end ->
  split_ws_loop (S n) (w ++ rest) = string_of_list_ascii w :: split_ws_loop n rest.
Proof.
  intros Hne Hw Hr. cbn [split_ws_loop].
  destruct w as [|c w']; [congruence|].
  pose proof Hw as Hw'. cbn [forallb] in Hw'. apply andb_true_iff in Hw' as [Hc _].
  assert (Hd : drop_while is_space ((c :: w') ++ rest) = (c :: w') ++ rest)
    by (cbn [app drop_while]; apply negb_true_iff in Hc; rewrite Hc; reflexivity).
  rewrite Hd. cbn [app].
  change (c :: w' ++ rest) with ((c :: w') ++ rest).
  rewrite take_while_app_all; [| exact Hw | destruct rest as [|d r]; [exact I|cbn; rewrite Hr; reflexivity]].
  rewrite drop_app_length. reflexivity.
Qed.

Lemma split_ws_join n ws :
  words_ok ws -> (length (list_ascii_of_string (join_space ws)) < n)%nat ->
  split_ws_loop n (list_ascii_of_string (join_space ws)) = ws.
Proof.
  revert n. induction ws as [|w ws IH]; intros n Hok Hn.
  - destruct n; reflexivity.
  - inversion Hok as [|? ? [Hne Hw] Hok']; subst.
    destruct n as [|n]; [lia|].
    assert (Hne' : list_ascii_of_string w <> []).
    { intros He. apply Hne. rewrite <- (string_of_list_ascii_of_string w), He. reflexivity. }
    destruct ws as [|w2 ws'].
    + cbn [join_space]. rewrite <- (app_nil_r (list_ascii_of_string w)).
      rewrite split_ws_cons; [| exact Hne' | exact Hw | exact I].
      rewrite string_of_list_ascii_of_string. destruct n; reflexivity.
    + change (join_space (w :: w2 :: ws')) with (w ++ " " ++ join_space (w2 :: ws'))%string in Hn |- *.
      rewrite list_ascii_app in Hn |- *.
      change (list_ascii_of_string (" " ++ join_space (w2 :: ws'))%string)
        with (" "%char :: list_ascii_of_string (join_space (w2 :: ws'))) in Hn |- *.
      rewrite split_ws_cons; [| exact Hne' | exact Hw | reflexivity].
      rewrite string_of_list_ascii_of_string. f_equal.
      rewrite <- split_ws_drop.
      change (drop_while is_space (" "%char :: list_ascii_of_string (join_space (w2 :: ws'))))
        with (drop_while is_space (list_ascii_of_string (join_space (w2 :: ws')))).
      rewrite split_ws_drop. apply IH; [exact Hok'|].
      rewrite length_app in Hn. cbn [length] in Hn.
      destruct (list_ascii_of_string w); [congruence|]. cbn [length] in Hn. lia.
Qed.


(** X1. The token snapshot [text.content.split()] consists of non-empty
    pieces without whitespace; concatenated they give the content with its
    whitespace removed. *)
Theorem str_split_pieces text :
  words_ok (str_split text) /\
  concat (map list_ascii_of_string (str_split text)) =
    List.filter (fun c => negb (is_space c)) (list_ascii_of_string text).
Proof. apply split_ws_loop_spec. lia. Qed.

Theorem str_split_join_space ws :
  words_ok ws -> str_split (join_space ws) = ws.
Proof. intros Hok. apply split_ws_join; [exact Hok|lia]. Qed.

(** X2. [_tokenize_edited_text] returns tokens whose texts are [text.split()];
    each kind is punct exactly for punctuation-only texts; the first token
    has [space_before] iff the text starts with whitespace, every later one
    has it set. *)
Theorem tokenize_edited_text_spec text :
  map tok_text (tokenize_edited_text text) = str_split text /\
  Forall (fun t => tok_kind t = word_or_punct (list_ascii_of_string (tok_text t))) (tokenize_edited_text text) /\
  match tokenize_edited_text text with
  | [] => True
  | t :: rest =>
      tok_space_before t = match list_ascii_of_string text with c :: _ => is_space c | [] => false end /\
      Forall (fun t => tok_space_before t = true) rest
  end.
Proof. unfold tokenize_edited_text, str_split. apply edited_loop_spec. lia. Qed.

Lemma round_length st kw : length st = 8%nat -> length (Sha256.round st kw) = 8%nat.
Proof.
  intros H. unfold Sha256.round.
  destruct st as [|a [|b [|c [|d [|e [|f [|g [|h [|i st]]]]]]]]]; cbn in H; try lia.
  destruct kw. reflexivity.
Qed.

Lemma fold_round_length l st : length st = 8%nat -> length (fold_left Sha256.round l st) = 8%nat.
Proof.
  revert st. induction l as [|kw l IH]; intros st H; cbn; [exact H|].
  apply IH, round_length, H.
Qed.

Lemma compress_length hs block : length hs = 8%nat -> length (Sha256.compress hs block) = 8%nat.
Proof.
  intros H. unfold Sha256.compress. rewrite length_map, length_combine.
  rewrite fold_round_length by exact H. lia.
Qed.

Lemma fold_compress_length bs hs : length hs = 8%nat -> length (fold_left Sha256.compress bs hs) = 8%nat.
Proof.
  revert hs. induction bs as [|b bs IH]; intros hs H; cbn; [exact H|].
  apply IH, compress_length, H.
Qed.

Lemma digest_bytes_length msg : length (Sha256.digest_bytes msg) = 8%nat.
Proof. unfold Sha256.digest_bytes. apply fold_compress_length. reflexivity. Qed.

Lemma word_hex_length x : length (Sha256.word_hex x) = 8%nat.
Proof. unfold Sha256.word_hex. rewrite length_map, length_seq. reflexivity. Qed.

Lemma hex_digit_hex n : 0 <= n < 16 -> is_lower_hex (Sha256.hex_digit n) = true.
Proof.
  intros Hn.
  assert (Hall : forallb (fun k => is_lower_hex (Sha256.hex_digit (Z.of_nat k))) (seq 0 16) = true)
    by reflexivity.
  rewrite forallb_forall in Hall. rewrite <- (Z2Nat.id n) by lia.
  apply Hall. apply in_seq. lia.
Qed.

Lemma land_15_range x : 0 <= Z.land x 15 < 16.
Proof.
  change 15 with (Z.ones 4). rewrite Z.land_ones by lia.
  apply Z.mod_pos_bound. lia.
Qed.

Lemma word_hex_hex x : Forall (fun c => is_lower_hex c = true) (Sha256.word_hex x).
Proof.
  unfold Sha256.word_hex. apply List.Forall_forall. intros c Hc.
  apply in_map_iff in Hc as (i & <- & _). apply hex_digit_hex, land_15_range.
Qed.

Lemma hexdigest_shape msg :
  length (list_ascii_of_string (Sha256.hexdigest msg)) = 64%nat /\
  Forall (fun c => is_lower_hex c = true) (list_ascii_of_string (Sha256.hexdigest msg)).
Proof.
  unfold Sha256.hexdigest. rewrite list_ascii_of_string_of_list_ascii.
  pose proof (digest_bytes_length msg) as Hl.
  destruct (Sha256.digest_bytes msg) as [|a [|b [|c [|d [|e [|f [|g [|h [|i r]]]]]]]]];
    cbn in Hl; try lia.
  split.
  - cbn [map concat]. rewrite !length_app, !word_hex_length. reflexivity.
  - cbn [map concat]. rewrite !List.Forall_app. repeat split; try apply word_hex_hex. constructor.
Qed.

(** X3. [_sha256_text] and [_sha256_tokens] always return 64 lowercase
    hexadecimal characters. *)
Theorem sha256_hex_shape text tokens :
  length (list_ascii_of_string (sha256_text text)) = 64%nat /\
  Forall (fun c => is_lower_hex c = true) (list_ascii_of_string (sha256_text text)) /\
  length (list_ascii_of_string (sha256_tokens tokens)) = 64%nat /\
  Forall (fun c => is_lower_hex c = true) (list_ascii_of_string (sha256_tokens tokens)).
Proof.
  destruct (hexdigest_shape (utf8_bytes text)) as [H1 H2].
  destruct (hexdigest_shape (join_bytes tokens)) as [H3 H4].
  unfold sha256_text, sha256_tokens. auto.
Qed.

(** Line breaks. *)
Lemma split_on_length sep l : length (split_on sep l) = S (count_occ ascii_dec l sep).
Proof.
  induction l as [|c l IH]; cbn; [reflexivity|].
  destruct (Ascii.eqb c sep) eqn:E.
  - apply Ascii.eqb_eq in E. subst. destruct (ascii_dec sep sep); [|congruence]. cbn. rewrite IH. reflexivity.
  - destruct (ascii_dec c sep) as [e|_]; [apply Ascii.eqb_neq in E; congruence|].
    destruct (split_on sep l) as [|h t]; cbn in *; lia.
Qed.

Lemma line_breaks_from_length lines count :
  length (line_breaks_from lines count) = (length lines - 1)%nat.
Proof.
  revert count. induction lines as [|l1 [|l2 r] IH]; intros count; [reflexivity|reflexivity|].
  change (length (line_breaks_from (l1 :: l2 :: r) count))
    with (S (length (line_breaks_from (l2 :: r) (count + length (tokenize_to_tokens (string_of_list_ascii l1)))))).
  rewrite IH. cbn. lia.
Qed.

Lemma line_breaks_from_sorted lines count :
  Forall (fun b => (count <= b)%nat) (line_breaks_from lines count) /\
  Sorted le (line_breaks_from lines count).
Proof.
  revert count. induction lines as [|l1 [|l2 r] IH]; intros count;
    [split; constructor|split; constructor|].
  change (line_breaks_from (l1 :: l2 :: r) count)
    with (let c' := (count + length (tokenize_to_tokens (string_of_list_ascii l1)))%nat in
          c' :: line_breaks_from (l2 :: r) c').
  cbv zeta. set (c' := (count + _)%nat).
  destruct (IH c') as [Hf Hs]. split.
  - constructor; [unfold c'; lia|]. eapply List.Forall_impl; [|exact Hf]. cbv beta. unfold c'. lia.
  - constructor; [exact Hs|]. destruct (line_breaks_from (l2 :: r) c') as [|b bs]; constructor.
    inversion Hf; subst. assumption.
Qed.

(** X4. [_compute_line_breaks] returns one entry per newline of the text, in
    non-decreasing order. *)
Theorem compute_line_breaks_shape text :
  length (compute_line_breaks text) = count_occ ascii_dec (list_ascii_of_string text) "010"%char /\
  Sorted le (compute_line_breaks text).
Proof.
  unfold compute_line_breaks. destruct text as [|c t].
  - split; [reflexivity|constructor].
  - split.
    + rewrite line_breaks_from_length, split_on_length. lia.
    + apply line_breaks_from_sorted.
Qed.

Lemma snapshot_loop_shape snapshot src idx cursor :
  map tok_text (snapshot_loop snapshot src idx cursor) = snapshot /\
  map tok_kind (snapshot_loop snapshot src idx cursor) = map snapshot_kind snapshot /\
  (idx = O -> match snapshot_loop snapshot src idx cursor with
              | [] => True | t :: _ => tok_space_before t = false end).
Proof.
  revert idx cursor. induction snapshot as [|w ws IH]; intros idx cursor; cbn [snapshot_loop].
  - split; [reflexivity|split; [reflexivity|intros _; exact I]].
  - split; [cbn [map tok_text]; f_equal; apply IH|].
    split; [cbn [map tok_kind]; f_equal; apply IH|].
    intros ->. reflexivity.
Qed.

Lemma is_prefix_app p l : is_prefix p (p ++ l) = true.
Proof. induction p as [|x p IH]; cbn; [reflexivity|]. rewrite Ascii.eqb_refl, IH. reflexivity. Qed.

Lemma take_while_space_app sp l :
  Forall (fun c => is_space c = true) sp ->
  match l with [] => True | c :: _ => is_space c = false end ->
  take_while is_space (sp ++ l) = sp.
Proof.
  intros Hsp Hl. induction Hsp as [|c sp Hc _ IH]; cbn.
  - destruct l as [|c r]; [reflexivity|]. cbn. rewrite Hl. reflexivity.
  - rewrite Hc, IH. reflexivity.
Qed.

Lemma snapshot_loop_joined ws pre sp idx :
  words_ok ws -> Forall (fun c => is_space c = true) sp ->
  snapshot_loop ws (pre ++ sp ++ list_ascii_of_string (join_space ws)) idx (length pre) =
  spaced_tokens (match idx, sp with O, _ => false | _, [] => false | _, _ => true end) ws.
Proof.
  revert pre sp idx. induction ws as [|w ws IH]; intros pre sp idx Hok Hsp; [reflexivity|].
  inversion Hok as [|? ? [Hne Hw] Hok']; subst.
  set (W := list_ascii_of_string w).
  assert (HW : W <> []).
  { intros He. apply Hne. rewrite <- (string_of_list_ascii_of_string w). fold W. rewrite He. reflexivity. }
  assert (Hw' : forallb (fun c => negb (is_space c)) W = true) by exact Hw.
  assert (Hhead : match W ++ [] with [] => True | c :: _ => is_space c = false end).
  { destruct W as [|c r]; [congruence|]. cbn in Hw'. apply andb_true_iff in Hw' as [Hc _].
    apply negb_true_iff in Hc. exact Hc. }
  (* the remaining text after [w] *)
  set (T := match ws with [] => [] | _ => " "%char :: list_ascii_of_string (join_space ws) end).
  assert (HJ : list_ascii_of_string (join_space (w :: ws)) = W ++ T).
  { unfold T, W. destruct ws as [|w2 ws']; [cbn [join_space]; rewrite app_nil_r; reflexivity|].
    change (join_space (w :: w2 :: ws')) with (w ++ " " ++ join_space (w2 :: ws'))%string.
    rewrite list_ascii_app. reflexivity. }
  rewrite HJ. cbn [snapshot_loop].
  assert (Hsk : skipn (length pre) (pre ++ sp ++ W ++ T) = sp ++ W ++ T) by apply drop_app_length.
  assert (Htw : take_while is_space (sp ++ W ++ T) = sp).
  { apply take_while_space_app; [exact Hsp|].
    destruct W as [|c r]; [congruence|]. exact Hhead. }
  rewrite Hsk, Htw.
  assert (Hfind : str_find W (pre ++ sp ++ W ++ T) (length pre + length sp) = Z.of_nat (length pre + length sp)).
  { unfold str_find.
    assert (Hlt : Nat.ltb (length (pre ++ sp ++ W ++ T)) (length pre + length sp) = false)
      by (apply Nat.ltb_ge; rewrite !length_app; lia).
    rewrite Hlt.
    replace (skipn (length pre + length sp) (pre ++ sp ++ W ++ T)) with (W ++ T)
      by (rewrite app_assoc, <- length_app, drop_app_length; reflexivity).
    destruct (W ++ T) as [|c r] eqn:EWT; [destruct W; cbn in EWT; congruence|].
    cbn [find_at]. rewrite <- EWT, is_prefix_app. reflexivity. }
  fold W. destruct W as [|c r] eqn:EW; [congruence|].
  rewrite <- EW in Hfind |- *.
  rewrite Hfind. rewrite Z.ltb_irrefl.
  assert (Hle : (0 <=? Z.of_nat (length pre + length sp)) = true) by (apply Z.leb_le; lia).
  rewrite Hle. rewrite Nat2Z.id.
  cbn [spaced_tokens]. f_equal.
  - subst T. destruct ws as [|w2 ws']; [reflexivity|].
    replace (pre ++ sp ++ W ++ " "%char :: list_ascii_of_string (join_space (w2 :: ws')))
      with ((pre ++ sp ++ W) ++ [" "%char] ++ list_ascii_of_string (join_space (w2 :: ws')))
      by (rewrite <- !app_assoc; reflexivity).
    replace (length pre + length sp + length W)%nat with (length (pre ++ sp ++ W))
      by (rewrite !length_app; lia).
    rewrite IH; [reflexivity|exact Hok'|repeat constructor].
Qed.

(** X5. [_build_tokens_from_snapshot] returns one token per snapshot entry,
    with that text and its snapshot kind, in order; the first token never
    has [space_before]. *)
Theorem build_tokens_from_snapshot_shape snapshot source_text :
  map tok_text (build_tokens_from_snapshot snapshot source_text) = snapshot /\
  map tok_kind (build_tokens_from_snapshot snapshot source_text) = map snapshot_kind snapshot /\
  match build_tokens_from_snapshot snapshot source_text with
  | [] => True | t :: _ => tok_space_before t = false end.
Proof.
  destruct (snapshot_loop_shape snapshot (list_ascii_of_string source_text) 0 0) as [H1 [H2 H3]].
  unfold build_tokens_from_snapshot. split; [exact H1|split; [exact H2|exact (H3 eq_refl)]].
Qed.

(** X6. When the source is the snapshot words joined by single spaces,
    [_build_tokens_from_snapshot] sets [space_before] on every token but the
    first. *)
Theorem build_tokens_from_snapshot_joined ws :
  words_ok ws ->
  build_tokens_from_snapshot ws (join_space ws) = spaced_tokens false ws.
Proof.
  intros Hok. unfold build_tokens_from_snapshot.
  apply (snapshot_loop_joined ws [] [] 0); [exact Hok|constructor].
Qed.

Lemma drop_while_nil p l : drop_while p l = [] -> forallb p l = true.
Proof.
  induction l as [|c l IH]; cbn; [reflexivity|].
  destruct (p c); cbn; [exact IH|discriminate].
Qed.

Lemma in_punct_cases c :
  in_chars ".,;:!?" c = true ->
  c = "."%char \/ c = ","%char \/ c = ";"%char \/ c = ":"%char \/ c = "!"%char \/ c = "?"%char.
Proof.
  unfold in_chars. cbn [list_ascii_of_string existsb].
  intros H. repeat (apply orb_true_iff in H as [H|H]; [apply Ascii.eqb_eq in H; tauto|]).
  discriminate.
Qed.

Lemma rstrip_nonempty l c :
  In c l -> in_chars ".,;:!?" c = false -> rstrip_trailing_punct l <> [].
Proof.
  intros Hin Hc He. unfold rstrip_trailing_punct in He.
  apply (f_equal (@rev ascii)) in He. rewrite rev_involutive in He. cbn in He.
  apply drop_while_nil in He. rewrite forallb_forall in He.
  rewrite He in Hc; [discriminate|]. apply in_rev. rewrite rev_involutive. exact Hin.
Qed.

Lemma digit_not_punct d : is_digit d = true -> in_chars ".,;:!?" d = false.
Proof.
  intros Hd. destruct (in_chars ".,;:!?" d) eqn:E; [|reflexivity].
  apply in_punct_cases in E. repeat destruct E as [->|E]; try discriminate. subst. discriminate.
Qed.

Lemma match_url_prefix_head pre s raw :
  match_url_prefix pre s = Some raw -> exists r, raw = list_ascii_of_string pre ++ r.
Proof.
  unfold match_url_prefix. destruct (chars_eqb _ _); [|discriminate].
  destruct (take_while url_class _) as [|x r]; [discriminate|]. intros [= <-]. eauto.
Qed.

Lemma match_special_nonpunct s raw :
  match_special s = Some raw -> exists c, In c raw /\ in_chars ".,;:!?" c = false.
Proof.
  unfold match_special.
  destruct (match_phone s) as [m|] eqn:Ep.
  - intros [= <-]. unfold match_phone in Ep.
    destruct s as [|p [|d rest]]; try discriminate.
    destruct (Ascii.eqb p "+"%char && is_digit d) eqn:Eh; [|discriminate].
    apply andb_true_iff in Eh as [_ Hd].
    destruct (longest_prefix_ending_in_digit _); [|discriminate].
    injection Ep as <-. exists d. split; [right; left; reflexivity|apply digit_not_punct, Hd].
  - destruct (match_email s) as [m|] eqn:Ee.
    + intros [= <-]. unfold match_email in Ee.
      destruct (take_while email_local s) as [|x xs]; [discriminate|].
      destruct (drop _ s) as [|at_ rest]; [discriminate|].
      destruct (Ascii.eqb at_ "@"%char) eqn:Ea; [|discriminate].
      apply Ascii.eqb_eq in Ea. subst at_.
      destruct (split_domain _) as [[dd t]|]; [|discriminate].
      injection Ee as <-. exists "@"%char. split; [|reflexivity].
      change (In "@"%char ((x :: xs) ++ "@"%char :: dd ++ "."%char :: t)).
      apply in_or_app. right. left. reflexivity.
    + unfold match_url.
      destruct (match_url_prefix "https://" s) as [m|] eqn:E1.
      * intros [= <-]. apply match_url_prefix_head in E1 as [r ->].
        exists "h"%char. split; [left; reflexivity|reflexivity].
      * destruct (match_url_prefix "http://" s) as [m|] eqn:E2.
        -- intros [= <-]. apply match_url_prefix_head in E2 as [r ->].
           exists "h"%char. split; [left; reflexivity|reflexivity].
        -- intros E3. apply match_url_prefix_head in E3 as [r ->].
           exists "w"%char. split; [left; reflexivity|reflexivity].
Qed.

Lemma take_while_head_nonempty p c r : p c = true -> take_while p (c :: r) <> [].
Proof. intros H. cbn. rewrite H. discriminate. Qed.

Lemma tokenize_loop_shape fuel s emitted :
  Forall (fun t => tok_text t <> EmptyString) (tokenize_loop fuel s emitted) /\
  (emitted = false -> match tokenize_loop fuel s emitted with
                      | [] => True | t :: _ => tok_space_before t = false end).
Proof.
  revert s emitted. induction fuel as [|fuel IH]; intros s emitted; [split; [constructor|intros; exact I]|].
  cbn [tokenize_loop].
  destruct (drop_while is_space s) as [|c r] eqn:Ed; [split; [constructor|intros; exact I]|].
  destruct (match_special (c :: r)) as [raw|] eqn:Em.
  - destruct (rstrip_trailing_punct raw) as [|v vs] eqn:Ev.
    + apply IH.
    + split.
      * constructor; [|apply IH].
        intros He. apply (f_equal list_ascii_of_string) in He. cbn [tok_text] in He.
        rewrite list_ascii_string_roundtrip in He. discriminate.
      * intros ->. reflexivity.
  - set (value := if is_word c then take_while is_word (c :: r) else [c]).
    assert (Hv : value <> []).
    { unfold value. destruct (is_word c) eqn:Ew; [apply take_while_head_nonempty, Ew|discriminate]. }
    split.
    + constructor; [|apply IH].
      intros He. apply (f_equal list_ascii_of_string) in He. cbn [tok_text] in He.
      rewrite list_ascii_string_roundtrip in He. exact (Hv He).
    + intros ->. reflexivity.
Qed.

Lemma tokenize_loop_nil fuel s emitted :
  (0 < fuel)%nat ->
  tokenize_loop fuel s emitted = [] <-> forallb is_space s = true.
Proof.
  intros Hf. destruct fuel as [|fuel]; [lia|]. cbn [tokenize_loop].
  split.
  - destruct (drop_while is_space s) as [|c r] eqn:Ed; [intros _; apply drop_while_nil, Ed|].
    destruct (match_special (c :: r)) as [raw|] eqn:Em; [|discriminate].
    destruct (match_special_nonpunct _ _ Em) as [x [Hx Hp]].
    pose proof (rstrip_nonempty _ _ Hx Hp) as Hne.
    destruct (rstrip_trailing_punct raw); [congruence|discriminate].
  - intros Hs. assert (Hd : drop_while is_space s = []).
    { clear Hf. induction s as [|c s IHs]; [reflexivity|]. cbn in Hs |- *.
      apply andb_true_iff in Hs as [-> Hs]. exact (IHs Hs). }
    rewrite Hd. reflexivity.
Qed.

(** X7. [_tokenize_to_tokens] never returns an empty token text, its first
    token never has [space_before], and it returns no token exactly when the
    text is empty or all whitespace. *)
Theorem tokenize_to_tokens_shape text :
  Forall (fun t => tok_text t <> EmptyString) (tokenize_to_tokens text) /\
  match tokenize_to_tokens text with [] => True | t :: _ => tok_space_before t = false end /\
  (tokenize_to_tokens text = [] <-> forallb is_space (list_ascii_of_string text) = true).
Proof.
  unfold tokenize_to_tokens.
  destruct (tokenize_loop_shape (S (length (list_ascii_of_string text))) (list_ascii_of_string text) false) as [H1 H2].
  split; [exact H1|split; [exact (H2 eq_refl)|apply tokenize_loop_nil; lia]].
Qed.

Lemma set_first_space_texts moved b : map tok_text (set_first_space moved b) = map tok_text moved.
Proof. destruct moved; reflexivity. Qed.

Lemma insert_at_perm {A} (l xs : list A) a : Permutation (insert_at l a xs) (xs ++ l).
Proof.
  unfold insert_at. rewrite app_assoc, (Permutation_app_comm (firstn (Z.to_nat a) l) xs).
  rewrite <- app_assoc, firstn_skipn. reflexivity.
Qed.

Lemma slice_del_perm {A} (l : list A) a b :
  0 <= a -> a < b -> Permutation (slice l a b ++ del_slice l a b) l.
Proof.
  intros Ha Hab. unfold slice, del_slice.
  replace (Nat.max (Z.to_nat a) (Z.to_nat b)) with (Z.to_nat b) by lia.
  rewrite app_assoc, (Permutation_app_comm (firstn _ (skipn _ l)) (firstn (Z.to_nat a) l)).
  rewrite <- app_assoc.
  replace (Z.to_nat b) with (Z.to_nat b - Z.to_nat a + Z.to_nat a)%nat at 2 by lia.
  rewrite <- skipn_skipn, firstn_skipn, firstn_skipn. reflexivity.
Qed.

Lemma clamp_index_nonneg {A} (w : list A) i : 0 <= clamp_index w i.
Proof. unfold clamp_index. lia. Qed.

Lemma apply_move_perm working deltas ann :
  Permutation (map tok_text (apply_move working deltas ann)) (map tok_text working).
Proof.
  unfold apply_move. cbv zeta.
  set (a := clamp_index working _).
  set (b := Z.max a _).
  set (moved := slice working a (b + 1)).
  set (w1 := del_slice working a (b + 1)).
  set (ins := clamp_index w1 _).
  rewrite insert_at_perm, map_app, set_first_space_texts, <- map_app.
  apply Permutation_map. unfold moved, w1. apply slice_del_perm.
  - apply clamp_index_nonneg.
  - unfold b. lia.
Qed.

Lemma apply_loop_moves_perm anns working deltas :
  Forall move_or_noop anns ->
  Permutation (map tok_text (apply_loop anns working deltas)) (map tok_text working).
Proof.
  intros H. revert working. induction H as [|a l Ha _ IH]; intros working; cbn [apply_loop]; [reflexivity|].
  destruct Ha as [Hm|Hn].
  - rewrite Hm. cbn. rewrite IH. apply apply_move_perm.
  - rewrite Hn. cbn. apply IH.
Qed.

(** X8. With only move and noop annotations, [_apply_annotations] returns a
    permutation of the input token texts. *)
Theorem apply_annotations_moves_permute tokens annotations :
  Forall move_or_noop annotations ->
  Permutation (map tok_text (apply_annotations tokens annotations)) (map tok_text tokens).
Proof.
  intros H. unfold apply_annotations. apply apply_loop_moves_perm.
  apply sort_by_key_Forall, H.
Qed.

(** Fragments. *)
Lemma fragment_tokens_texts i f d :
  map tok_text (fragment_tokens i f d) = str_split (frag_text f).
Proof.
  unfold fragment_tokens. destruct (frag_text f) as [|c s] eqn:Ef; [reflexivity|].
  rewrite <- Ef. destruct (tokenize_edited_text_spec (frag_text f)) as [Ht _].
  destruct (tokenize_edited_text (frag_text f)) as [|t r]; [exact Ht|].
  exact Ht.
Qed.

Lemma fragments_loop_texts frags i d :
  map tok_text (fragments_loop frags i d) = concat (map (fun f => str_split (frag_text f)) frags).
Proof.
  revert i. induction frags as [|f frags IH]; intros i; [reflexivity|].
  cbn [fragments_loop map concat]. rewrite map_app, fragment_tokens_texts, IH. reflexivity.
Qed.

(** X9. [_build_tokens_from_fragments] yields the split of the fallback text
    when there are no fragments, else the splits of the fragment texts in
    order. *)
Theorem build_tokens_from_fragments_texts fragments fallback_text d :
  map tok_text (build_tokens_from_fragments fragments fallback_text d) =
  match fragments with
  | [] => str_split fallback_text
  | _ => concat (map (fun f => str_split (frag_text f)) fragments)
  end.
Proof.
  unfold build_tokens_from_fragments. rewrite fragments_loop_texts.
  destruct fragments as [|f fs]; [|reflexivity].
  destruct fallback_text as [|c s]; [reflexivity|]. cbn [map concat]. rewrite app_nil_r. reflexivity.
Qed.

(** A single edit. *)
(** X10. One replace, delete or insert annotation without before/after tokens
    and with an in-range span replaces tokens [start..end] (inserts at
    [start]) by the split of its replacement (nothing for a delete). *)
Theorem apply_single_edit tokens ann :
  let op := normalize_operation ann in
  op <> "noop"%string -> op <> "move"%string ->
  p_before_tokens (ann_payload ann) = [] -> p_after_tokens (ann_payload ann) = [] ->
  0 <= ann_start ann ->
  (if String.eqb op "insert" then ann_start ann <= zlen tokens
   else ann_start ann <= ann_end ann < zlen tokens) ->
  map tok_text (apply_annotations tokens [ann]) =
    map tok_text (firstn (Z.to_nat (ann_start ann)) tokens) ++
    (if String.eqb op "delete" then []
     else str_split (match ann_replacement ann with Some r => r | None => EmptyString end)) ++
    map tok_text (skipn (if String.eqb op "insert" then Z.to_nat (ann_start ann)
                         else Z.to_nat (ann_end ann + 1)) tokens).
Proof.
  intros op Hnoop Hmove Hb Ha Hs Hrange.
  unfold apply_annotations. cbn [sort_by_key fold_right insert_by_key apply_loop].
  fold op. apply String.eqb_neq in Hnoop, Hmove. rewrite Hnoop, Hmove.
  unfold apply_edit. cbv zeta. rewrite Hb, Ha.
  assert (Hoff : offset_at [] (ann_start ann) = 0) by reflexivity. rewrite Hoff, Z.add_0_r.
  assert (Hcl : clamp_index tokens (ann_start ann) = ann_start ann).
  { unfold clamp_index. destruct (String.eqb op "insert"); lia. }
  rewrite Hcl. cbn [apply_loop]. rewrite !map_app.
  apply (f_equal2 (@app string)); [reflexivity|]. apply (f_equal2 (@app string)).
  - destruct (String.eqb op "delete"); [reflexivity|].
    rewrite build_tokens_from_fragments_texts. reflexivity.
  - f_equal. f_equal.
    destruct (String.eqb op "insert") eqn:Ei.
    + destruct (zlen tokens <? ann_start ann + 0) eqn:E; [apply Z.ltb_lt in E; lia|]. f_equal. lia.
    + replace (Z.max 0 ((if ann_end ann =? 0 then ann_start ann else ann_end ann) - ann_start ann + 1))
        with (ann_end ann - ann_start ann + 1)
        by (destruct (ann_end ann =? 0) eqn:E0; [apply Z.eqb_eq in E0; lia|lia]).
      destruct (zlen tokens <? ann_start ann + (ann_end ann - ann_start ann + 1)) eqn:E;
        [apply Z.ltb_lt in E; lia|]. f_equal. lia.
Qed.

Lemma release_expired_idem now t :
  release_expired now (release_expired now t) = release_expired now t.
Proof.
  unfold release_expired. destruct (tx_locked_at t) as [a|] eqn:E; [|rewrite E; reflexivity].
  destruct (a <? now - LOCK_DURATION) eqn:Ea; [reflexivity|]. rewrite E, Ea. reflexivity.
Qed.

(** X11. The lock sweep of [get_next_text] releases exactly the locks older
    than [LOCK_DURATION], changes nothing else, and is idempotent. *)
Theorem sweep_locks_spec now w tid :
  match w_texts w !! tid, w_texts (sweep_locks now w) !! tid with
  | Some t, Some t' =>
      tx_content t' = tx_content t /\ tx_category t' = tx_category t /\
      tx_required t' = tx_required t /\ tx_state t' = tx_state t /\
      ((exists a, tx_locked_at t = Some a /\ a < now - LOCK_DURATION /\
                  tx_locked_by t' = None /\ tx_locked_at t' = None) \/
       (t' = t /\ forall a, tx_locked_at t = Some a -> now - LOCK_DURATION <= a))
  | None, None => True
  | _, _ => False
  end /\
  sweep_locks now (sweep_locks now w) = sweep_locks now w.
Proof.
  split.
  - cbn [sweep_locks with_texts w_texts]. rewrite lookup_fmap.
    destruct (w_texts w !! tid) as [t|]; cbn [fmap option_fmap option_map]; [|exact I].
    unfold release_expired. destruct (tx_locked_at t) as [a|] eqn:E.
    + destruct (a <? now - LOCK_DURATION) eqn:Ea.
      * apply Z.ltb_lt in Ea. cbn. repeat split; auto. left. exists a. auto.
      * apply Z.ltb_ge in Ea. repeat split; auto. right. split; [reflexivity|]. congruence.
    + repeat split; auto. right. split; [reflexivity|]. congruence.
  - unfold sweep_locks, with_texts. cbn [w_categories w_texts w_next_text w_tasks w_next_task w_skipped w_cvr].
    f_equal. rewrite <- map_fmap_compose. apply map_fmap_ext. intros i t _. apply release_expired_idem.
Qed.

Lemma find_none_existsb {A} (p : A -> bool) l : find p l = None -> existsb p l = false.
Proof.
  induction l as [|x l IH]; cbn; [reflexivity|]. destruct (p x); [discriminate|exact IH].
Qed.

Lemma find_task_has_task w tid u : has_task w u tid = false -> find_task w tid u = None.
Proof.
  unfold has_task, find_task. intros H. destruct (find _ (task_rows w)) as [x|] eqn:E; [|reflexivity].
  apply find_some in E as [Hin Hp]. exfalso.
  assert (existsb (fun it : Z * AnnotationTask => (tk_text it.2 =? tid) && (tk_annotator it.2 =? u)) (task_rows w) = true)
    by (apply existsb_exists; eauto). congruence.
Qed.

Lemma sweep_lookup now w tid t1 :
  w_texts (sweep_locks now w) !! tid = Some t1 ->
  exists t0, w_texts w !! tid = Some t0 /\ t1 = release_expired now t0.
Proof.
  cbn [sweep_locks with_texts w_texts]. rewrite lookup_fmap.
  destruct (w_texts w !! tid) as [t0|]; cbn; [|discriminate]. intros [= <-]. eauto.
Qed.

Lemma release_expired_fields now t :
  tx_content (release_expired now t) = tx_content t /\ tx_category (release_expired now t) = tx_category t /\
  tx_required (release_expired now t) = tx_required t /\ tx_state (release_expired now t) = tx_state t.
Proof.
  unfold release_expired. destruct (tx_locked_at t); [destruct (_ <? _)|]; repeat split.
Qed.

(** X12. A successful [get_next_text] returns an open, unfinished text of the
    requested category not skipped by the caller, now locked by the caller
    in state in_annotation, with an in_progress task of the caller; the other
    texts are as after the lock sweep. *)
Theorem get_next_text_post w u cat now tid w' :
  get_next_text w u cat now = ok (tid, w') ->
  cat ∈ w_categories w /\
  (exists t, w_texts w !! tid = Some t /\ tx_category t = cat /\ open_state (tx_state t) = true /\
     exists t', w_texts w' !! tid = Some t' /\ tx_content t' = tx_content t /\
       tx_locked_by t' = Some u /\ tx_locked_at t' = Some now /\ tx_state t' = "in_annotation"%string) /\
  (exists i tk, w_tasks w' !! i = Some tk /\ tk_text tk = tid /\ tk_annotator tk = u /\
     tk_status tk = "in_progress"%string) /\
  skipped_by w u tid = false /\ terminal_text w tid = false /\
  (forall j, j <> tid -> w_texts w' !! j = w_texts (sweep_locks now w) !! j).
Proof.
  unfold get_next_text. destruct (bool_decide (cat ∈ w_categories w)) eqn:Ec; [|discriminate].
  apply bool_decide_eq_true in Ec.
  set (w1 := sweep_locks now w).
  destruct (existing_task_row w1 u cat) as [[i tk]|] eqn:Ee.
  - unfold existing_task_row in Ee. apply head_sort_filter in Ee as [Hp Hin].
    cbn [snd] in Hp.
    destruct (w_texts w1 !! tk_text tk) as [t1|] eqn:Et; [|discriminate].
    apply andb_true_iff in Hp as [Hp1 Hp2].
    apply andb_true_iff in Hp1 as [Hu Hnterm].
    apply andb_true_iff in Hp2 as [Hp2 Hnt]. apply andb_true_iff in Hp2 as [Hp2 Hns].
    apply andb_true_iff in Hp2 as [Hcat Hopen].
    apply Z.eqb_eq in Hu, Hcat. apply negb_true_iff in Hnt, Hns.
    intros [= <- <-].
    destruct (sweep_lookup _ _ _ _ Et) as (t0 & Ht0 & ->).
    destruct (release_expired_fields now t0) as (Hc1 & Hc2 & Hc3 & Hc4).
    split; [exact Ec|]. split; [|split; [|split; [exact Hns|split; [exact Hnt|]]]].
    + exists t0. split; [exact Ht0|]. split; [congruence|]. split; [congruence|].
      eexists. split; [cbn; rewrite lookup_insert_eq; reflexivity|].
      cbn. auto.
    + exists i. eexists. split; [cbn; rewrite lookup_insert_eq; reflexivity|].
      destruct (String.eqb (tk_status tk) "in_progress") eqn:Es.
      * apply String.eqb_eq in Es. auto.
      * cbn. auto.
    + intros j Hj. cbn. rewrite lookup_insert_ne by congruence. reflexivity.
  - destruct (first_text w1 u cat) as [[tid1 t1]|] eqn:Ef; [|discriminate].
    unfold first_text, text_candidates in Ef. apply head_sort_filter in Ef as [Hp Hin].
    apply list_elem_of_In, elem_of_map_to_list in Hin.
    destruct (sweep_lookup _ _ _ _ Hin) as (t0 & Ht0 & ->).
    destruct (release_expired_fields now t0) as (Hc1 & Hc2 & Hc3 & Hc4).
    repeat (apply andb_true_iff in Hp as [Hp ?]).
    match goal with H : (tx_category _ =? cat) = true |- _ => apply Z.eqb_eq in H end.
    assert (Hft : find_task (with_texts w1 (<[tid1:=lock_for (release_expired now t0) u now]> (w_texts w1))) tid1 u = None)
      by (apply find_task_has_task; apply negb_true_iff; assumption).
    rewrite Hft. intros [= <- <-].
    split; [exact Ec|]. split; [|split; [|split; [apply negb_true_iff; assumption|split; [apply negb_true_iff; assumption|]]]].
    + exists t0. split; [exact Ht0|]. split; [congruence|]. split; [congruence|].
      eexists. split; [cbn; rewrite lookup_insert_eq; reflexivity|]. cbn. auto.
    + exists (w_next_task w1). eexists. split; [cbn; rewrite lookup_insert_eq; reflexivity|]. cbn. auto.
    + intros j Hj. cbn. rewrite lookup_insert_ne by congruence. reflexivity.
Qed.

Lemma submitted_count_tasks w w' tid : w_tasks w' = w_tasks w -> submitted_count w' tid = submitted_count w tid.
Proof. intros H. unfold submitted_count, task_rows. rewrite H. reflexivity. Qed.

Lemma skipped_by_filter l u tid :
  existsb (fun s => (sk_text s =? tid) && (sk_annotator s =? u))
    (List.filter (fun s => negb ((sk_text s =? tid) && (sk_annotator s =? u))) l) = false.
Proof.
  induction l as [|s l IH]; cbn; [reflexivity|].
  destruct ((sk_text s =? tid) && (sk_annotator s =? u)) eqn:E; cbn; [exact IH|].
  rewrite E. exact IH.
Qed.

(** X13. After a successful submit the caller has a submitted task stamped
    [now]; the text is unlocked and awaiting_cross_validation if the
    submitted count reached the required count, else pending; the caller's
    flags on the text are gone; other texts and rows are kept. *)
Theorem submit_annotations_post w u tid now w' :
  submit_annotations w u tid now = ok w' ->
  (exists i tk, w_tasks w' !! i = Some tk /\ tk_text tk = tid /\ tk_annotator tk = u /\
     tk_status tk = "submitted"%string /\ tk_updated_at tk = now) /\
  (exists t t', w_texts w !! tid = Some t /\ w_texts w' !! tid = Some t' /\
     tx_content t' = tx_content t /\ tx_locked_by t' = None /\ tx_locked_at t' = None /\
     tx_state t' = (if tx_required t <=? Z.of_nat (submitted_count w' tid)
                    then "awaiting_cross_validation"%string else "pending"%string)) /\
  skipped_by w' u tid = false /\
  (forall j, j <> tid -> w_texts w' !! j = w_texts w !! j) /\
  (forall s, In s (w_skipped w) -> ~ (sk_text s = tid /\ sk_annotator s = u) -> In s (w_skipped w')).
Proof.
  unfold submit_annotations. destruct (w_texts w !! tid) as [t|] eqn:Et; [|discriminate].
  set (w1 := match find_task w tid u with
             | Some (i, tk) => _ | None => _ end).
  set (w2 := with_skipped w1 _).
  assert (Htasks1 : exists i tk, w_tasks w1 !! i = Some tk /\ tk_text tk = tid /\ tk_annotator tk = u /\
     tk_status tk = "submitted"%string /\ tk_updated_at tk = now).
  { unfold w1. destruct (find_task w tid u) as [[i tk]|] eqn:Ef.
    - destruct (find_task_spec _ _ _ _ _ Ef) as (_ & Ht & Hu).
      exists i. eexists. split; [cbn; apply lookup_insert_eq|]. cbn. auto.
    - exists (w_next_task w). eexists. split; [cbn; apply lookup_insert_eq|]. cbn. auto. }
  assert (Hw1t : w_texts w1 = w_texts w) by (unfold w1; destruct (find_task w tid u) as [[? ?]|]; reflexivity).
  assert (Hw1s : w_skipped w1 = w_skipped w) by (unfold w1; destruct (find_task w tid u) as [[? ?]|]; reflexivity).
  assert (Hskip : forall s, In s (w_skipped w) -> ~ (sk_text s = tid /\ sk_annotator s = u) -> In s (w_skipped w2)).
  { intros s Hs Hn. cbn. rewrite Hw1s. apply filter_In. split; [exact Hs|].
    apply negb_true_iff. apply not_true_iff_false. intros Hb.
    apply andb_true_iff in Hb as [H1 H2]. apply Z.eqb_eq in H1, H2. tauto. }
  assert (Hsb : skipped_by w2 u tid = false)
    by (unfold skipped_by; cbn [w2 with_skipped w_skipped]; apply skipped_by_filter).
  destruct (tx_required (set_lock t None None) <=? Z.of_nat (submitted_count w2 tid)) eqn:Ereq;
    intros [= <-].
  - split; [|split; [|split; [|split]]].
    + rewrite queue_cross_validation_tasks. exact Htasks1.
    + exists t. eexists. split; [reflexivity|]. rewrite queue_cross_validation_texts. cbn [with_texts w_texts].
      split; [apply lookup_insert_eq|]. rewrite (submitted_count_tasks w2 _ tid) by (rewrite ?queue_cross_validation_tasks; reflexivity). change (tx_required (set_lock t None None)) with (tx_required t) in Ereq. rewrite Ereq. cbn. auto.
    + unfold queue_cross_validation. destruct (w_cvr _ !! tid); exact Hsb.
    + intros j Hj. rewrite queue_cross_validation_texts. cbn [with_texts w_texts].
      rewrite lookup_insert_ne by congruence. cbn [w2 with_skipped w_texts]. rewrite Hw1t. reflexivity.
    + intros s Hs Hn. unfold queue_cross_validation. destruct (w_cvr _ !! tid); exact (Hskip s Hs Hn).
  -     split; [|split; [|split; [|split]]].
    + exact Htasks1.
    + exists t. eexists. split; [reflexivity|]. cbn [with_texts w_texts].
      split; [apply lookup_insert_eq|]. rewrite (submitted_count_tasks w2 _ tid) by reflexivity. change (tx_required (set_lock t None None)) with (tx_required t) in Ereq. rewrite Ereq. cbn. auto.
    + exact Hsb.
    + intros j Hj. cbn [with_texts w_texts].
      rewrite lookup_insert_ne by congruence. cbn [w2 with_skipped w_texts]. rewrite Hw1t. reflexivity.
    + exact Hskip.
Qed.

Lemma skipped_row_eq s tid u f :
  (sk_text s =? tid) && (sk_annotator s =? u) && flag_eqb (sk_flag s) f = true -> s = mkSkipped tid u f.
Proof.
  destruct s as [a b g]. cbn. intros H.
  apply andb_true_iff in H as [H Hf]. apply andb_true_iff in H as [Ha Hb].
  apply Z.eqb_eq in Ha, Hb. subst. destruct g, f; cbn in Hf; congruence.
Qed.

Lemma flag_keep_mine l tid u f :
  Forall (fun s => s = mkSkipped tid u f)
    (List.filter (mine_on u tid)
       (List.filter (fun s => negb ((sk_text s =? tid) && (sk_annotator s =? u) && negb (flag_eqb (sk_flag s) f))) l)).
Proof.
  induction l as [|s l IH]; cbn; [constructor|].
  unfold mine_on.
  destruct ((sk_text s =? tid) && (sk_annotator s =? u)) eqn:Em; cbn.
  - destruct (flag_eqb (sk_flag s) f) eqn:Ef; cbn.
    + rewrite Em. cbn. constructor; [apply skipped_row_eq; rewrite Em, Ef; reflexivity|exact IH].
    + exact IH.
  - rewrite Em. exact IH.
Qed.

Lemma flag_keep_others l tid u f :
  List.filter (fun s => negb (mine_on u tid s))
    (List.filter (fun s => negb ((sk_text s =? tid) && (sk_annotator s =? u) && negb (flag_eqb (sk_flag s) f))) l) =
  List.filter (fun s => negb (mine_on u tid s)) l.
Proof.
  induction l as [|s l IH]; cbn; [reflexivity|].
  unfold mine_on.
  destruct ((sk_text s =? tid) && (sk_annotator s =? u)) eqn:Em; cbn.
  - destruct (flag_eqb (sk_flag s) f); cbn; [rewrite Em; cbn; exact IH|exact IH].
  - rewrite Em. cbn. f_equal. exact IH.
Qed.

Lemma existsb_filter_mine l tid u f :
  existsb (fun s => (sk_text s =? tid) && (sk_annotator s =? u) && flag_eqb (sk_flag s) f) l = true ->
  List.filter (mine_on u tid) l <> [].
Proof.
  induction l as [|s l IH]; cbn; [discriminate|].
  unfold mine_on. destruct ((sk_text s =? tid) && (sk_annotator s =? u)); cbn; [discriminate|exact IH].
Qed.

(** X14. After a successful [_flag_text] the text is unlocked in state trash
    or skipped; the caller's rows on it are exactly [(tid, u, f)]; other rows,
    other texts and the task counter are unchanged; the caller's task takes
    the flag as status. *)
Theorem flag_text_post w u tid f now w' :
  flag_text w u tid f now = ok w' ->
  (exists t t', w_texts w !! tid = Some t /\ w_texts w' !! tid = Some t' /\
     tx_content t' = tx_content t /\ tx_locked_by t' = None /\ tx_locked_at t' = None /\
     tx_state t' = match f with FlagTrash => "trash"%string | FlagSkip => "skipped"%string end) /\
  (forall j, j <> tid -> w_texts w' !! j = w_texts w !! j) /\
  List.filter (mine_on u tid) (w_skipped w') <> [] /\
  Forall (fun s => s = mkSkipped tid u f) (List.filter (mine_on u tid) (w_skipped w')) /\
  List.filter (fun s => negb (mine_on u tid s)) (w_skipped w') =
    List.filter (fun s => negb (mine_on u tid s)) (w_skipped w) /\
  w_tasks w' = match find_task w tid u with
               | Some (i, tk) => <[i := set_status tk (flag_str f) now]> (w_tasks w)
               | None => w_tasks w
               end /\
  w_next_task w' = w_next_task w.
Proof.
  unfold flag_text. destruct (w_texts w !! tid) as [t|] eqn:Et; [|discriminate].
  intros [= <-]. cbn [w_texts w_skipped w_tasks w_next_task].
  set (sk0 := List.filter _ (w_skipped w)).
  split; [|split; [|split; [|split; [|split; [|split]]]]].
  - exists t. eexists. split; [reflexivity|]. split; [apply lookup_insert_eq|].
    destruct (tx_locked_by t) as [v|]; [destruct (v =? u)|]; cbn; auto.
  - intros j Hj. apply lookup_insert_ne. congruence.
  - destruct (existsb _ sk0) eqn:Ex.
    + apply existsb_filter_mine in Ex. exact Ex.
    + rewrite List.filter_app. cbn. unfold mine_on. rewrite !Z.eqb_refl. cbn.
      intros He; apply app_eq_nil in He as [_ He]; discriminate.
  - destruct (existsb _ sk0) eqn:Ex.
    + apply flag_keep_mine.
    + rewrite List.filter_app. apply List.Forall_app. split; [apply flag_keep_mine|].
      cbn. unfold mine_on. rewrite !Z.eqb_refl. cbn. repeat constructor.
  - destruct (existsb _ sk0) eqn:Ex.
    + apply flag_keep_others.
    + rewrite List.filter_app. cbn. unfold mine_on. rewrite !Z.eqb_refl. cbn.
      rewrite app_nil_r. apply flag_keep_others.
  - reflexivity.
  - reflexivity.
Qed.

(** X15. Once an annotator who holds a task on a text flags it, no later
    sequence of requests makes [get_next_text] return that text. *)
Theorem flag_text_blocks_text w u tid f now w' i tk w'' u2 cat now2 tid2 w3 :
  tasks_fresh w -> find_task w tid u = Some (i, tk) ->
  flag_text w u tid f now = ok w' -> rtc step w' w'' ->
  get_next_text w'' u2 cat now2 = ok (tid2, w3) -> tid2 <> tid.
Proof.
  intros Hf Hft Hflag Hrtc Hget.
  destruct (flag_text_post _ _ _ _ _ _ Hflag) as (_ & _ & _ & _ & _ & Htasks & Hnext).
  rewrite Hft in Htasks.
  destruct (find_task_spec _ _ _ _ _ Hft) as (Hi & Htid & _).
  assert (Hinv : inv7 tid w').
  { split.
    - intros j Hj. rewrite Hnext. rewrite Htasks in Hj.
      destruct (decide (i = j)) as [<-|Hne]; [exact (Hf i (mk_is_Some _ _ Hi))|].
      rewrite lookup_insert_ne in Hj by exact Hne. exact (Hf j Hj).
    - exists i, (set_status tk (flag_str f) now). rewrite Htasks, lookup_insert_eq.
      split; [reflexivity|]. split; [exact Htid|]. destruct f; reflexivity. }
  destruct (rtc_inv7 _ _ _ Hrtc Hinv) as [Hf'' Ht''].
  exact (proj2 (proj2 (get_next_inv7 _ _ _ _ _ _ _ Hget Hf'' Ht''))).
Qed.

Lemma skipped_row_iff s tid u f :
  (sk_text s =? tid) && (sk_annotator s =? u) && flag_eqb (sk_flag s) f = true <-> s = mkSkipped tid u f.
Proof.
  split; [apply skipped_row_eq|]. intros ->. cbn. rewrite !Z.eqb_refl. destruct f; reflexivity.
Qed.

(** X16. [_clear_flag] removes exactly the row [(tid, u, f)], leaves tasks and
    other texts alone, and, when the row existed, sets the text to pending
    for a trash flag, and for a skip flag only if it was the only skip row on
    the text. *)
Theorem clear_flag_post w u tid f :
  (forall s, In s (w_skipped (clear_flag w u tid f)) <-> In s (w_skipped w) /\ s <> mkSkipped tid u f) /\
  (forall j, j <> tid -> w_texts (clear_flag w u tid f) !! j = w_texts w !! j) /\
  (forall t, w_texts w !! tid = Some t -> In (mkSkipped tid u f) (w_skipped w) ->
     exists t', w_texts (clear_flag w u tid f) !! tid = Some t' /\
       tx_content t' = tx_content t /\ tx_locked_by t' = tx_locked_by t /\ tx_locked_at t' = tx_locked_at t /\
       tx_state t' = match f with
                     | FlagTrash => "pending"%string
                     | FlagSkip =>
                         if Nat.eqb (length (List.filter (fun s => (sk_text s =? tid) && flag_eqb (sk_flag s) FlagSkip)
                                               (w_skipped w))) 1
                         then "pending"%string else tx_state t
                     end) /\
  w_tasks (clear_flag w u tid f) = w_tasks w.
Proof.
  unfold clear_flag.
  destruct (existsb _ (w_skipped w)) eqn:Ex.
  - split; [|split; [|split]].
    + intros s. cbn [w_skipped]. rewrite filter_In, negb_true_iff, <- not_true_iff_false, skipped_row_iff.
      reflexivity.
    + intros j Hj. cbn [w_texts]. destruct (w_texts w !! tid) as [t|]; [|reflexivity].
      destruct f; [destruct (Nat.eqb _ 1)|]; try reflexivity; apply lookup_insert_ne; congruence.
    + intros t Ht _. cbn [w_texts]. rewrite Ht.
      destruct f; [destruct (Nat.eqb _ 1) eqn:E1|].
      * eexists. split; [apply lookup_insert_eq|]. cbn. rewrite ?E1. auto.
      * eexists. split; [exact Ht|]. rewrite ?E1. auto.
      * eexists. split; [apply lookup_insert_eq|]. cbn. auto.
    + reflexivity.
  - split; [|split; [|split]].
    + intros s. split; [|tauto]. intros Hs. split; [exact Hs|]. intros ->.
      assert (existsb (fun s => (sk_text s =? tid) && (sk_annotator s =? u) && flag_eqb (sk_flag s) f)
                (w_skipped w) = true) by (apply existsb_exists; eexists; split; [exact Hs|apply skipped_row_iff; reflexivity]).
      congruence.
    + reflexivity.
    + intros t Ht Hin. exfalso.
      assert (existsb (fun s => (sk_text s =? tid) && (sk_annotator s =? u) && flag_eqb (sk_flag s) f)
                (w_skipped w) = true) by (apply existsb_exists; eexists; split; [exact Hin|apply skipped_row_iff; reflexivity]).
      congruence.
    + reflexivity.
Qed.

(** Export record. *)
Lemma insert_by_key_perm {A} (key : A -> key4) x l : Permutation (insert_by_key key x l) (x :: l).
Proof.
  induction l as [|y l IH]; cbn; [reflexivity|].
  destruct (key4_leb (key x) (key y)); [reflexivity|].
  rewrite IH. apply perm_swap.
Qed.

Lemma sort_by_key_perm {A} (key : A -> key4) l : Permutation (sort_by_key key l) l.
Proof.
  induction l as [|x l IH]; cbn; [reflexivity|].
  rewrite insert_by_key_perm. apply perm_skip. exact IH.
Qed.

Lemma StronglySorted_map {A B} (R : A -> A -> Prop) (R' : B -> B -> Prop) (f : A -> B) l :
  (forall x y, R x y -> R' (f x) (f y)) -> StronglySorted R l -> StronglySorted R' (map f l).
Proof.
  intros HR. induction 1 as [|x l Hs IH Hx]; cbn; constructor; [exact IH|].
  apply List.Forall_map. eapply List.Forall_impl; [|exact Hx]. intros y. apply HR.
Qed.

(** X17. [_build_export_record] keeps the text id and content; its edits are
    the annotations' edits, sorted by start then end. *)
Theorem build_export_record_edits text_id text annotations :
  rec_id (build_export_record text_id text annotations) = text_id /\
  rec_source (build_export_record text_id text annotations) = tx_content text /\
  Permutation (rec_edits (build_export_record text_id text annotations)) (map annotation_to_edit annotations) /\
  StronglySorted edit_le (rec_edits (build_export_record text_id text annotations)).
Proof.
  split; [reflexivity|]. split; [reflexivity|]. cbn [rec_edits build_export_record]. split.
  - apply Permutation_map, sort_by_key_perm.
  - eapply StronglySorted_map; [|apply sort_by_key_sorted].
    intros x y H. unfold edit_le. cbn. cbn in H.
    repeat (apply orb_true_iff in H as [H|H] || apply andb_true_iff in H as [?H H]);
      repeat match goal with
             | H : (_ <? _) = true |- _ => apply Z.ltb_lt in H
             | H : (_ =? _) = true |- _ => apply Z.eqb_eq in H
             | H : (_ <=? _) = true |- _ => apply Z.leb_le in H
             end; lia.
Qed.

(* proofs *)

Lemma split_on_app sep a b :
  split_on sep (a ++ sep :: b) = split_on sep a ++ split_on sep b.
Proof.
  induction a as [|c a IH]; cbn.
  - rewrite Ascii.eqb_refl. reflexivity.
  - rewrite IH. destruct (Ascii.eqb c sep); [reflexivity|].
    destruct (split_on sep a) as [|h t] eqn:E.
    + destruct a; cbn in E; [discriminate|]. destruct (Ascii.eqb a sep); [discriminate|].
      destruct (split_on sep a0); discriminate.
    + reflexivity.
Qed.

Lemma split_on_nosep sep a : existsb (fun c => Ascii.eqb c sep) a = false -> split_on sep a = [a].
Proof.
  induction a as [|c a IH]; cbn; [reflexivity|].
  intros H. apply orb_false_iff in H as [Hc Ha]. rewrite Hc, IH by exact Ha. reflexivity.
Qed.

Lemma string_of_list_ascii_app a b :
  string_of_list_ascii (a ++ b) = (string_of_list_ascii a ++ string_of_list_ascii b)%string.
Proof. induction a as [|c a IH]; [reflexivity|]. cbn [app string_of_list_ascii]. rewrite IH. reflexivity. Qed.

(** X18. [_parse_int_list] of two strings joined by a comma is the
    concatenation of their parses. *)
Theorem parse_int_list_app a b :
  parse_int_list (Some (a ++ "," ++ b)%string) = parse_int_list (Some a) ++ parse_int_list (Some b).
Proof.
  assert (Hgen : forall r, omap (fun chunk =>
              let c := list_ascii_of_string (str_strip (string_of_list_ascii chunk)) in
              if isdigit c then Some (decimal_value c) else None)
        (split_on ","%char (list_ascii_of_string r)) = parse_int_list (Some r)).
  { intros [|c r]; reflexivity. }
  rewrite <- !Hgen. rewrite list_ascii_app. cbn [list_ascii_of_string append].
  change (list_ascii_of_string ("," ++ b)%string) with (","%char :: list_ascii_of_string b).
  rewrite split_on_app. apply omap_app.
Qed.



Lemma digit_char_value d : (d < 10)%nat ->
  is_digit (ascii_of_nat (48 + d)) = true /\ is_space (ascii_of_nat (48 + d)) = false /\
  Z.of_nat (nat_of_ascii (ascii_of_nat (48 + d))) - 48 = Z.of_nat d.
Proof.
  intros Hd. unfold is_digit, is_space, ccode. rewrite nat_ascii_embedding by lia.
  split; [|split].
  - apply andb_true_iff. split; apply Nat.leb_le; lia.
  - apply orb_false_iff. split; apply andb_false_iff; right; apply Nat.leb_gt; lia.
  - lia.
Qed.

Lemma decimal_value_snoc s c :
  decimal_value (s ++ [c]) = decimal_value s * 10 + (Z.of_nat (nat_of_ascii c) - 48).
Proof. unfold decimal_value. rewrite fold_left_app. reflexivity. Qed.

Lemma digits_loop_spec f n : (n < f)%nat ->
  digits_loop f n <> [] /\ forallb is_digit (digits_loop f n) = true /\
  forallb (fun c => negb (is_space c)) (digits_loop f n) = true /\
  decimal_value (digits_loop f n) = Z.of_nat n.
Proof.
  revert n. induction f as [|f IH]; intros n Hn; [lia|]. cbn [digits_loop].
  destruct (n <? 10)%nat eqn:E.
  - apply Nat.ltb_lt in E. destruct (digit_char_value n E) as (H1 & H2 & H3).
    split; [discriminate|]. cbn [forallb]. rewrite H1, H2. split; [reflexivity|split; [reflexivity|]].
    unfold decimal_value. cbn [fold_left]. lia.
  - apply Nat.ltb_ge in E.
    assert (Hm : (n mod 10 < 10)%nat) by (apply Nat.mod_upper_bound; lia).
    destruct (digit_char_value _ Hm) as (H1 & H2 & H3).
    destruct (IH (n / 10)%nat) as (Hne & Hd & Hs & Hv).
    { assert (n / 10 < n)%nat by (apply Nat.div_lt; lia). lia. }
    split; [destruct (digits_loop f (n / 10)); discriminate|].
    rewrite !forallb_app, Hd, Hs. cbn [forallb]. rewrite H1, H2. split; [reflexivity|split; [reflexivity|]].
    rewrite decimal_value_snoc, Hv, H3.
    rewrite (Nat.div_mod n 10) at 3 by lia. lia.
Qed.

Lemma drop_while_all_space_app sp l :
  all_space sp = true -> drop_while is_space (sp ++ l) = drop_while is_space l.
Proof.
  induction sp as [|c sp IH]; cbn; [reflexivity|].
  intros H. apply andb_true_iff in H as [-> H]. exact (IH H).
Qed.

Lemma drop_while_nonspace_head c l : is_space c = false -> drop_while is_space (c :: l) = c :: l.
Proof. intros H. cbn. rewrite H. reflexivity. Qed.

Lemma all_space_rev l : all_space (rev l) = all_space l.
Proof.
  unfold all_space. induction l as [|c l IH]; cbn; [reflexivity|].
  rewrite forallb_app, IH. cbn. rewrite andb_true_r, andb_comm. reflexivity.
Qed.

Lemma str_strip_padded sp1 d sp2 :
  all_space sp1 = true -> all_space sp2 = true -> d <> [] ->
  forallb (fun c => negb (is_space c)) d = true ->
  str_strip (string_of_list_ascii (sp1 ++ d ++ sp2)) = string_of_list_ascii d.
Proof.
  intros H1 H2 Hne Hd. unfold str_strip. rewrite list_ascii_string_roundtrip.
  rewrite drop_while_all_space_app by exact H1.
  destruct d as [|c d']; [congruence|].
  pose proof Hd as Hd'. cbn in Hd'. apply andb_true_iff in Hd' as [Hc _]. apply negb_true_iff in Hc.
  rewrite <- app_comm_cons, drop_while_nonspace_head by exact Hc.
  rewrite app_comm_cons, rev_app_distr, drop_while_all_space_app by (rewrite all_space_rev; exact H2).
  assert (Hl : exists x r, rev (c :: d') = x :: r /\ is_space x = false).
  { rewrite forallb_forall in Hd.
    destruct (rev (c :: d')) as [|x r] eqn:Er; [apply (f_equal (@rev ascii)) in Er; rewrite rev_involutive in Er; discriminate|].
    exists x, r. split; [reflexivity|]. apply negb_true_iff, Hd.
    apply in_rev. rewrite Er. left. reflexivity. }
  destruct Hl as (x & r & Er & Hx). rewrite Er, drop_while_nonspace_head by exact Hx.
  rewrite <- Er, rev_involutive. reflexivity.
Qed.

Lemma existsb_comma_digits d :
  forallb is_digit d = true -> existsb (fun c => Ascii.eqb c ","%char) d = false.
Proof.
  induction d as [|c d IH]; cbn; [reflexivity|]. intros H. apply andb_true_iff in H as [Hc H].
  rewrite IH by exact H. rewrite orb_false_r.
  destruct (Ascii.eqb c ","%char) eqn:E; [|reflexivity]. apply Ascii.eqb_eq in E. subst. discriminate.
Qed.

Lemma existsb_comma_space sp :
  all_space sp = true -> existsb (fun c => Ascii.eqb c ","%char) sp = false.
Proof.
  induction sp as [|c sp IH]; cbn; [reflexivity|]. intros H. apply andb_true_iff in H as [Hc H].
  rewrite IH by exact H. rewrite orb_false_r.
  destruct (Ascii.eqb c ","%char) eqn:E; [|reflexivity]. apply Ascii.eqb_eq in E. subst. discriminate.
Qed.

Lemma parse_int_list_one p n q :
  all_space p = true -> all_space q = true ->
  parse_int_list (Some (string_of_list_ascii (padded (p, n, q)))) = [Z.of_nat n].
Proof.
  intros Hp Hq. cbn [padded].
  destruct (digits_loop_spec (S n) n ltac:(lia)) as (Hne & Hd & Hs & Hv). fold (show_nat n) in *.
  assert (Hgen : forall r, r <> EmptyString -> parse_int_list (Some r) = omap (fun chunk =>
              let c := list_ascii_of_string (str_strip (string_of_list_ascii chunk)) in
              if isdigit c then Some (decimal_value c) else None)
        (split_on ","%char (list_ascii_of_string r))).
  { intros [|c r] Hr; [congruence|reflexivity]. }
  rewrite Hgen.
  2: { intros He. apply (f_equal list_ascii_of_string) in He. rewrite list_ascii_string_roundtrip in He.
       destruct p; [|discriminate]. destruct (show_nat n); [congruence|discriminate]. }
  rewrite list_ascii_string_roundtrip, split_on_nosep.
  2: { rewrite !existsb_app, existsb_comma_space, existsb_comma_digits, existsb_comma_space by assumption. reflexivity. }
  cbn [omap list_omap]. rewrite str_strip_padded by assumption.
  rewrite list_ascii_string_roundtrip.
  destruct (show_nat n) as [|c r] eqn:Es; [congruence|]. cbn [isdigit]. rewrite Hd, Hv. reflexivity.
Qed.

(** X20. Numbers written in decimal, padded with whitespace and joined by
    commas, parse back to themselves with [_parse_int_list]. *)
Theorem parse_int_list_roundtrip items :
  Forall (fun '(p, _, q) => all_space p = true /\ all_space q = true) items ->
  parse_int_list (Some (string_of_list_ascii (join_comma (map padded items)))) =
  map (fun '(_, n, _) => Z.of_nat n) items.
Proof.
  induction 1 as [|[[p n] q] items [Hp Hq] Hall IH]; [reflexivity|].
  destruct items as [|it items].
  - cbn [map join_comma]. apply parse_int_list_one; assumption.
  - change (join_comma (map padded ((p, n, q) :: it :: items)))
      with (padded (p, n, q) ++ ","%char :: join_comma (map padded (it :: items))).
    rewrite string_of_list_ascii_app. cbn [string_of_list_ascii].
    change (String "," (string_of_list_ascii (join_comma (map padded (it :: items)))))
      with ("," ++ string_of_list_ascii (join_comma (map padded (it :: items))))%string.
    rewrite parse_int_list_app, parse_int_list_one, IH by assumption. reflexivity.
Qed.

(* proofs *)

Section Groups.

Context {A : Type} (key : A -> Z).

Implicit Types (x : A) (G : list (Z * list A)) (P : list A).

Lemma setdefault_append_keys k (x : A) G k' :
  In k' (map fst (setdefault_append k x G)) <-> k = k' \/ In k' (map fst G).
Proof.
  induction G as [|[k0 g0] G IH]; cbn; [tauto|].
  destruct (Z.eqb_spec k0 k) as [->|Hne]; cbn; [tauto|]. rewrite IH. tauto.
Qed.

Lemma setdefault_append_nodup k x G : List.NoDup (map fst G) -> List.NoDup (map fst (setdefault_append k x G)).
Proof.
  induction G as [|[k0 g0] G IH]; cbn; intros Hnd; [repeat constructor; auto|].
  apply List.NoDup_cons_iff in Hnd as [Hnin Hnd'].
  destruct (Z.eqb_spec k0 k) as [->|Hne]; cbn; constructor; auto.
  rewrite setdefault_append_keys. intros [->|Hin]; [congruence|contradiction].
Qed.

Lemma setdefault_append_members k x G k' g' :
  List.NoDup (map fst G) -> In (k', g') (setdefault_append k x G) ->
  (k' = k /\ ((g' = [x] /\ ~ In k (map fst G)) \/ exists g, In (k, g) G /\ g' = g ++ [x])) \/
  (k' <> k /\ In (k', g') G).
Proof.
  induction G as [|[k0 g0] G IH]; cbn; intros Hnd.
  - intros [H|[]]. injection H as <- <-. left. split; [reflexivity|]. left. auto.
  - apply List.NoDup_cons_iff in Hnd as [Hnin Hnd'].
    destruct (Z.eqb_spec k0 k) as [Heq|Hne]; cbn.
    + subst k0. intros [H|H].
      * injection H as <- <-. left. split; [reflexivity|]. right. exists g0. auto.
      * right. split; [|right; exact H].
        intros ->. apply Hnin. apply (in_map fst) in H. exact H.
    + intros [H|H].
      * injection H as <- <-. right. split; [exact Hne|left; reflexivity].
      * destruct (IH Hnd' H) as [(-> & [(-> & Hn)|(g & Hg & ->)])|(Hne' & Hin)].
        -- left. split; [reflexivity|]. left. split; [reflexivity|]. intros [Hk|Hk]; [congruence|tauto].
        -- left. split; [reflexivity|]. right. exists g. split; [right; exact Hg|reflexivity].
        -- right. split; [exact Hne'|right; exact Hin].
Qed.

Lemma keyed_groups_step P G x :
  keyed_groups_inv key P G -> keyed_groups_inv key (P ++ [x]) (setdefault_append (key x) x G).
Proof.
  intros (Hnd & Hkeys & Hgroups). split; [|split].
  - apply setdefault_append_nodup. exact Hnd.
  - intros k. rewrite setdefault_append_keys, Hkeys. split.
    + intros [<-|(r0 & Hr0 & Hk)].
      * exists x. split; [apply in_or_app; right; left; reflexivity|reflexivity].
      * exists r0. split; [apply in_or_app; left; exact Hr0|exact Hk].
    + intros (r0 & Hr0 & Hk). apply in_app_or in Hr0 as [Hr0|[<-|[]]].
      * right. exists r0. auto.
      * left. exact Hk.
  - intros k g Hin. rewrite List.filter_app. cbn.
    destruct (setdefault_append_members _ _ _ _ _ Hnd Hin) as [(-> & [(-> & Hn)|(g0 & Hg0 & ->)])|(Hne & Hin')].
    + rewrite Z.eqb_refl.
      assert (Hnil : List.filter (fun r0 => key r0 =? key x) P = []).
      { destruct (List.filter _ P) as [|y rest] eqn:Ef; [reflexivity|].
        exfalso. apply Hn. apply Hkeys. exists y.
        assert (Hy : In y (List.filter (fun r0 => key r0 =? key x) P)) by (rewrite Ef; left; reflexivity).
        apply filter_In in Hy as [Hy Hk]. apply Z.eqb_eq in Hk. eauto. }
      rewrite Hnil. reflexivity.
    + rewrite Z.eqb_refl. rewrite (Hgroups _ _ Hg0). reflexivity.
    + rewrite (Hgroups _ _ Hin'). destruct (Z.eqb_spec (key x) k) as [Heq|_]; [congruence|].
      rewrite app_nil_r. reflexivity.
Qed.

Lemma keyed_groups_fold L :
  keyed_groups_inv key L (fold_left (fun g x => setdefault_append (key x) x g) L []).
Proof.
  assert (Hgen : forall P G, keyed_groups_inv key P G ->
            keyed_groups_inv key (P ++ L) (fold_left (fun g x => setdefault_append (key x) x g) L G)).
  { induction L as [|x L IH]; intros P G Hinv; cbn; [rewrite app_nil_r; exact Hinv|].
    replace (P ++ x :: L) with ((P ++ [x]) ++ L) by (rewrite <- app_assoc; reflexivity).
    apply IH. apply keyed_groups_step. exact Hinv. }
  apply (Hgen []). split; [constructor|]. split.
  - intros k. cbn. split; [intros []|intros (r & [] & _)].
  - intros k g [].
Qed.

End Groups.

Lemma combinations2_length {A} (l : list A) :
  (2 * length (combinations2 l) = length l * (length l - 1))%nat.
Proof.
  induction l as [|x l IH]; cbn [combinations2 length]; [reflexivity|].
  rewrite length_app, length_map. destruct l; cbn in *; lia.
Qed.

Lemma combinations2_In {A} (l : list A) x y :
  In (x, y) (combinations2 l) <-> exists l1 l2, l = l1 ++ x :: l2 /\ In y l2.
Proof.
  induction l as [|z l IH]; cbn [combinations2].
  - split; [intros []|]. intros (l1 & l2 & H & _). destruct l1; discriminate.
  - rewrite in_app_iff, in_map_iff, IH. split.
    + intros [(y' & [= <- <-] & Hy)|(l1 & l2 & -> & Hy)].
      * exists [], l. auto.
      * exists (z :: l1), l2. auto.
    + intros ([|w l1] & l2 & Heq & Hy); cbn in Heq; injection Heq as -> ->.
      * left. eauto.
      * right. eauto.
Qed.

Lemma combinations2_cover {A} (l : list A) x y :
  In x l -> In y l -> x <> y -> In (x, y) (combinations2 l) \/ In (y, x) (combinations2 l).
Proof.
  induction l as [|z l IH]; [intros []|]. cbn [combinations2]. rewrite !in_app_iff, !in_map_iff.
  intros [<-|Hx] [<-|Hy] Hne.
  - congruence.
  - left. left. eauto.
  - right. left. eauto.
  - destruct (IH Hx Hy Hne); auto.
Qed.

Lemma combinations2_nodup_distinct {A} (l : list A) x y :
  List.NoDup l -> In (x, y) (combinations2 l) -> x <> y.
Proof.
  intros Hnd Hin. apply combinations2_In in Hin as (l1 & l2 & -> & Hy).
  intros ->. apply List.NoDup_remove_2 in Hnd. apply Hnd. apply in_or_app. right. exact Hy.
Qed.

(** X21. [get_annotation_diffs] returns one entry per unordered pair of
    distinct authors of the text; each entry's [only_left] / [only_right]
    are the set differences of the two authors' annotation tuples. *)
Theorem get_annotation_diffs_spec annotations :
  let ds := get_annotation_diffs annotations in
  let k := length (authors annotations) in
  List.NoDup (authors annotations) /\
  (forall a, In a (authors annotations) <-> exists x, In x annotations /\ ann_author x = a) /\
  (2 * length ds = k * (k - 1))%nat /\
  (forall d, In d ds ->
     d.(diff_pair).1 <> d.(diff_pair).2 /\
     In d.(diff_pair).1 (authors annotations) /\ In d.(diff_pair).2 (authors annotations) /\
     only_left d = tuple_set (by_author annotations d.(diff_pair).1) ∖ tuple_set (by_author annotations d.(diff_pair).2) /\
     only_right d = tuple_set (by_author annotations d.(diff_pair).2) ∖ tuple_set (by_author annotations d.(diff_pair).1)) /\
  (forall a b, In a (authors annotations) -> In b (authors annotations) -> a <> b ->
     exists d, In d ds /\ (diff_pair d = (a, b) \/ diff_pair d = (b, a))).
Proof.
  destruct (keyed_groups_fold ann_author annotations) as (Hnd & Hkeys & Hgroups).
  fold (group_by_author annotations) in Hnd, Hkeys, Hgroups.
  unfold authors. set (G := group_by_author annotations) in *.
  assert (HGnd : List.NoDup G) by (eapply NoDup_map_inv; exact Hnd).
  assert (Hds : get_annotation_diffs annotations =
                map (fun '((l, gl), (r, gr)) =>
                       mkDiff (l, r) (tuple_set gl ∖ tuple_set gr) (tuple_set gr ∖ tuple_set gl))
                    (combinations2 G)).
  { unfold get_annotation_diffs. destruct annotations as [|a rest]; [|reflexivity]. reflexivity. }
  cbv zeta. rewrite Hds.
  split; [exact Hnd|]. split; [exact Hkeys|]. split.
  - rewrite length_map, length_map. apply combinations2_length.
  - split.
    + intros d Hd. apply in_map_iff in Hd as ([[l gl] [r gr]] & <- & Hin). cbn [diff_pair only_left only_right fst snd].
      pose proof (combinations2_nodup_distinct _ _ _ HGnd Hin) as Hne.
      apply combinations2_In in Hin as (l1 & l2 & HG & Hy).
      assert (Hl : In (l, gl) G) by (rewrite HG; apply in_or_app; right; left; reflexivity).
      assert (Hr : In (r, gr) G) by (rewrite HG; apply in_or_app; right; right; exact Hy).
      rewrite (Hgroups _ _ Hl), (Hgroups _ _ Hr).
      split; [|split; [apply (in_map fst) in Hl; exact Hl|split; [apply (in_map fst) in Hr; exact Hr|split; reflexivity]]].
      intros Heq. subst r. rewrite HG in Hnd. rewrite map_app in Hnd. cbn in Hnd.
      apply List.NoDup_remove_2 in Hnd. apply Hnd. apply in_or_app. right. apply (in_map fst) in Hy. exact Hy.
    + intros a b Ha Hb Hab.
      apply in_map_iff in Ha as ([a' ga] & Ea & Ha). apply in_map_iff in Hb as ([b' gb] & Eb & Hb).
      cbn in Ea, Eb. subst a' b'.
      assert (Hne : (a, ga) <> (b, gb)) by congruence.
      destruct (combinations2_cover _ _ _ Ha Hb Hne) as [H|H].
      * eexists. split; [apply in_map_iff; eexists; split; [|exact H]; reflexivity|]. left. reflexivity.
      * eexists. split; [apply in_map_iff; eexists; split; [|exact H]; reflexivity|]. right. reflexivity.
Qed.

(** Witnesses of the properties above on concrete inputs. *)

Lemma build_tokens_from_snapshot_joined_witness :
  words_ok ["ab"; "c"]%string /\
  build_tokens_from_snapshot ["ab"; "c"]%string (join_space ["ab"; "c"]%string) = spaced_tokens false ["ab"; "c"]%string.
Proof.
  assert (H : words_ok ["ab"; "c"]%string) by (repeat (constructor || discriminate)).
  split; [exact H|]. exact (build_tokens_from_snapshot_joined _ H).
Defined.

Lemma apply_annotations_moves_permute_witness :
  Forall move_or_noop [move_annotation 1 0 0 2 0 1] /\
  Permutation (map tok_text (apply_annotations (tokenize_edited_text "a b c") [move_annotation 1 0 0 2 0 1]))
              (map tok_text (tokenize_edited_text "a b c")).
Proof.
  assert (H : Forall move_or_noop [move_annotation 1 0 0 2 0 1])
    by (constructor; [left; vm_compute; reflexivity|constructor]).
  split; [exact H|]. exact (apply_annotations_moves_permute _ _ H).
Defined.

Lemma apply_single_edit_witness :
  map tok_text (apply_annotations (tokenize_edited_text "a b c") [edit_ann]) =
  map tok_text (firstn 1 (tokenize_edited_text "a b c")) ++ str_split "x y" ++
  map tok_text (skipn 2 (tokenize_edited_text "a b c")).
Proof.
  exact (apply_single_edit (tokenize_edited_text "a b c") edit_ann
           ltac:(vm_compute; discriminate) ltac:(vm_compute; discriminate)
           eq_refl eq_refl ltac:(vm_compute; congruence) ltac:(vm_compute; split; congruence)).
Defined.

Lemma get_next_text_post_witness :
  get_next_text sched_world 10 1 5 = ok (1, sched_locked) /\ skipped_by sched_world 10 1 = false.
Proof.
  assert (H : get_next_text sched_world 10 1 5 = ok (1, sched_locked)) by (vm_compute; reflexivity).
  split; [exact H|]. exact (proj1 (proj2 (proj2 (proj2 (get_next_text_post _ _ _ _ _ _ H))))).
Defined.

Lemma submit_annotations_post_witness :
  submit_annotations sched_world 10 1 5 = ok sched_after_submit /\ skipped_by sched_after_submit 10 1 = false.
Proof.
  assert (H : submit_annotations sched_world 10 1 5 = ok sched_after_submit) by (vm_compute; reflexivity).
  split; [exact H|]. exact (proj1 (proj2 (proj2 (submit_annotations_post _ _ _ _ _ H)))).
Defined.

Lemma flag_text_post_witness :
  flag_text sched_locked 10 1 FlagSkip 6 = ok sched_flagged /\
  w_next_task sched_flagged = w_next_task sched_locked.
Proof.
  assert (H : flag_text sched_locked 10 1 FlagSkip 6 = ok sched_flagged) by (vm_compute; reflexivity).
  split; [exact H|].
  exact (proj2 (proj2 (proj2 (proj2 (proj2 (proj2 (flag_text_post _ _ _ _ _ _ H))))))).
Defined.

Lemma flag_text_blocks_text_witness :
  tasks_fresh two_texts_world /\
  find_task two_texts_world 1 10 = Some (1, mkTask 1 10 "in_progress" 5) /\
  flag_text two_texts_world 10 1 FlagSkip 6 = ok two_texts_flagged /\
  get_next_text two_texts_flagged 20 1 7 = ok (2, two_texts_next) /\ 2 <> 1.
Proof.
  assert (Hf : tasks_fresh two_texts_world).
  { intros i [x Hx]. unfold two_texts_world in Hx. cbn [w_tasks] in Hx.
    apply lookup_singleton_Some in Hx as [<- _]. cbn. lia. }
  assert (Hfind : find_task two_texts_world 1 10 = Some (1, mkTask 1 10 "in_progress" 5))
    by (vm_compute; reflexivity).
  assert (Hflag : flag_text two_texts_world 10 1 FlagSkip 6 = ok two_texts_flagged)
    by (vm_compute; reflexivity).
  assert (Hnext : get_next_text two_texts_flagged 20 1 7 = ok (2, two_texts_next))
    by (vm_compute; reflexivity).
  split; [exact Hf|]. split; [exact Hfind|]. split; [exact Hflag|]. split; [exact Hnext|].
  exact (flag_text_blocks_text _ _ _ _ _ _ _ _ _ _ _ _ _ _ Hf Hfind Hflag (rtc_refl _ _) Hnext).
Defined.

Lemma parse_int_list_roundtrip_witness :
  Forall (fun '(p, _, q) => all_space p = true /\ all_space q = true)
    [([" "%char], 12%nat, []); ([], 3%nat, [" "%char])] /\
  parse_int_list (Some " 12,3 ") = [12; 3].
Proof.
  assert (H : Forall (fun '(p, _, q) => all_space p = true /\ all_space q = true)
                [([" "%char], 12%nat, []); ([], 3%nat, [" "%char])])
    by (repeat constructor).
  split; [exact H|]. exact (parse_int_list_roundtrip _ H).
Defined.
